(** * packer-plugin-amazon: a shallow embedding of the validation and
      orchestration code, with the properties its specification states.

    Sources embedded here:
    - [common/state.go]                      ([Module Polling])
    - [common/ami_config.go]                 ([Module AmiConfig], [Module Regexp])
    - [builder/chroot/step_manual_mount_command.go] ([Module Chroot])
    - the ebsvolume builder's [Builder.Run]  ([Module Ebsvolume])
    - the ebsvolume builder's [Builder.Prepare] ([Module EbsvolumeConfig])
    - the ebssurrogate [RootBlockDevice]     ([Module Ebssurrogate])
    - the import post-processor              ([Module AmazonImport],
                                              [Module ImportCalls])

    Go strings are byte strings: [string] (a list of [ascii]) with
    [String.length] for [len] and [+:+] for concatenation.  Go maps are [gmap string _]; [range] over a
    map visits [map_to_list], Go leaving the order unspecified (no theorem
    below depends on it).  An [error] is the message it was built from. *)

From Stdlib Require Import String Ascii List Bool Arith ZArith Lia.
From stdpp Require Import base option list gmap strings.
Import ListNotations.
Local Open Scope string_scope.
Local Open Scope list_scope.

(* ================================================================== *)
(** * Go runtime conventions *)
(* ================================================================== *)

Module Go.

(** An [error] value, identified with its message. *)
Definition error := string.

(** The byte [0x22], Go's double quote. *)
Definition dquote : ascii := ascii_of_nat 34.
Definition backslash : ascii := ascii_of_nat 92.

(** [%q] of [fmt]: the operand between double quotes, a double quote or a
    backslash inside it escaped by a backslash (the escapes of control and
    non-ASCII bytes are outside this model). *)
Fixpoint quote_body (s : string) : string :=
  match s with
  | EmptyString => EmptyString
  | String c s' =>
      if (Ascii.eqb c dquote || Ascii.eqb c backslash)%bool
      then String backslash (String c (quote_body s'))
      else String c (quote_body s')
  end.

Definition fmt_q (s : string) : string :=
  String dquote (quote_body s +:+ String dquote EmptyString).

(** What a call can do besides returning: a run-time panic (a failed type
    assertion, a nil dereference, an index out of range). *)
Inductive outcome (A : Type) : Type :=
| Returns (a : A)
| Panics (why : string).
Arguments Returns {A} a.
Arguments Panics {A} why.

Definition bind {A B} (m : outcome A) (k : A -> outcome B) : outcome B :=
  match m with
  | Returns a => k a
  | Panics w => Panics w
  end.

#[global] Instance outcome_ret : MRet outcome := fun A a => Returns a.
#[global] Instance outcome_bind : MBind outcome := fun A B k m => bind m k.

(** [*p] on a pointer that may be nil. *)
Definition deref {A} (p : option A) : outcome A :=
  match p with
  | Some a => Returns a
  | None => Panics "nil pointer dereference"
  end.

(** [l[0]] on a slice. *)
Definition index0 {A} (l : list A) : outcome A :=
  match l with
  | a :: _ => Returns a
  | [] => Panics "index out of range"
  end.

(** [strings.HasSuffix]. *)
Definition HasSuffix (s suffix : string) : bool :=
  let n := String.length s in
  let k := String.length suffix in
  Nat.leb k n && String.eqb (substring (n - k) k s) suffix.

(** [s == ""] and friends on Go strings. *)
Definition is_empty (s : string) : bool := String.eqb s "".

(** [config.Trilean] of the plugin SDK. *)
Inductive Trilean := TriUnset | TriTrue | TriFalse.

Definition Trilean_True (t : Trilean) : bool :=
  match t with TriTrue => true | _ => false end.

End Go.

(* ================================================================== *)
(** * Regular expressions, as [regexp.MatchString] reads the patterns of
      [ValidateKmsKey] *)
(* ================================================================== *)

Module Regexp.

(** The fragment of RE2 syntax the patterns use: byte classes,
    concatenation, alternation, repetition. *)
Inductive re : Type :=
| Void
| Eps
| Class (p : ascii -> bool)
| Cat (a b : re)
| Alt (a b : re)
| Star (a : re).

(** [a+], [a?], [a{n}] and a literal. *)
Definition Plus (a : re) : re := Cat a (Star a).
Definition Opt (a : re) : re := Alt a Eps.

Fixpoint Rep (n : nat) (a : re) : re :=
  match n with
  | O => Eps
  | S n' => Cat a (Rep n' a)
  end.

Definition Chr (c : ascii) : re := Class (Ascii.eqb c).

Fixpoint Lit (s : string) : re :=
  match s with
  | EmptyString => Eps
  | String c s' => Cat (Chr c) (Lit s')
  end.

(** Matching by derivatives. *)
Fixpoint nullable (r : re) : bool :=
  match r with
  | Void => false
  | Eps => true
  | Class _ => false
  | Cat a b => nullable a && nullable b
  | Alt a b => nullable a || nullable b
  | Star _ => true
  end.

Fixpoint deriv (c : ascii) (r : re) : re :=
  match r with
  | Void => Void
  | Eps => Void
  | Class p => if p c then Eps else Void
  | Cat a b =>
      if nullable a then Alt (Cat (deriv c a) b) (deriv c b)
      else Cat (deriv c a) b
  | Alt a b => Alt (deriv c a) (deriv c b)
  | Star a => Cat (deriv c a) (Star a)
  end.

Fixpoint accepts (r : re) (s : list ascii) : bool :=
  match s with
  | [] => nullable r
  | c :: s' => accepts (deriv c r) s'
  end.

(** The language of an expression, for stating what [accepts] decides. *)
Inductive Matches : re -> list ascii -> Prop :=
| MEps : Matches Eps []
| MClass p c : p c = true -> Matches (Class p) [c]
| MCat a b s t : Matches a s -> Matches b t -> Matches (Cat a b) (s ++ t)
| MAltL a b s : Matches a s -> Matches (Alt a b) s
| MAltR a b s : Matches b s -> Matches (Alt a b) s
| MStarNil a : Matches (Star a) []
| MStarApp a s t : Matches a s -> Matches (Star a) t -> Matches (Star a) (s ++ t).

(** A compiled pattern: its body, and whether it opens with [^] and closes
    with [$] (outside multi-line mode [$] is the end of the text). *)
Record Regexp := {
  bol : bool;
  body : re;
  eol : bool
}.

Definition anyByte : re := Class (fun _ => true).

Definition unanchored (r : Regexp) : re :=
  Cat (if bol r then Eps else Star anyByte)
      (Cat (body r) (if eol r then Eps else Star anyByte)).

(** [regexp.MustCompile(p).MatchString(s)]: some substring matches. *)
Definition MatchString (r : Regexp) (s : string) : bool :=
  accepts (unanchored r) (list_ascii_of_string s).

(** Byte ranges of the classes. *)
Definition in_range (lo hi c : ascii) : bool :=
  Nat.leb (nat_of_ascii lo) (nat_of_ascii c)
  && Nat.leb (nat_of_ascii c) (nat_of_ascii hi).

Definition is_lower (c : ascii) : bool := in_range "a" "z" c.
Definition is_upper (c : ascii) : bool := in_range "A" "Z" c.
Definition is_digit (c : ascii) : bool := in_range "0" "9" c.

End Regexp.

(* ================================================================== *)
(** * [common/state.go]: the polling configuration *)
(* ================================================================== *)

Module Polling.

(** [AWSPollingConfig]; Go's [int] fields as [Z]. *)
Record AWSPollingConfig := {
  MaxAttempts : Z;
  DelaySeconds : Z
}.

(** The process environment; [os.Getenv] gives the empty string for a
    variable that is not set. *)
Definition Getenv (env : gmap string string) (key : string) : string :=
  default "" (env !! key).

Definition nonempty (s : string) : bool := negb (String.eqb s "").

Definition warn_both : string :=
  "[WARNING] (aws): AWS_MAX_ATTEMPTS and " +:+
  "AWS_TIMEOUT_SECONDS are both set. Packer will use " +:+
  "AWS_MAX_ATTEMPTS and discard AWS_TIMEOUT_SECONDS.".

Definition warn_both_nodelay : string :=
  warn_both +:+ "  Since you have not set the poll delay, " +:+
  "Packer will default to a 2-second delay.".

Definition warn_timeout_deprecated : string :=
  "[WARNING] (aws): env var AWS_TIMEOUT_SECONDS is " +:+
  "deprecated in favor of AWS_MAX_ATTEMPTS env or aws_polling_max_attempts config option. " +:+
  "If you have not explicitly set AWS_POLL_DELAY_SECONDS env or aws_polling_delay_seconds config option, " +:+
  "we are defaulting to a poll delay of 2 seconds, regardless of the AWS waiter's default.".

Definition info_no_overrides : string :=
  "[INFO] (aws): No AWS timeout and polling overrides have been set. " +:+
  "Packer will default to waiter-specific delays and timeouts. If you would " +:+
  "like to customize the length of time between retries and max " +:+
  "number of retries you may do so by setting the environment " +:+
  "variables AWS_POLL_DELAY_SECONDS and AWS_MAX_ATTEMPTS or the " +:+
  "configuration options aws_polling_delay_seconds and aws_polling_max_attempts " +:+
  "to your desired values.".

(** [(w *AWSPollingConfig) LogEnvOverrideWarnings()]: the receiver after the
    call, and the lines handed to [log], in order. *)
Definition LogEnvOverrideWarnings (w : AWSPollingConfig) (env : gmap string string)
  : AWSPollingConfig * list string :=
  let pollDelayEnv := Getenv env "AWS_POLL_DELAY_SECONDS" in
  let timeoutSecondsEnv := Getenv env "AWS_TIMEOUT_SECONDS" in
  let maxAttemptsEnv := Getenv env "AWS_MAX_ATTEMPTS" in
  let maxAttemptsIsSet := nonempty maxAttemptsEnv || negb (MaxAttempts w =? 0)%Z in
  let timeoutSecondsIsSet := nonempty timeoutSecondsEnv in
  let pollDelayIsSet := nonempty pollDelayEnv || negb (DelaySeconds w =? 0)%Z in
  let log1 :=
    if maxAttemptsIsSet && timeoutSecondsIsSet then
      [if negb pollDelayIsSet then warn_both_nodelay else warn_both]
    else if timeoutSecondsIsSet then [warn_timeout_deprecated]
    else [] in
  let log2 :=
    if negb maxAttemptsIsSet && negb timeoutSecondsIsSet && negb pollDelayIsSet
    then [info_no_overrides] else [] in
  (w, log1 ++ log2).

(** The three conditions the function computes, named for the statements
    about it. *)
Definition maxAttemptsIsSet (w : AWSPollingConfig) (env : gmap string string) : bool :=
  nonempty (Getenv env "AWS_MAX_ATTEMPTS") || negb (MaxAttempts w =? 0)%Z.
Definition timeoutSecondsIsSet (env : gmap string string) : bool :=
  nonempty (Getenv env "AWS_TIMEOUT_SECONDS").
Definition pollDelayIsSet (w : AWSPollingConfig) (env : gmap string string) : bool :=
  nonempty (Getenv env "AWS_POLL_DELAY_SECONDS") || negb (DelaySeconds w =? 0)%Z.

End Polling.

(* ================================================================== *)
(** * [common/ami_config.go] *)
(* ================================================================== *)

Module AmiConfig.
Import Go Regexp.

(** ** [ValidateKmsKey] *)

(** [[a-f0-9]], [[a-f0-9-]], [[a-zA-Z0-9:/_-]] *)
Definition hexClass (c : ascii) : bool := in_range "a" "f" c || is_digit c.
Definition hexDashClass (c : ascii) : bool :=
  in_range "a" "f" c || is_digit c || Ascii.eqb c "-".
Definition aliasClass (c : ascii) : bool :=
  is_lower c || is_upper c || is_digit c
  || Ascii.eqb c ":" || Ascii.eqb c "/" || Ascii.eqb c "_" || Ascii.eqb c "-".

(** [mrk-[a-f0-9]+[a-f0-9-]+$] *)
Definition mrkKeyIdPattern : re :=
  Cat (Lit "mrk-") (Cat (Plus (Class hexClass)) (Plus (Class hexDashClass))).

(** [[a-f0-9]+[a-f0-9-]+$] *)
Definition kmsKeyIdPattern : re :=
  Cat (Plus (Class hexClass)) (Plus (Class hexDashClass)).

(** [alias/[a-zA-Z0-9:/_-]+$] *)
Definition aliasPattern : re :=
  Cat (Lit "alias/") (Plus (Class aliasClass)).

(** [^arn:aws(-[a-z]{2}(-gov)?)?:kms:([a-z]{2}-(gov-)?[a-z]+-\d{1})?:(\d{12}):] *)
Definition kmsArnStartPattern : re :=
  Cat (Lit "arn:aws")
 (Cat (Opt (Cat (Lit "-") (Cat (Rep 2 (Class is_lower)) (Opt (Lit "-gov")))))
 (Cat (Lit ":kms:")
 (Cat (Opt (Cat (Rep 2 (Class is_lower))
           (Cat (Lit "-")
           (Cat (Opt (Lit "gov-"))
           (Cat (Plus (Class is_lower))
           (Cat (Lit "-") (Rep 1 (Class is_digit))))))))
 (Cat (Lit ":")
 (Cat (Rep 12 (Class is_digit))
      (Lit ":")))))).

(** Every pattern the function compiles opens with [^] and closes with [$]. *)
Definition anchored (r : re) : Regexp := {| bol := true; body := r; eol := true |}.

Definition ValidateKmsKey (kmsKey : string) : bool :=
  if MatchString (anchored kmsKeyIdPattern) kmsKey then true
  else if MatchString (anchored mrkKeyIdPattern) kmsKey then true
  else if MatchString (anchored aliasPattern) kmsKey then true
  else if MatchString (anchored (Cat kmsArnStartPattern (Cat (Lit "key/") kmsKeyIdPattern))) kmsKey then true
  else if MatchString (anchored (Cat kmsArnStartPattern (Cat (Lit "key/") mrkKeyIdPattern))) kmsKey then true
  else if MatchString (anchored (Cat kmsArnStartPattern aliasPattern)) kmsKey then true
  else false.

(** The shape of a bare key id, as the specification names it: a
    hexadecimal digit first, then hexadecimal digits and dashes. *)
Definition key_id_shape (s : string) : bool :=
  match list_ascii_of_string s with
  | c :: rest =>
      hexClass c && Nat.ltb 0 (length rest) && forallb hexDashClass rest
  | [] => false
  end.

(** ** The configuration structures *)

(** The one field of [AccessConfig] this file reads. *)
Record AccessConfig := { RawRegion : string }.

Record DeregistrationProtectionOptions := {
  Enabled : bool;
  WithCooldown : bool
}.

(** [config.KeyValue] and [config.KeyValues] of the plugin SDK. *)
Record KeyValue := { Key : string; Value : string }.

(** The fields of [AMIConfig] (and of the [SnapshotConfig] it embeds) that
    [Prepare] reads or writes. *)
Record AMIConfig := {
  AMIName : string;
  AMIUsers : list string;
  AMIOrgArns : list string;
  AMIOuArns : list string;
  AMIRegions : list string;
  AMITags : gmap string string;
  AMITag : list KeyValue;
  AMIEncryptBootVolume : Trilean;
  AMIKmsKeyId : string;
  AMIRegionKMSKeyIDs : gmap string string;
  AMIIMDSSupport : string;
  DeprecationTime : string;
  SnapshotTags : gmap string string;
  SnapshotTag : list KeyValue;
  SnapshotUsers : list string;
  DeregistrationProtection : DeregistrationProtectionOptions
}.

Definition set_AMIRegions (v : list string) (c : AMIConfig) : AMIConfig :=
  {| AMIName := AMIName c; AMIUsers := AMIUsers c; AMIOrgArns := AMIOrgArns c;
     AMIOuArns := AMIOuArns c; AMIRegions := v; AMITags := AMITags c;
     AMITag := AMITag c; AMIEncryptBootVolume := AMIEncryptBootVolume c;
     AMIKmsKeyId := AMIKmsKeyId c; AMIRegionKMSKeyIDs := AMIRegionKMSKeyIDs c;
     AMIIMDSSupport := AMIIMDSSupport c; DeprecationTime := DeprecationTime c;
     SnapshotTags := SnapshotTags c; SnapshotTag := SnapshotTag c;
     SnapshotUsers := SnapshotUsers c;
     DeregistrationProtection := DeregistrationProtection c |}.

Definition set_AMITags (v : gmap string string) (c : AMIConfig) : AMIConfig :=
  {| AMIName := AMIName c; AMIUsers := AMIUsers c; AMIOrgArns := AMIOrgArns c;
     AMIOuArns := AMIOuArns c; AMIRegions := AMIRegions c; AMITags := v;
     AMITag := AMITag c; AMIEncryptBootVolume := AMIEncryptBootVolume c;
     AMIKmsKeyId := AMIKmsKeyId c; AMIRegionKMSKeyIDs := AMIRegionKMSKeyIDs c;
     AMIIMDSSupport := AMIIMDSSupport c; DeprecationTime := DeprecationTime c;
     SnapshotTags := SnapshotTags c; SnapshotTag := SnapshotTag c;
     SnapshotUsers := SnapshotUsers c;
     DeregistrationProtection := DeregistrationProtection c |}.

Definition set_SnapshotTags (v : gmap string string) (c : AMIConfig) : AMIConfig :=
  {| AMIName := AMIName c; AMIUsers := AMIUsers c; AMIOrgArns := AMIOrgArns c;
     AMIOuArns := AMIOuArns c; AMIRegions := AMIRegions c; AMITags := AMITags c;
     AMITag := AMITag c; AMIEncryptBootVolume := AMIEncryptBootVolume c;
     AMIKmsKeyId := AMIKmsKeyId c; AMIRegionKMSKeyIDs := AMIRegionKMSKeyIDs c;
     AMIIMDSSupport := AMIIMDSSupport c; DeprecationTime := DeprecationTime c;
     SnapshotTags := v; SnapshotTag := SnapshotTag c;
     SnapshotUsers := SnapshotUsers c;
     DeregistrationProtection := DeregistrationProtection c |}.

Definition set_DeregistrationProtection (v : DeregistrationProtectionOptions)
  (c : AMIConfig) : AMIConfig :=
  {| AMIName := AMIName c; AMIUsers := AMIUsers c; AMIOrgArns := AMIOrgArns c;
     AMIOuArns := AMIOuArns c; AMIRegions := AMIRegions c; AMITags := AMITags c;
     AMITag := AMITag c; AMIEncryptBootVolume := AMIEncryptBootVolume c;
     AMIKmsKeyId := AMIKmsKeyId c; AMIRegionKMSKeyIDs := AMIRegionKMSKeyIDs c;
     AMIIMDSSupport := AMIIMDSSupport c; DeprecationTime := DeprecationTime c;
     SnapshotTags := SnapshotTags c; SnapshotTag := SnapshotTag c;
     SnapshotUsers := SnapshotUsers c;
     DeregistrationProtection := v |}.

(** [types.ImdsSupportValuesV20] of the AWS SDK. *)
Definition ImdsSupportValuesV20 : string := "v2.0".

(** [KeyValues.CopyOn] of the plugin SDK: every pair is written into the
    map, a later pair over an earlier one of the same key; it reports no
    error. *)
Definition CopyOn (kvs : list KeyValue) (to : gmap string string)
  : gmap string string * list error :=
  (fold_left (fun m kv => <[Key kv := Value kv]> m) kvs to, []).

(** Modelled from the spec: [templateCleanAMIName], the [clean_resource_name]
    template filter, whose file is not under src/.  It keeps the characters
    an AMI name may hold (alphanumerics, parentheses, square brackets,
    spaces, periods, slashes, dashes, single quotes, at-signs, underscores)
    and puts a dash in place of every other byte. *)
Definition isalphanumeric (b : ascii) : bool :=
  is_digit b || is_lower b || is_upper b.

Definition allowed : list ascii :=
  ["("; ")"; "["; "]"; " "; "."; "/"; "-"; "'"; "@"; "_"]%char.

Definition allowedByte (c : ascii) : bool :=
  isalphanumeric c || existsb (Ascii.eqb c) allowed.

Fixpoint templateCleanAMIName (s : string) : string :=
  match s with
  | EmptyString => EmptyString
  | String c s' =>
      String (if allowedByte c then c else "-"%char) (templateCleanAMIName s')
  end.

(** ** [stringInSlice] *)

Fixpoint stringInSlice (s : list string) (searchstr : string) : bool :=
  match s with
  | [] => false
  | item :: rest =>
      if String.eqb item searchstr then true else stringInSlice rest searchstr
  end.

(** ** [prepareRegions] *)

Definition err_region_not_in_kms (region : string) : error :=
  "Region " +:+ region +:+ " is in ami_regions but not in region_kms_key_ids".

(** The body of the [for _, region := range c.AMIRegions] loop, with the
    three variables it updates: [regionSet], [regions] and [errs]. *)
Fixpoint prepareRegions_loop (kms : gmap string string)
  (accessConfig : option AccessConfig) (todo : list string)
  (regionSet : gset string) (regions : list string) (errs : list error)
  : list string * list error :=
  match todo with
  | [] => (regions, errs)
  | region :: rest =>
      if bool_decide (region ∈ regionSet) then
        prepareRegions_loop kms accessConfig rest regionSet regions errs
      else
        let regionSet := {[region]} ∪ regionSet in
        let errs :=
          if Nat.ltb 0 (size kms) then
            match kms !! region with
            | Some _ => errs
            | None => errs ++ [err_region_not_in_kms region]
            end
          else errs in
        match accessConfig with
        | Some ac =>
            if String.eqb region (RawRegion ac) then
              prepareRegions_loop kms accessConfig rest regionSet regions errs
            else
              prepareRegions_loop kms accessConfig rest regionSet
                                  (regions ++ [region]) errs
        | None =>
            prepareRegions_loop kms accessConfig rest regionSet
                                (regions ++ [region]) errs
        end
  end.

Definition prepareRegions (c : AMIConfig) (accessConfig : option AccessConfig)
  : AMIConfig * list error :=
  if Nat.ltb 0 (length (AMIRegions c)) then
    let '(regions, errs) :=
      prepareRegions_loop (AMIRegionKMSKeyIDs c) accessConfig (AMIRegions c) ∅ [] [] in
    (set_AMIRegions regions c, errs)
  else (c, []).

(** ** [Prepare] *)

Definition err_name_missing : error := "ami_name must be specified".

Definition err_kms_region_not_in_regions (kmsKeyRegion : string) : error :=
  "Region " +:+ kmsKeyRegion +:+ " is in region_kms_key_ids but not in ami_regions".

Definition err_share_default_key : error :=
  "Cannot share AMI encrypted with default KMS key".

Definition err_share_default_key_regions : error :=
  "Cannot share AMI encrypted with default KMS key for other regions".

Definition err_encrypt_boot : error :=
  "If you have set either " +:+
  "region_kms_key_ids or kms_key_id, encrypt_boot must also be true.".

Definition err_invalid_kms (kmsKey : string) : error :=
  fmt_q kmsKey +:+ " is not a valid KMS Key Id.".

Definition err_snapshot_default_key : error :=
  "Cannot share snapshot encrypted " +:+
  "with default KMS key, see https://www.packer.io/docs/builders/amazon-ebs#region_kms_key_ids for more information".

Definition err_snapshot_default_key_regions : error :=
  "Cannot share snapshot encrypted with default KMS key".

Definition err_name_length : error :=
  "ami_name must be between 3 and 128 characters long".

Definition err_name_chars : error :=
  "AMIName should only contain " +:+
  "alphanumeric characters, parentheses (()), square brackets ([]), spaces " +:+
  "( ), periods (.), slashes (/), dashes (-), single quotes ('), at-signs " +:+
  "(@), or underscores(_). You can use the `clean_resource_name` template " +:+
  "filter to automatically clean your ami name.".

Definition err_imds : error :=
  "The only valid imds_support values are " +:+ fmt_q ImdsSupportValuesV20
  +:+ " or the empty string".

Definition err_deprecate_at (t : string) : error :=
  "deprecate_at is not a valid time: " +:+ fmt_q t
  +:+ ". Expect time format: YYYY-MM-DDTHH:MM:SSZ".

(** [errs = append(errs, e)] under a condition. *)
Definition when (b : bool) (e : error) : list error := if b then [e] else [].

(** The errors of a [for _, kmsKey := range c.AMIRegionKMSKeyIDs] loop that
    reports every region whose key is the empty string. *)
Definition empty_key_errs (kms : gmap string string) (e : error) : list error :=
  if Nat.ltb 0 (size kms) then
    flat_map (fun kv => when (Nat.eqb (String.length (snd kv)) 0) e) (map_to_list kms)
  else [].

(** The slice [kmsKeys]: [kms_key_id] when set, then the non-empty keys of
    [region_kms_key_ids]. *)
Definition kmsKeys_of (c : AMIConfig) : list string :=
  (if Nat.ltb 0 (String.length (AMIKmsKeyId c)) then [AMIKmsKeyId c] else [])
  ++ (if Nat.ltb 0 (size (AMIRegionKMSKeyIDs c)) then
        flat_map (fun kv => if Nat.ltb 0 (String.length (snd kv)) then [snd kv] else [])
                 (map_to_list (AMIRegionKMSKeyIDs c))
      else []).

Section Prepare.

(** Whether [time.Parse(time.RFC3339, s)] succeeds: the standard library's
    parser is taken as given. *)
Variable time_Parse_RFC3339 : string -> bool.

(** [(c *AMIConfig) Prepare(accessConfig, ctx)]: the receiver after the call
    and the slice returned ([nil] is the empty list). *)
Definition Prepare (c : AMIConfig) (accessConfig : option AccessConfig)
  : AMIConfig * list error :=
  let errs : list error := [] in
  let '(snapshotTags, e) := CopyOn (SnapshotTag c) (SnapshotTags c) in
  let c := set_SnapshotTags snapshotTags c in
  let errs := errs ++ e in
  let '(amiTags, e) := CopyOn (AMITag c) (AMITags c) in
  let c := set_AMITags amiTags c in
  let errs := errs ++ e in
  let errs := errs ++ when (String.eqb (AMIName c) "") err_name_missing in
  let kms := AMIRegionKMSKeyIDs c in
  let errs := errs ++
    (if Nat.ltb 0 (size kms) then
       flat_map (fun kv => when (negb (stringInSlice (AMIRegions c) (fst kv)))
                                (err_kms_region_not_in_regions (fst kv)))
                (map_to_list kms)
     else []) in
  let '(c, e) := prepareRegions c accessConfig in
  let errs := errs ++ e in
  let defaultKey :=
    Nat.eqb (String.length (AMIKmsKeyId c)) 0 && Nat.eqb (size kms) 0
    && Trilean_True (AMIEncryptBootVolume c) in
  let errs := errs ++
    (if Nat.ltb 0 (length (AMIUsers c)) || Nat.ltb 0 (length (AMIOrgArns c))
        || Nat.ltb 0 (length (AMIOuArns c))
     then when defaultKey err_share_default_key
          ++ empty_key_errs kms err_share_default_key_regions
     else []) in
  let kmsKeys := kmsKeys_of c in
  let errs := errs ++
    when (Nat.ltb 0 (length kmsKeys) && negb (Trilean_True (AMIEncryptBootVolume c)))
         err_encrypt_boot in
  let errs := errs ++
    flat_map (fun kmsKey => when (negb (ValidateKmsKey kmsKey)) (err_invalid_kms kmsKey))
             kmsKeys in
  let errs := errs ++
    (if Nat.ltb 0 (length (SnapshotUsers c))
     then when defaultKey err_snapshot_default_key
          ++ empty_key_errs kms err_snapshot_default_key_regions
     else []) in
  let errs := errs ++
    when (Nat.ltb (String.length (AMIName c)) 3 || Nat.ltb 128 (String.length (AMIName c)))
         err_name_length in
  let errs := errs ++
    when (negb (String.eqb (AMIName c) (templateCleanAMIName (AMIName c))))
         err_name_chars in
  let errs := errs ++
    when (negb (String.eqb (AMIIMDSSupport c) "")
          && negb (String.eqb (AMIIMDSSupport c) ImdsSupportValuesV20))
         err_imds in
  let errs := errs ++
    (if negb (String.eqb (DeprecationTime c) "")
     then when (negb (time_Parse_RFC3339 (DeprecationTime c)))
               (err_deprecate_at (DeprecationTime c))
     else []) in
  let c :=
    if WithCooldown (DeregistrationProtection c)
    then set_DeregistrationProtection
           {| Enabled := true;
              WithCooldown := WithCooldown (DeregistrationProtection c) |} c
    else c in
  if Nat.ltb 0 (length errs) then (c, errs) else (c, []).

End Prepare.

(** ** The words of the specification, for the statements about [Prepare] *)

(** The regions of a list in the order of their first occurrence, each
    once. *)
Fixpoint first_occurrences (l : list string) : list string :=
  match l with
  | [] => []
  | x :: rest =>
      x :: List.filter (fun y => negb (String.eqb x y)) (first_occurrences rest)
  end.

(** The regions not yet seen. *)
Definition unseen (seen : gset string) (region : string) : bool :=
  negb (bool_decide (region ∈ seen)).


(** A region other than the access configuration's [RawRegion]. *)
Definition not_session_region (accessConfig : option AccessConfig)
  (region : string) : bool :=
  match accessConfig with
  | Some ac => negb (String.eqb region (RawRegion ac))
  | None => true
  end.

(** The regions of a list that have no entry in a non-empty
    [region_kms_key_ids], each with its error. *)
Definition missing_key_errs (kms : gmap string string) (regions : list string)
  : list error :=
  if Nat.ltb 0 (size kms) then
    flat_map (fun region =>
                match kms !! region with
                | Some _ => []
                | None => [err_region_not_in_kms region]
                end) regions
  else [].

(** An AMI name of 3 to 128 bytes, all of them allowed. *)
Definition valid_ami_name (name : string) : bool :=
  Nat.leb 3 (String.length name) && Nat.leb (String.length name) 128
  && forallb allowedByte (list_ascii_of_string name).

(** The zero value of [AMIConfig], and the configuration that sets
    [ami_name] alone. *)
Definition zero : AMIConfig :=
  {| AMIName := ""; AMIUsers := []; AMIOrgArns := []; AMIOuArns := [];
     AMIRegions := []; AMITags := ∅; AMITag := [];
     AMIEncryptBootVolume := TriUnset; AMIKmsKeyId := "";
     AMIRegionKMSKeyIDs := ∅; AMIIMDSSupport := ""; DeprecationTime := "";
     SnapshotTags := ∅; SnapshotTag := []; SnapshotUsers := [];
     DeregistrationProtection := {| Enabled := false; WithCooldown := false |} |}.

Definition set_AMIName (v : string) (c : AMIConfig) : AMIConfig :=
  {| AMIName := v; AMIUsers := AMIUsers c; AMIOrgArns := AMIOrgArns c;
     AMIOuArns := AMIOuArns c; AMIRegions := AMIRegions c; AMITags := AMITags c;
     AMITag := AMITag c; AMIEncryptBootVolume := AMIEncryptBootVolume c;
     AMIKmsKeyId := AMIKmsKeyId c; AMIRegionKMSKeyIDs := AMIRegionKMSKeyIDs c;
     AMIIMDSSupport := AMIIMDSSupport c; DeprecationTime := DeprecationTime c;
     SnapshotTags := SnapshotTags c; SnapshotTag := SnapshotTag c;
     SnapshotUsers := SnapshotUsers c;
     DeregistrationProtection := DeregistrationProtection c |}.

Definition set_AMIKmsKeyId (v : string) (c : AMIConfig) : AMIConfig :=
  {| AMIName := AMIName c; AMIUsers := AMIUsers c; AMIOrgArns := AMIOrgArns c;
     AMIOuArns := AMIOuArns c; AMIRegions := AMIRegions c; AMITags := AMITags c;
     AMITag := AMITag c; AMIEncryptBootVolume := AMIEncryptBootVolume c;
     AMIKmsKeyId := v; AMIRegionKMSKeyIDs := AMIRegionKMSKeyIDs c;
     AMIIMDSSupport := AMIIMDSSupport c; DeprecationTime := DeprecationTime c;
     SnapshotTags := SnapshotTags c; SnapshotTag := SnapshotTag c;
     SnapshotUsers := SnapshotUsers c;
     DeregistrationProtection := DeregistrationProtection c |}.

(** A key is named: [kms_key_id], or a non-empty entry of
    [region_kms_key_ids]. *)
Definition names_key (c : AMIConfig) : Prop :=
  AMIKmsKeyId c <> ""
  \/ exists r k, AMIRegionKMSKeyIDs c !! r = Some k /\ k <> "".

(** The AMI, or its snapshots, is shared with other accounts. *)
Definition shares_ami (c : AMIConfig) : Prop :=
  AMIUsers c <> [] \/ AMIOrgArns c <> [] \/ AMIOuArns c <> [].

(** Encryption is asked for and no key is named: the default key. *)
Definition default_key (c : AMIConfig) : Prop :=
  AMIKmsKeyId c = "" /\ AMIRegionKMSKeyIDs c = ∅
  /\ AMIEncryptBootVolume c = TriTrue.

(** Every check of [Prepare], one field each. *)
Record checks_pass (time_Parse_RFC3339 : string -> bool) (c : AMIConfig)
  : Prop := {
  name_given : AMIName c <> "";
  key_regions_listed :
    forall r k, AMIRegionKMSKeyIDs c !! r = Some k -> In r (AMIRegions c);
  regions_have_keys :
    AMIRegionKMSKeyIDs c <> ∅ ->
    forall r, In r (AMIRegions c) -> is_Some (AMIRegionKMSKeyIDs c !! r);
  share_not_default : shares_ami c -> ~ default_key c;
  share_region_keys :
    shares_ami c -> forall r k, AMIRegionKMSKeyIDs c !! r = Some k -> k <> "";
  keys_need_encrypt_boot : names_key c -> AMIEncryptBootVolume c = TriTrue;
  kms_key_valid : AMIKmsKeyId c <> "" -> ValidateKmsKey (AMIKmsKeyId c) = true;
  region_keys_valid :
    forall r k, AMIRegionKMSKeyIDs c !! r = Some k -> k <> "" ->
                ValidateKmsKey k = true;
  snapshot_not_default : SnapshotUsers c <> [] -> ~ default_key c;
  snapshot_region_keys :
    SnapshotUsers c <> [] ->
    forall r k, AMIRegionKMSKeyIDs c !! r = Some k -> k <> "";
  name_length : 3 <= String.length (AMIName c) <= 128;
  name_chars : templateCleanAMIName (AMIName c) = AMIName c;
  imds_value : AMIIMDSSupport c = "" \/ AMIIMDSSupport c = ImdsSupportValuesV20;
  deprecation_time :
    DeprecationTime c <> "" -> time_Parse_RFC3339 (DeprecationTime c) = true
}.

(** The errors the specification expects of [Prepare], each with the
    check that fails. *)
Inductive reported (time_Parse_RFC3339 : string -> bool) (c : AMIConfig)
  : error -> Prop :=
| R_name_missing :
    AMIName c = "" -> reported time_Parse_RFC3339 c err_name_missing
| R_key_region_unlisted r k :
    AMIRegionKMSKeyIDs c !! r = Some k -> ~ In r (AMIRegions c) ->
    reported time_Parse_RFC3339 c (err_kms_region_not_in_regions r)
| R_region_without_key r :
    AMIRegionKMSKeyIDs c <> ∅ -> In r (AMIRegions c) ->
    AMIRegionKMSKeyIDs c !! r = None ->
    reported time_Parse_RFC3339 c (err_region_not_in_kms r)
| R_share_default_key :
    shares_ami c -> default_key c ->
    reported time_Parse_RFC3339 c err_share_default_key
| R_share_region_default_key r :
    shares_ami c -> AMIRegionKMSKeyIDs c !! r = Some "" ->
    reported time_Parse_RFC3339 c err_share_default_key_regions
| R_encrypt_boot :
    names_key c -> AMIEncryptBootVolume c <> TriTrue ->
    reported time_Parse_RFC3339 c err_encrypt_boot
| R_invalid_key :
    AMIKmsKeyId c <> "" -> ValidateKmsKey (AMIKmsKeyId c) = false ->
    reported time_Parse_RFC3339 c (err_invalid_kms (AMIKmsKeyId c))
| R_invalid_region_key r k :
    AMIRegionKMSKeyIDs c !! r = Some k -> k <> "" ->
    ValidateKmsKey k = false ->
    reported time_Parse_RFC3339 c (err_invalid_kms k)
| R_snapshot_default_key :
    SnapshotUsers c <> [] -> default_key c ->
    reported time_Parse_RFC3339 c err_snapshot_default_key
| R_snapshot_region_default_key r :
    SnapshotUsers c <> [] -> AMIRegionKMSKeyIDs c !! r = Some "" ->
    reported time_Parse_RFC3339 c err_snapshot_default_key_regions
| R_name_length :
    String.length (AMIName c) < 3 \/ 128 < String.length (AMIName c) ->
    reported time_Parse_RFC3339 c err_name_length
| R_name_chars :
    templateCleanAMIName (AMIName c) <> AMIName c ->
    reported time_Parse_RFC3339 c err_name_chars
| R_imds :
    AMIIMDSSupport c <> "" -> AMIIMDSSupport c <> ImdsSupportValuesV20 ->
    reported time_Parse_RFC3339 c err_imds
| R_deprecate_at :
    DeprecationTime c <> "" -> time_Parse_RFC3339 (DeprecationTime c) = false ->
    reported time_Parse_RFC3339 c (err_deprecate_at (DeprecationTime c)).

End AmiConfig.

(* ================================================================== *)
(** * The step pipeline: state bag, steps and the runner *)
(* ================================================================== *)

Module Multistep.
Import Go.

(** [multistep.StepAction]. *)
Inductive StepAction := ActionContinue | ActionHalt.

(** What a run shows to the outside: lines on the [Ui], lines on [log], and
    external commands started. *)
Inductive event :=
| UiSay (s : string)
| UiError (s : string)
| LogPrintf (s : string)
| ExecCommand (command : string).

Section Bag.

(** The dynamic values a builder keeps in its bag. *)
Context {V : Type}.

(** [multistep.BasicStateBag] with the output produced so far. *)
Record world := {
  bag : gmap string V;
  trace : list event
}.

(** [state.Put(key, v)], [state.Get(key)] ([None] is the nil interface) and
    [state.GetOk(key)]. *)
Definition Put (key : string) (v : V) (w : world) : world :=
  {| bag := <[key := v]> (bag w); trace := trace w |}.

Definition Get (key : string) (w : world) : option V := bag w !! key.

Definition GetOk (key : string) (w : world) : option V := bag w !! key.

Definition emit (e : event) (w : world) : world :=
  {| bag := bag w; trace := trace w ++ [e] |}.

(** A step's [Cleanup], as left behind by its [Run]: it sees the fields
    [Run] set on the step. *)
Definition Cleanup := world -> outcome world.

(** [multistep.Step]: [Run] gives the action, the new state, and the
    step's cleanup. *)
Record Step := {
  run : world -> outcome (StepAction * world * Cleanup)
}.

(** The run context: whether it is found cancelled before the step of the
    given index starts. *)
Definition Context := nat -> bool.

Definition Background : Context := fun _ => false.

(** Modelled from the spec: the step runner of the plugin SDK (section 4.3),
    which is not under src/.  Steps run in the order given; a [Halt] or a
    cancelled context stops the forward pass; every step that ran is
    recorded, the latest first. *)
Fixpoint run_forward (ctx : Context) (i : nat) (steps : list Step)
  (w : world) (ran : list Cleanup) : outcome (world * list Cleanup) :=
  match steps with
  | [] => Returns (w, ran)
  | s :: rest =>
      if ctx i then Returns (w, ran)
      else
        match run s w with
        | Panics why => Panics why
        | Returns (action, w', cleanup) =>
            match action with
            | ActionHalt => Returns (w', cleanup :: ran)
            | ActionContinue => run_forward ctx (S i) rest w' (cleanup :: ran)
            end
        end
  end.

(** Modelled from the spec: the cleanup cascade (section 4.3), over the
    steps that ran, in reverse order of execution. *)
Fixpoint run_cleanups (ran : list Cleanup) (w : world) : outcome world :=
  match ran with
  | [] => Returns w
  | cleanup :: rest =>
      match cleanup w with
      | Panics why => Panics why
      | Returns w' => run_cleanups rest w'
      end
  end.

(** Modelled from the spec: [Runner.Run].  It gives back no error: what the
    caller learns, it reads from the bag. *)
Definition Runner_Run (ctx : Context) (steps : list Step) (w : world)
  : outcome world :=
  match run_forward ctx 0 steps w [] with
  | Panics why => Panics why
  | Returns (w', ran) => run_cleanups ran w'
  end.

End Bag.

Arguments world V : clear implicits.
Arguments Step V : clear implicits.
Arguments Cleanup V : clear implicits.

End Multistep.

(* ================================================================== *)
(** * [builder/chroot/step_manual_mount_command.go] *)
(* ================================================================== *)

Module Chroot.
Import Go Multistep.

Record manualMountCommandData := { Device : string }.

Section Step.

(** [interpolate.Context] of the plugin SDK, and the three library calls of
    [Run]: [interpolate.Render] (on the template, the context and its
    [Data]), [filepath.Base] and [filepath.Abs]. *)
Variable InterpolateContext : Type.
Variable interpolate_Render :
  string -> InterpolateContext -> manualMountCommandData -> string + error.
Variable filepath_Base : string -> string.
Variable filepath_Abs : string -> string + error.

(** The fields of the chroot builder's [Config] the step reads;
    [GetContext] gives [ctx]. *)
Record Config := {
  NVMEDevicePath : string;
  MountPath : string;
  ctx : InterpolateContext
}.

Definition GetContext (c : Config) : InterpolateContext := ctx c.

(** [StepManualMountCommand]; [GeneratedData] is a pointer, [None] for nil,
    to the [GeneratedData] of the run, whose [State] is the run's bag. *)
Record StepManualMountCommand := {
  Command : string;
  mountPath : string;
  GeneratedData : option unit
}.

(** The values of the chroot builder's bag, by dynamic type. *)
Inductive value :=
| VConfig (c : Config)                    (* *Config *)
| VString (s : string)                    (* string *)
| VUi                                     (* packersdk.Ui *)
| VError (e : error)                      (* error *)
| VMountStep                              (* *StepManualMountCommand, this step *)
| VGenerated (m : gmap string string)     (* map[string]interface{} *)
| VOther (dynamic_type : string).

(** The type assertions of the file. *)
Definition as_Config (v : option value) : outcome Config :=
  match v with
  | Some (VConfig c) => Returns c
  | _ => Panics "interface conversion: not *Config"
  end.

Definition as_string (v : option value) : outcome string :=
  match v with
  | Some (VString s) => Returns s
  | _ => Panics "interface conversion: not string"
  end.

Definition as_Ui (v : option value) : outcome unit :=
  match v with
  | Some VUi => Returns tt
  | _ => Panics "interface conversion: not packersdk.Ui"
  end.

(** [GeneratedData.Put] of the plugin SDK: the map under ["generated_data"]
    (a fresh one when the key is absent) gets the entry and is put back. *)
Definition GeneratedData_Put (gd : option unit) (key data : string)
  (w : world value) : outcome (world value) :=
  _ ← deref gd;
  match Get "generated_data" w with
  | None => Returns (Put "generated_data" (VGenerated (<[key := data]> ∅)) w)
  | Some (VGenerated m) =>
      Returns (Put "generated_data" (VGenerated (<[key := data]> m)) w)
  | Some _ => Panics "interface conversion: not map[string]interface {}"
  end.

Definition set_mountPath (p : string) (s : StepManualMountCommand)
  : StepManualMountCommand :=
  {| Command := Command s; mountPath := p; GeneratedData := GeneratedData s |}.

(** The two places that report a failed mount-path preparation. *)
Definition mount_dir_failed (err : error) (s : StepManualMountCommand)
  (w : world value) : outcome (StepAction * StepManualMountCommand * world value) :=
  let err := "Error preparing mount directory: " +:+ err in
  let w := Put "error" (VError err) w in
  let w := emit (UiError err) w in
  Returns (ActionHalt, s, w).

(** [(s *StepManualMountCommand) Run(ctx, state)]: the action, the step
    after the call, and the state after the call. *)
Definition Run (s : StepManualMountCommand) (w : world value)
  : outcome (StepAction * StepManualMountCommand * world value) :=
  config ← as_Config (Get "config" w);
  device ← as_string (Get "device" w);
  _ ← as_Ui (Get "ui" w);
  let w := emit (UiSay "Running manual mount commands...") w in
  let device :=
    if negb (String.eqb (NVMEDevicePath config) "")
    then NVMEDevicePath config else device in
  let w := emit (UiSay ("Command is: " +:+ Command s)) w in
  if Nat.eqb (String.length (Command s)) 0 then Returns (ActionContinue, s, w)
  else
    let ictx := GetContext config in
    match interpolate_Render (MountPath config) ictx
                             {| Device := filepath_Base device |} with
    | inr err => mount_dir_failed err s w
    | inl path =>
        match filepath_Abs path with
        | inr err => mount_dir_failed err s w
        | inl path =>
            let w := emit (UiSay ("Mount Path After ABS is: " +:+ path)) w in
            let w := emit (LogPrintf ("Mount path: " +:+ path)) w in
            let w := emit (UiSay "Skip Running manual mount commands...") w in
            let w := emit (UiSay ("Mount Path is: " +:+ path)) w in
            let s := set_mountPath path s in
            let w := Put "mount_path" (VString (mountPath s)) w in
            w ← GeneratedData_Put (GeneratedData s) "MountPath" (mountPath s) w;
            let w := Put "mount_device_cleanup" VMountStep w in
            Returns (ActionContinue, s, w)
        end
    end.

(** [(s *StepManualMountCommand) CleanupFunc(state)]: the error returned
    ([None] for nil) and the state after the call. *)
Definition CleanupFunc (s : StepManualMountCommand) (w : world value)
  : outcome (option error * world value) :=
  if String.eqb (mountPath s) "" then Returns (None, w)
  else
    _ ← as_Ui (Get "ui" w);
    let w := emit (UiSay "Unmounting the root device...") w in
    Returns (None, w).

(** [(s *StepManualMountCommand) Cleanup(state)]. *)
Definition Cleanup (s : StepManualMountCommand) (w : world value)
  : outcome (world value) :=
  _ ← as_Ui (Get "ui" w);
  r ← CleanupFunc s w;
  match r with
  | (Some err, w) => Returns (emit (UiError err) w)
  | (None, w) => Returns w
  end.

(** The step as the runner sees it. *)
Definition as_Step (s : StepManualMountCommand) : Step value :=
  {| run := fun w =>
       r ← Run s w;
       match r with
       | (action, s', w') => Returns (action, w', Cleanup s')
       end |}.

(** An event that starts an external command. *)
Definition is_exec (e : event) : bool :=
  match e with
  | ExecCommand _ => true
  | _ => false
  end.

End Step.

End Chroot.

(* ================================================================== *)
(** * The ebsvolume builder: [Builder.Run] *)
(* ================================================================== *)

Module Ebsvolume.
Import Go Multistep.

Definition BuilderId : string := "mitchellh.amazon.ebsvolume".

(** [EbsVolumes] and [EbsSnapshots]: the ids created, by region. *)
Definition EbsVolumes := gmap string (list string).
Definition EbsSnapshots := gmap string (list string).

(** The values of the builder's bag, by dynamic type. *)
Inductive value :=
| VError (e : error)                      (* error *)
| VEbsVolumes (v : EbsVolumes)            (* EbsVolumes *)
| VEbsSnapshots (s : EbsSnapshots)        (* EbsSnapshots *)
| VGenerated (m : gmap string string)     (* map[string]interface{} *)
| VConfig                                 (* *Config *)
| VAccessConfig                           (* *AccessConfig *)
| VEc2                                    (* *ec2.EC2 *)
| VIam                                    (* *iam.IAM *)
| VHook                                   (* packersdk.Hook *)
| VUi                                     (* packersdk.Ui *)
| VRegion (region : option string)        (* *string *)
| VOther (dynamic_type : string).

(** The builder's [Artifact]; [Conn] is the connection of the run and
    [StateData] holds what the bag had under ["generated_data"]. *)
Record Artifact := {
  Volumes : EbsVolumes;
  Snapshots : EbsSnapshots;
  BuilderIdValue : string;
  StateData : gmap string (option value)
}.

Definition as_error (v : value) : outcome error :=
  match v with
  | VError e => Returns e
  | _ => Panics "interface conversion: not error"
  end.

Definition as_EbsVolumes (v : option value) : outcome EbsVolumes :=
  match v with
  | Some (VEbsVolumes x) => Returns x
  | _ => Panics "interface conversion: not EbsVolumes"
  end.

Definition as_EbsSnapshots (v : option value) : outcome EbsSnapshots :=
  match v with
  | Some (VEbsSnapshots x) => Returns x
  | _ => Panics "interface conversion: not EbsSnapshots"
  end.

Section Run.

(** [b.config.Session()]: the region of the session's connection, or the
    error. *)
Variable Session : option string + error.

(** The steps built at the head of [Run] from the configuration; their
    types are defined outside src/. *)
Variable steps : list (Step value).

(** [Artifact.String], used for the closing line on the [Ui]. *)
Variable Artifact_String : Artifact -> string.

(** The bag [Run] sets up before the steps. *)
Definition initial_state (region : option string) : world value :=
  let state := {| bag := ∅; trace := [] |} in
  let state := Put "config" VConfig state in
  let state := Put "access_config" VAccessConfig state in
  let state := Put "ec2" VEc2 state in
  let state := Put "iam" VIam state in
  let state := Put "hook" VHook state in
  let state := Put "ui" VUi state in
  Put "region" (VRegion region) state.

(** What [Run] does once the runner is back, on the state it left. *)
Definition finish (state : world value)
  : outcome (option Artifact * option error * world value) :=
  match GetOk "error" state with
  | Some rawErr =>
      e ← as_error rawErr;
      Returns (None, Some e, state)
  | None =>
      volumes ← as_EbsVolumes (Get "ebsvolumes" state);
      snapshots ← as_EbsSnapshots (Get "ebssnapshots" state);
      let artifact :=
        {| Volumes := volumes;
           Snapshots := snapshots;
           BuilderIdValue := BuilderId;
           StateData := {[ "generated_data" := Get "generated_data" state ]} |} in
      let state := emit (UiSay ("Created Volumes: " +:+ Artifact_String artifact)) state in
      Returns (Some artifact, None, state)
  end.

(** [(b *Builder) Run(ctx, ui, hook)]: the artifact and the error returned
    ([None] for nil), with the state the run ended in. *)
Definition Builder_Run (ctx : Context)
  : outcome (option Artifact * option error * world value) :=
  match Session with
  | inr err => Returns (None, Some err, {| bag := ∅; trace := [] |})
  | inl region =>
      let state := initial_state region in
      (* [*ec2conn.Config.Region], read while the steps are built *)
      _ ← deref region;
      state ← Runner_Run ctx steps state;
      finish state
  end.

End Run.

End Ebsvolume.

(* ================================================================== *)
(** * The import post-processor: [Configure] and [PostProcess] *)
(* ================================================================== *)

Module AmazonImport.
Import Go.

Definition BuilderId : string := "packer.post-processor.amazon-import".

(** [ec2.ImdsSupportValuesV20] of the AWS SDK. *)
Definition ImdsSupportValuesV20 : string := "v2.0".

(** ** Configuration *)

(** [Config]; of the embedded [AccessConfig] the model keeps
    [PollingConfig] (a pointer, [None] for nil). *)
Record Config := {
  S3Bucket : string;
  S3Key : string;
  S3Encryption : string;
  S3EncryptionKey : string;
  SkipClean : bool;
  Tags : gmap string string;
  Name : string;
  Description : string;
  Users : list string;
  Groups : list string;
  OrgArns : list string;
  OuArns : list string;
  Encrypt : bool;
  KMSKey : string;
  AMIIMDSSupport : string;
  LicenseType : string;
  RoleName : string;
  Format : string;
  Architecture : string;
  BootMode : string;
  Platform : string;
  PollingConfig : option Polling.AWSPollingConfig
}.

(** The fields the code assigns, replaced together. *)
Definition update (c : Config) (s3Key format architecture bootMode : string)
  (polling : option Polling.AWSPollingConfig) : Config :=
  {| S3Bucket := S3Bucket c; S3Key := s3Key; S3Encryption := S3Encryption c;
     S3EncryptionKey := S3EncryptionKey c; SkipClean := SkipClean c;
     Tags := Tags c; Name := Name c; Description := Description c;
     Users := Users c; Groups := Groups c; OrgArns := OrgArns c;
     OuArns := OuArns c; Encrypt := Encrypt c; KMSKey := KMSKey c;
     AMIIMDSSupport := AMIIMDSSupport c; LicenseType := LicenseType c;
     RoleName := RoleName c; Format := format; Architecture := architecture;
     BootMode := bootMode; Platform := Platform c; PollingConfig := polling |}.

Definition set_S3Key (v : string) (c : Config) : Config :=
  update c v (Format c) (Architecture c) (BootMode c) (PollingConfig c).
Definition set_Format (v : string) (c : Config) : Config :=
  update c (S3Key c) v (Architecture c) (BootMode c) (PollingConfig c).
Definition set_Architecture (v : string) (c : Config) : Config :=
  update c (S3Key c) (Format c) v (BootMode c) (PollingConfig c).
Definition set_BootMode (v : string) (c : Config) : Config :=
  update c (S3Key c) (Format c) (Architecture c) v (PollingConfig c).
Definition set_PollingConfig (v : option Polling.AWSPollingConfig) (c : Config)
  : Config :=
  update c (S3Key c) (Format c) (Architecture c) (BootMode c) v.

(** What [Configure] returns when it is not nil: the decoder's error, or
    the [packersdk.MultiError] with its [Errors]. *)
Inductive configure_error :=
| DecodeError (e : error)
| MultiError (Errors : list error).

Definition err_s3_key_template (e : error) : error :=
  "Error parsing s3_key_name template: " +:+ e.
Definition err_must_be_set (key : string) : error := key +:+ " must be set".
Definition err_invalid_format (f : string) : error :=
  "invalid format '" +:+ f +:+ "'. Only 'ova', 'raw', 'vhd', 'vhdx', or 'vmdk' are allowed".
Definition err_platform_uefi (p : string) : error :=
  "invalid platform '" +:+ p +:+ "', 'platform' must be set for 'uefi' image imports".
Definition err_invalid_platform (p : string) : error :=
  "invalid platform '" +:+ p +:+ "'. Only 'linux' and 'windows' are allowed".
Definition err_s3_encryption (e : string) : error :=
  "invalid s3 encryption format '" +:+ e +:+ "'. Only 'AES256' and 'aws:kms' are allowed".
Definition err_boot_mode (b : string) : error :=
  "invalid boot mode '" +:+ b +:+ "'. Only 'uefi' and 'legacy-bios' are allowed".
Definition err_boot_mode_arm64 (b : string) : error :=
  "invalid boot mode '" +:+ b +:+ "' for 'arm64' architecture".
Definition err_imds : error :=
  "The only valid imds_support values are " +:+ fmt_q ImdsSupportValuesV20
  +:+ " or the empty string".

Definition when (b : bool) (e : error) : list error := if b then [e] else [].

Definition opt_list (e : option error) : list error :=
  match e with Some x => [x] | None => [] end.

Definition format_allowed (f : string) : bool :=
  String.eqb f "ova" || String.eqb f "raw" || String.eqb f "vmdk"
  || String.eqb f "vhd" || String.eqb f "vhdx".

Section Configure.

(** What the surrounding libraries decide: [config.Decode] on the raw
    input, [awscommon.IsValidBootMode], [interpolate.Validate] on the key
    template, and [AccessConfig.Prepare] on the access settings decoded
    from it. *)
Variable raw : Type.
Variable config_Decode : list raw -> Config + error.
Variable IsValidBootMode : string -> option error.
Variable interpolate_Validate : string -> option error.
Variable AccessConfig_Prepare : list raw -> list error.

(** The process environment, for [LogEnvOverrideWarnings]. *)
Variable env : gmap string string.

(** [p.config] as a [config.Decode] that fails leaves it: the call is handed
    [&p.config], whose [ctx.Funcs] is assigned just before. *)
Variable config_Decode_receiver : Config -> list raw -> Config.

(** The line [log.Println] writes for a configuration. *)
Variable log_Println : Config -> string.

(** [(p *PostProcessor) Configure(raws...)]: [p.config] after the call, the
    error returned ([None] for nil), and the lines written to the log,
    those of the polling configuration and that of the configuration. *)
Definition Configure (before : Config) (raws : list raw)
  : Config * option configure_error * list string :=
  match config_Decode raws with
  | inr err => (config_Decode_receiver before raws, Some (DecodeError err), [])
  | inl c =>
      (* Set defaults *)
      let c := if String.eqb (Format c) "" then set_Format "ova" c else c in
      let c := if String.eqb (S3Key c) ""
               then set_S3Key ("packer-import-{{timestamp}}." +:+ Format c) c
               else c in
      let c := if String.eqb (Architecture c) ""
               then set_Architecture "x86_64" c else c in
      let errs : list error := [] in
      let '(c, errs) :=
        if String.eqb (BootMode c) "" then
          (if String.eqb (Architecture c) "arm64"
           then set_BootMode "uefi" c else set_BootMode "legacy-bios" c, errs)
        else (c, errs ++ opt_list (IsValidBootMode (BootMode c))) in
      let errs := errs ++
        match interpolate_Validate (S3Key c) with
        | Some err => [err_s3_key_template err]
        | None => []
        end in
      let errs := errs ++ AccessConfig_Prepare raws in
      let errs := errs ++
        when (String.eqb (S3Bucket c) "") (err_must_be_set "s3_bucket_name") in
      let errs := errs ++
        when (negb (format_allowed (Format c))) (err_invalid_format (Format c)) in
      let errs := errs ++
        (if String.eqb (Platform c) "windows" || String.eqb (Platform c) "linux"
         then []
         else if String.eqb (Platform c) ""
         then when (String.eqb (BootMode c) "uefi") (err_platform_uefi (Platform c))
         else [err_invalid_platform (Platform c)]) in
      let errs := errs ++
        when (negb (String.eqb (S3Encryption c) "")
              && negb (String.eqb (S3Encryption c) "AES256")
              && negb (String.eqb (S3Encryption c) "aws:kms"))
             (err_s3_encryption (S3Encryption c)) in
      let errs := errs ++
        when (negb (String.eqb (BootMode c) "legacy-bios")
              && negb (String.eqb (BootMode c) "uefi"))
             (err_boot_mode (BootMode c)) in
      let errs := errs ++
        when (String.eqb (Architecture c) "arm64"
              && negb (String.eqb (BootMode c) "uefi"))
             (err_boot_mode_arm64 (BootMode c)) in
      let errs := errs ++
        when (negb (String.eqb (AMIIMDSSupport c) "")
              && negb (String.eqb (AMIIMDSSupport c) ImdsSupportValuesV20))
             err_imds in
      if Nat.ltb 0 (length errs) then (c, Some (MultiError errs), [])
      else
        let polling :=
          match PollingConfig c with
          | Some w => w
          | None => {| Polling.MaxAttempts := 0; Polling.DelaySeconds := 0 |}
          end in
        let '(polling, logged) := Polling.LogEnvOverrideWarnings polling env in
        let c := set_PollingConfig (Some polling) c in
        (c, None, logged ++ [log_Println c])
  end.

(** The decoded configuration with the defaults of [Configure]. *)
Definition defaults (c : Config) : Config :=
  let c := if String.eqb (Format c) "" then set_Format "ova" c else c in
  let c := if String.eqb (S3Key c) ""
           then set_S3Key ("packer-import-{{timestamp}}." +:+ Format c) c
           else c in
  let c := if String.eqb (Architecture c) ""
           then set_Architecture "x86_64" c else c in
  if String.eqb (BootMode c) "" then
    if String.eqb (Architecture c) "arm64"
    then set_BootMode "uefi" c else set_BootMode "legacy-bios" c
  else c.

(** What [Configure] returns for the errors collected: nil for none,
    the aggregate otherwise. *)
Definition aggregate (errs : list error) : option configure_error :=
  match errs with
  | [] => None
  | _ => Some (MultiError errs)
  end.

(** The errors [Configure] collects, check by check, on the decoded
    configuration. *)
Definition collected (raws : list raw) (d : Config) : list error :=
  let c := defaults d in
  (if String.eqb (BootMode d) "" then []
   else opt_list (IsValidBootMode (BootMode d)))
  ++ match interpolate_Validate (S3Key c) with
     | Some err => [err_s3_key_template err]
     | None => []
     end
  ++ AccessConfig_Prepare raws
  ++ when (String.eqb (S3Bucket c) "") (err_must_be_set "s3_bucket_name")
  ++ when (negb (format_allowed (Format c))) (err_invalid_format (Format c))
  ++ (if String.eqb (Platform c) "windows" || String.eqb (Platform c) "linux"
      then []
      else if String.eqb (Platform c) ""
      then when (String.eqb (BootMode c) "uefi") (err_platform_uefi (Platform c))
      else [err_invalid_platform (Platform c)])
  ++ when (negb (String.eqb (S3Encryption c) "")
           && negb (String.eqb (S3Encryption c) "AES256")
           && negb (String.eqb (S3Encryption c) "aws:kms"))
          (err_s3_encryption (S3Encryption c))
  ++ when (negb (String.eqb (BootMode c) "legacy-bios")
           && negb (String.eqb (BootMode c) "uefi"))
          (err_boot_mode (BootMode c))
  ++ when (String.eqb (Architecture c) "arm64"
           && negb (String.eqb (BootMode c) "uefi"))
          (err_boot_mode_arm64 (BootMode c))
  ++ when (negb (String.eqb (AMIIMDSSupport c) "")
           && negb (String.eqb (AMIIMDSSupport c) ImdsSupportValuesV20))
          err_imds.

(** The errors the specification expects of [Configure] for the decoded
    configuration [d], each with the check that fails. *)
Inductive configure_reported (raws : list raw) (d : Config) : error -> Prop :=
| CR_boot_mode_unknown e :
    BootMode d <> "" -> IsValidBootMode (BootMode d) = Some e ->
    configure_reported raws d e
| CR_s3_key_template e :
    interpolate_Validate (S3Key (defaults d)) = Some e ->
    configure_reported raws d (err_s3_key_template e)
| CR_access_config e :
    In e (AccessConfig_Prepare raws) -> configure_reported raws d e
| CR_bucket_missing :
    S3Bucket d = "" ->
    configure_reported raws d (err_must_be_set "s3_bucket_name")
| CR_format :
    format_allowed (Format (defaults d)) = false ->
    configure_reported raws d (err_invalid_format (Format (defaults d)))
| CR_platform_uefi :
    Platform d = "" -> BootMode (defaults d) = "uefi" ->
    configure_reported raws d (err_platform_uefi (Platform d))
| CR_platform :
    Platform d <> "windows" -> Platform d <> "linux" -> Platform d <> "" ->
    configure_reported raws d (err_invalid_platform (Platform d))
| CR_s3_encryption :
    S3Encryption d <> "" -> S3Encryption d <> "AES256" ->
    S3Encryption d <> "aws:kms" ->
    configure_reported raws d (err_s3_encryption (S3Encryption d))
| CR_boot_mode :
    BootMode (defaults d) <> "legacy-bios" -> BootMode (defaults d) <> "uefi" ->
    configure_reported raws d (err_boot_mode (BootMode (defaults d)))
| CR_boot_mode_arm64 :
    Architecture (defaults d) = "arm64" -> BootMode (defaults d) <> "uefi" ->
    configure_reported raws d (err_boot_mode_arm64 (BootMode (defaults d)))
| CR_imds :
    AMIIMDSSupport d <> "" -> AMIIMDSSupport d <> ImdsSupportValuesV20 ->
    configure_reported raws d err_imds.

End Configure.

(** The zero value of [Config], and a configuration with a bucket, a format
    and a platform given (for examples). *)
Definition zero : Config :=
  {| S3Bucket := ""; S3Key := ""; S3Encryption := ""; S3EncryptionKey := "";
     SkipClean := false; Tags := ∅; Name := ""; Description := "";
     Users := []; Groups := []; OrgArns := []; OuArns := []; Encrypt := false;
     KMSKey := ""; AMIIMDSSupport := ""; LicenseType := ""; RoleName := "";
     Format := ""; Architecture := ""; BootMode := ""; Platform := "";
     PollingConfig := None |}.

Definition import_of (bucket format platform : string) : Config :=
  {| S3Bucket := bucket; S3Key := ""; S3Encryption := ""; S3EncryptionKey := "";
     SkipClean := false; Tags := ∅; Name := ""; Description := "";
     Users := []; Groups := []; OrgArns := []; OuArns := []; Encrypt := false;
     KMSKey := ""; AMIIMDSSupport := ""; LicenseType := ""; RoleName := "";
     Format := format; Architecture := ""; BootMode := ""; Platform := platform;
     PollingConfig := None |}.

(** ** The requests and answers of EC2 and S3 that [PostProcess] uses;
       a pointer field is an [option], [None] for nil *)

Record UploadInput := {
  up_Body : string;
  up_Bucket : string;
  up_Key : string;
  up_ServerSideEncryption : option string;
  up_SSEKMSKeyId : option string
}.

Record ImportImageInput := {
  ii_Encrypted : bool;
  ii_Format : string;
  ii_S3Bucket : string;
  ii_S3Key : string;
  ii_Architecture : string;
  ii_BootMode : string;
  ii_Platform : string;
  ii_KmsKeyId : option string;
  ii_RoleName : option string;
  ii_LicenseType : option string
}.

Record ImportImageOutput := { ImportTaskId : option string }.

Record ImportImageTask := {
  Status : option string;
  StatusMessage : option string;
  ImageId : option string
}.

Record CopyImageInput := {
  ci_Name : string;
  ci_SourceImageId : string;
  ci_SourceRegion : option string;
  ci_Encrypted : option bool;
  ci_KmsKeyId : option string
}.

Record CopyImageOutput := { co_ImageId : option string }.

Record EbsBlockDevice := { SnapshotId : option string }.
Record BlockDeviceMapping := { Ebs : option EbsBlockDevice }.
Record Image := { BlockDeviceMappings : list BlockDeviceMapping }.

Record Tag := { tag_Key : string; tag_Value : string }.

Record LaunchPermission := {
  lp_Group : option string;
  lp_UserId : option string;
  lp_OrganizationArn : option string;
  lp_OrganizationalUnitArn : option string
}.

Record ModifyImageAttributeInput := {
  mi_Description : option string;
  mi_UserGroups : list string;
  mi_UserIds : list string;
  mi_OrganizationArns : list string;
  mi_OrganizationalUnitArns : list string;
  mi_LaunchPermissionAdd : option (list LaunchPermission);
  mi_ImdsSupport : option string;
  mi_ImageId : option string
}.

Definition empty_input : ModifyImageAttributeInput :=
  {| mi_Description := None; mi_UserGroups := []; mi_UserIds := [];
     mi_OrganizationArns := []; mi_OrganizationalUnitArns := [];
     mi_LaunchPermissionAdd := None; mi_ImdsSupport := None;
     mi_ImageId := None |}.

Definition set_ImageId (id : string) (i : ModifyImageAttributeInput)
  : ModifyImageAttributeInput :=
  {| mi_Description := mi_Description i; mi_UserGroups := mi_UserGroups i;
     mi_UserIds := mi_UserIds i; mi_OrganizationArns := mi_OrganizationArns i;
     mi_OrganizationalUnitArns := mi_OrganizationalUnitArns i;
     mi_LaunchPermissionAdd := mi_LaunchPermissionAdd i;
     mi_ImdsSupport := mi_ImdsSupport i; mi_ImageId := Some id |}.

Definition no_permission : LaunchPermission :=
  {| lp_Group := None; lp_UserId := None; lp_OrganizationArn := None;
     lp_OrganizationalUnitArn := None |}.

(** [awscommon.Artifact], as the post-processor fills it. *)
Record Artifact := {
  Amis : gmap string string;
  BuilderIdValue : string
}.

(** The artifact handed in by the builder. *)
Record SourceArtifact := {
  generated_data : option (gmap string string);
  Files : list string
}.

(** ** The attribute-modification requests *)

(** The map [options] built from the configuration, entry by entry. *)
Definition attribute_options (c : Config)
  : gmap string ModifyImageAttributeInput :=
  let options : gmap string ModifyImageAttributeInput := ∅ in
  let options :=
    if negb (String.eqb (Description c) "") then
      <["description" :=
          {| mi_Description := Some (Description c); mi_UserGroups := [];
             mi_UserIds := []; mi_OrganizationArns := [];
             mi_OrganizationalUnitArns := []; mi_LaunchPermissionAdd := None;
             mi_ImdsSupport := None; mi_ImageId := None |}]> options
    else options in
  let options :=
    if Nat.ltb 0 (length (Groups c)) then
      <["groups" :=
          {| mi_Description := None; mi_UserGroups := Groups c;
             mi_UserIds := []; mi_OrganizationArns := [];
             mi_OrganizationalUnitArns := [];
             mi_LaunchPermissionAdd :=
               Some (map (fun g =>
                      {| lp_Group := Some g; lp_UserId := None;
                         lp_OrganizationArn := None;
                         lp_OrganizationalUnitArn := None |}) (Groups c));
             mi_ImdsSupport := None; mi_ImageId := None |}]> options
    else options in
  let options :=
    if Nat.ltb 0 (length (Users c)) then
      <["users" :=
          {| mi_Description := None; mi_UserGroups := [];
             mi_UserIds := Users c; mi_OrganizationArns := [];
             mi_OrganizationalUnitArns := [];
             mi_LaunchPermissionAdd :=
               Some (map (fun u =>
                      {| lp_Group := None; lp_UserId := Some u;
                         lp_OrganizationArn := None;
                         lp_OrganizationalUnitArn := None |}) (Users c));
             mi_ImdsSupport := None; mi_ImageId := None |}]> options
    else options in
  let options :=
    if Nat.ltb 0 (length (OrgArns c)) then
      <["ami org arns" :=
          {| mi_Description := None; mi_UserGroups := [];
             mi_UserIds := []; mi_OrganizationArns := OrgArns c;
             mi_OrganizationalUnitArns := [];
             mi_LaunchPermissionAdd :=
               Some (map (fun u =>
                      {| lp_Group := None; lp_UserId := None;
                         lp_OrganizationArn := Some u;
                         lp_OrganizationalUnitArn := None |}) (OrgArns c));
             mi_ImdsSupport := None; mi_ImageId := None |}]> options
    else options in
  let options :=
    if Nat.ltb 0 (length (OuArns c)) then
      <["ami ou arns" :=
          {| mi_Description := None; mi_UserGroups := [];
             mi_UserIds := []; mi_OrganizationArns := [];
             mi_OrganizationalUnitArns := OuArns c;
             mi_LaunchPermissionAdd :=
               Some (map (fun u =>
                      {| lp_Group := None; lp_UserId := None;
                         lp_OrganizationArn := None;
                         lp_OrganizationalUnitArn := Some u |}) (OuArns c));
             mi_ImdsSupport := None; mi_ImageId := None |}]> options
    else options in
  let options :=
    if negb (String.eqb (AMIIMDSSupport c) "") then
      <["ami imds support" :=
          {| mi_Description := None; mi_UserGroups := [];
             mi_UserIds := []; mi_OrganizationArns := [];
             mi_OrganizationalUnitArns := []; mi_LaunchPermissionAdd := None;
             mi_ImdsSupport := Some (AMIIMDSSupport c); mi_ImageId := None |}]> options
    else options in
  options.

(** The names under which the configuration asks for a modification: each
    with the field it stands for, when that field is set. *)
Definition entry_expected (c : Config) (name : string) : Prop :=
  (name = "description" /\ Description c <> "")
  \/ (name = "groups" /\ Groups c <> [])
  \/ (name = "users" /\ Users c <> [])
  \/ (name = "ami org arns" /\ OrgArns c <> [])
  \/ (name = "ami ou arns" /\ OuArns c <> [])
  \/ (name = "ami imds support" /\ AMIIMDSSupport c <> "").

(** ** [PostProcess] *)

(** What [PostProcess] does to the outside, in order: lines on the [Ui] and
    calls to the file system, S3 and EC2. *)
Inductive call :=
| UiMessage (s : string)
| OsOpen (path : string)
| S3Upload (input : UploadInput)
| FileClose
| Ec2ImportImage (params : ImportImageInput)
| Ec2WaitUntilImageImported (taskId : string)
| Ec2DescribeImportImageTasks (taskId : option string)
| Ec2CopyImage (input : CopyImageInput)
| Ec2WaitUntilAMIAvailable (imageId : string)
| Ec2DestroyAMIs (imageIds : list string)
| Ec2DescribeImages (imageIds : list string)
| Ec2CreateTags (resources : list string) (tags : list Tag)
| Ec2ModifyImageAttribute (name : string) (input : ModifyImageAttributeInput)
| S3DeleteObject (bucket key : string).

(** The four values [PostProcess] returns. *)
Record result := {
  r_artifact : option Artifact;
  r_keep : bool;
  r_forceOverride : bool;
  r_err : option error
}.

Definition failed (err : error) : result :=
  {| r_artifact := None; r_keep := false; r_forceOverride := false;
     r_err := Some err |}.

(** A stretch of the function body: it goes on with a value, returns from
    [PostProcess], or panics; the calls made are appended to the trace. *)
Inductive flow (A : Type) :=
| Next (a : A)
| Return (r : result)
| Panic (why : string).
Arguments Next {A} a.
Arguments Return {A} r.
Arguments Panic {A} why.

Definition M (A : Type) : Type := list call -> list call * flow A.

#[global] Instance M_ret : MRet M := fun A a t => (t, Next a).
#[global] Instance M_bind : MBind M := fun A B k m t =>
  match m t with
  | (t', Next a) => k a t'
  | (t', Return r) => (t', Return r)
  | (t', Panic why) => (t', Panic why)
  end.

Definition do_call (c : call) : M unit := fun t => (t ++ [c], Next tt).
Definition return_ {A} (r : result) : M A := fun t => (t, Return r).
Definition fail_with {A} (err : error) : M A := return_ (failed err).
Definition lift {A} (o : outcome A) : M A := fun t =>
  match o with
  | Returns a => (t, Next a)
  | Panics why => (t, Panic why)
  end.

(** [if err != nil { return nil, false, false, <wrapped err> }] after a
    call that gives a value or an error. *)
Definition or_fail {A} (r : A + error) (wrap : error -> error) : M A :=
  match r with
  | inl a => mret a
  | inr err => fail_with (wrap err)
  end.

Definition check (r : option error) (wrap : error -> error) : M unit :=
  match r with
  | None => mret tt
  | Some err => fail_with (wrap err)
  end.

Definition when_ (b : bool) (m : M unit) : M unit := if b then m else mret tt.

(** The services and libraries [PostProcess] talks to, each by what it
    answers. [ImportImage] may answer differently attempt by attempt. *)
Record Env := {
  Session : option string + error;
  interpolate_Render : string -> option (gmap string string) -> string + error;
  os_Open : string -> option error;
  Upload : UploadInput -> option error;
  ImportImage : nat -> ImportImageInput -> ImportImageOutput + error;
  WaitUntilImageImported : string -> option error;
  DescribeImportImageTasks : option string -> list ImportImageTask + error;
  CopyImage : CopyImageInput -> CopyImageOutput + error;
  WaitUntilAMIAvailable : string -> option error;
  DestroyAMIs : list string -> option error;
  DescribeImages : list string -> list Image + error;
  CreateTags : list string -> list Tag -> option error;
  ModifyImageAttribute : ModifyImageAttributeInput -> option error;
  DeleteObject : string -> string -> option error;
  (** [%#v] of the slice of resource ids *)
  fmt_GoSyntax : list string -> string
}.

Section PostProcess.

Variable env : Env.

(** The first of [artifact.Files()] with the suffix, or the empty string. *)
Fixpoint find_source (files : list string) (suffix : string) : string :=
  match files with
  | [] => ""
  | path :: rest => if HasSuffix path suffix then path else find_source rest suffix
  end.

(** Modelled from the spec: [retry.Config.Run] of the plugin SDK (section
    4.1), which is not under src/: the call is made until it succeeds, at
    most [tries] times, and when every attempt failed the last error is the
    result.  The waits between attempts leave no mark here. *)
Fixpoint retry_ImportImage (tries attempt : nat) (params : ImportImageInput)
  (last : error) : M (ImportImageOutput + error) :=
  match tries with
  | O => mret (inr last)
  | S tries' =>
      _ ← do_call (Ec2ImportImage params);
      match ImportImage env attempt params with
      | inl out => mret (inl out)
      | inr err => retry_ImportImage tries' (S attempt) params err
      end
  end.

(** The snapshots of an image's block devices, in order. *)
Fixpoint snapshot_ids (devices : list BlockDeviceMapping) : list string :=
  match devices with
  | [] => []
  | device :: rest =>
      match Ebs device with
      | Some ebs =>
          match SnapshotId ebs with
          | Some id => id :: snapshot_ids rest
          | None => snapshot_ids rest
          end
      | None => snapshot_ids rest
      end
  end.

(** The copy request of the rename phase. *)
Definition copy_input (c : Config) (region : option string)
  (createdami : string) : CopyImageInput :=
  {| ci_Name := Name c;
     ci_SourceImageId := createdami;
     ci_SourceRegion := region;
     ci_Encrypted := if Encrypt c then Some (Encrypt c) else None;
     ci_KmsKeyId :=
       if Encrypt c && negb (String.eqb (KMSKey c) "")
       then Some (KMSKey c) else None |}.

(** The rename phase, from the imported image to the copy's id. *)
Definition rename (c : Config) (region : option string) (createdami : string)
  : M string :=
  _ ← do_call (UiMessage ("Starting rename of AMI (" +:+ createdami +:+ ")"));
  let copyInput := copy_input c region createdami in
  _ ← do_call (Ec2CopyImage copyInput);
  resp ← or_fail (CopyImage env copyInput)
           (fun err => "Error Copying AMI (" +:+ createdami +:+ "): " +:+ err);
  _ ← do_call (UiMessage "Waiting for AMI rename to complete (may take a while)");
  newId ← lift (deref (co_ImageId resp));
  _ ← do_call (Ec2WaitUntilAMIAvailable newId);
  _ ← check (WaitUntilAMIAvailable env newId)
        (fun err => "Error waiting for AMI (" +:+ newId +:+ "): " +:+ err);
  _ ← do_call (UiMessage "Destroying intermediary AMI...");
  _ ← do_call (Ec2DestroyAMIs [createdami]);
  _ ← check (DestroyAMIs env [createdami])
        (fun err => "Error deregistering existing AMI: " +:+ err);
  _ ← do_call (UiMessage "AMI rename completed");
  mret newId.

(** The tagging phase. *)
Definition tagging (c : Config) (createdami : string) : M unit :=
  let pairs := map_to_list (Tags c) in
  _ ← foldr (fun kv rest =>
         _ ← do_call (UiMessage ("Adding tag " +:+ String dquote (fst kv)
                                 +:+ String dquote ": " +:+ String dquote (snd kv)
                                 +:+ String dquote ""));
         rest) (mret tt) pairs;
  let ec2Tags := map (fun kv => {| tag_Key := fst kv; tag_Value := snd kv |}) pairs in
  let resourceIds := [createdami] in
  _ ← do_call (Ec2DescribeImages resourceIds);
  imageResp ← or_fail (DescribeImages env resourceIds)
    (fun err => "Failed to retrieve details for AMI " +:+ createdami +:+ ": " +:+ err);
  match imageResp with
  | [] => fail_with ("AMI " +:+ createdami +:+ " has no images")
  | image :: _ =>
      let snaps := snapshot_ids (BlockDeviceMappings image) in
      _ ← foldr (fun id rest =>
             _ ← do_call (UiMessage ("Tagging snapshot " +:+ id)); rest)
           (mret tt) snaps;
      let resourceIds := resourceIds ++ snaps in
      _ ← do_call (UiMessage ("Tagging AMI " +:+ createdami));
      _ ← do_call (Ec2CreateTags resourceIds ec2Tags);
      check (CreateTags env resourceIds ec2Tags)
        (fun err => "Failed to add tags to resources "
                    +:+ fmt_GoSyntax env resourceIds +:+ ": " +:+ err)
  end.

(** The attribute-modification phase: one call per entry of [options]. *)
Fixpoint modify_each (entries : list (string * ModifyImageAttributeInput))
  (createdami : string) : M unit :=
  match entries with
  | [] => mret tt
  | (name, input) :: rest =>
      _ ← do_call (UiMessage ("Modifying: " +:+ name));
      let input := set_ImageId createdami input in
      _ ← do_call (Ec2ModifyImageAttribute name input);
      _ ← check (ModifyImageAttribute env input)
            (fun err => "Error modifying AMI attributes: " +:+ err);
      modify_each rest createdami
  end.

Definition modify_attributes (c : Config) (createdami : string) : M unit :=
  let options := attribute_options c in
  when_ (Nat.ltb 0 (size options)) (modify_each (map_to_list options) createdami).

(** From the tags to the end: tagging, attribute modification, the
    artifact, and the deletion of the uploaded object. *)
Definition later_phases (c : Config) (region : option string)
  (createdami : string) : M result :=
  _ ← when_ (Nat.ltb 0 (size (Tags c))) (tagging c createdami);
  _ ← modify_attributes c createdami;
  regionName ← lift (deref region);
  let artifact :=
    {| Amis := {[ regionName := createdami ]};
       BuilderIdValue := BuilderId |} in
  _ ← when_ (negb (SkipClean c))
        (_ ← do_call (UiMessage ("Deleting import source s3://" +:+ S3Bucket c
                                 +:+ "/" +:+ S3Key c));
         _ ← do_call (S3DeleteObject (S3Bucket c) (S3Key c));
         check (DeleteObject env (S3Bucket c) (S3Key c))
           (fun err => "Failed to delete s3://" +:+ S3Bucket c +:+ "/"
                       +:+ S3Key c +:+ ": " +:+ err));
  mret {| r_artifact := Some artifact; r_keep := false;
          r_forceOverride := false; r_err := None |}.

(** The two ways an import is reported as failed: the wait for the task
    failed ([err] is the waiter's error), or the task ended in a status
    other than completed. *)
Definition err_import_wait (taskId statusMessage err : string) : error :=
  "Import task " +:+ taskId +:+ " failed with status message: "
  +:+ statusMessage +:+ ", error: " +:+ err.

Definition err_import_failed (taskId message : string) : error :=
  "Import task " +:+ taskId +:+ " failed: " +:+ message.

(** From the wait for the import task to the end. *)
Definition await_import (c : Config) (region : option string)
  (import_start : ImportImageOutput) (taskId : string) : M result :=
  _ ← do_call (UiMessage ("Waiting for task " +:+ taskId
                          +:+ " to complete (may take a while)"));
  _ ← do_call (Ec2WaitUntilImageImported taskId);
  match WaitUntilImageImported env taskId with
  | Some err =>
      (* Retrieve the status message *)
      _ ← do_call (Ec2DescribeImportImageTasks (ImportTaskId import_start));
      statusMessage ←
        match DescribeImportImageTasks env (ImportTaskId import_start) with
        | inr _ => mret "Error retrieving status message"
        | inl tasks =>
            task ← lift (index0 tasks);
            lift (deref (StatusMessage task))
        end;
      fail_with (err_import_wait taskId statusMessage err)
  | None =>
      _ ← do_call (Ec2DescribeImportImageTasks (ImportTaskId import_start));
      tasks ← or_fail (DescribeImportImageTasks env (ImportTaskId import_start))
                (fun err => "Failed to find import task " +:+ taskId +:+ ": " +:+ err);
      task ← lift (index0 tasks);
      status ← lift (deref (Status task));
      if negb (String.eqb status "completed") then
        message ← lift (deref (StatusMessage task));
        fail_with (err_import_failed taskId message)
      else
      _ ← do_call (UiMessage ("Import task " +:+ taskId +:+ " complete"));
      createdami ← lift (deref (ImageId task));
      createdami ←
        (if negb (String.eqb (Name c) "") then rename c region createdami
         else mret createdami);
      later_phases c region createdami
  end.

(** The upload request and the import request built from the
    configuration. *)
Definition upload_input (c : Config) (source : string) : UploadInput :=
  {| up_Body := source;
     up_Bucket := S3Bucket c;
     up_Key := S3Key c;
     up_ServerSideEncryption :=
       if negb (String.eqb (S3Encryption c) "") then Some (S3Encryption c) else None;
     up_SSEKMSKeyId :=
       if negb (String.eqb (S3Encryption c) "")
          && String.eqb (S3Encryption c) "aws:kms"
          && negb (String.eqb (S3EncryptionKey c) "")
       then Some (S3EncryptionKey c) else None |}.

Definition import_params (c : Config) : ImportImageInput :=
  {| ii_Encrypted := Encrypt c;
     ii_Format := Format c;
     ii_S3Bucket := S3Bucket c;
     ii_S3Key := S3Key c;
     ii_Architecture := Architecture c;
     ii_BootMode := BootMode c;
     ii_Platform := Platform c;
     ii_KmsKeyId :=
       if Encrypt c && negb (String.eqb (KMSKey c) "") then Some (KMSKey c) else None;
     ii_RoleName :=
       if negb (String.eqb (RoleName c) "") then Some (RoleName c) else None;
     ii_LicenseType :=
       if negb (String.eqb (LicenseType c) "") then Some (LicenseType c) else None |}.

(** [artifact.State("generated_data")], with a fresh map in place of
    nil. *)
Definition state_generated_data (artifact : SourceArtifact)
  : option (gmap string string) :=
  match generated_data artifact with
  | Some d => Some d
  | None => Some ∅
  end.

(** [(p *PostProcessor) PostProcess(ctx, ui, artifact)], from the first
    statement to the last; [p.config] is read only through [c] and the
    rendered key. *)
Definition PostProcess (c : Config) (artifact : SourceArtifact) : M result :=
  let generatedData := state_generated_data artifact in
  region ← or_fail (Session env) (fun err => err);
  s3Key ← or_fail (interpolate_Render env (S3Key c) generatedData)
            (fun err => "Error rendering s3_key_name template: " +:+ err);
  let c := set_S3Key s3Key c in
  let source := find_source (Files artifact) ("." +:+ Format c) in
  if String.eqb source "" then
    fail_with ("No " +:+ Format c +:+ " image file found in artifact from builder")
  else
  _ ← when_ (String.eqb (S3Encryption c) "AES256"
             && negb (String.eqb (S3EncryptionKey c) ""))
        (do_call (UiMessage ("Ignoring s3_encryption_key because s3_encryption is set to '"
                             +:+ S3Encryption c +:+ "'")));
  _ ← do_call (OsOpen source);
  _ ← check (os_Open env source)
        (fun err => "Failed to open " +:+ source +:+ ": " +:+ err);
  _ ← do_call (UiMessage ("Uploading " +:+ source +:+ " to s3://" +:+ S3Bucket c
                          +:+ "/" +:+ S3Key c));
  let updata := upload_input c source in
  _ ← do_call (S3Upload updata);
  _ ← check (Upload env updata)
        (fun err => "Failed to upload " +:+ source +:+ ": " +:+ err);
  _ ← do_call FileClose;
  _ ← do_call (UiMessage ("Completed upload of " +:+ source +:+ " to s3://"
                          +:+ S3Bucket c +:+ "/" +:+ S3Key c));
  let params := import_params c in
  _ ← when_ (negb (String.eqb (LicenseType c) ""))
        (do_call (UiMessage ("Setting license type to '" +:+ LicenseType c +:+ "'")));
  started ← retry_ImportImage 11 0 params "";
  import_start ← or_fail started
    (fun err => "Failed to start import from s3://" +:+ S3Bucket c +:+ "/"
                +:+ S3Key c +:+ ": " +:+ err);
  taskId ← lift (deref (ImportTaskId import_start));
  _ ← do_call (UiMessage ("Started import of s3://" +:+ S3Bucket c +:+ "/"
                          +:+ S3Key c +:+ ", task id " +:+ taskId));
  await_import c region import_start taskId.

(** A whole call: the trace it leaves and how it ends. *)
Definition run_PostProcess (c : Config) (artifact : SourceArtifact)
  : list call * outcome result :=
  match PostProcess c artifact [] with
  | (t, Next r) => (t, Returns r)
  | (t, Return r) => (t, Returns r)
  | (t, Panic why) => (t, Panics why)
  end.

End PostProcess.

(** The calls of the phases that follow the import. *)
Definition is_later_phase (c : call) : bool :=
  match c with
  | Ec2CopyImage _ | Ec2WaitUntilAMIAvailable _ | Ec2DestroyAMIs _
  | Ec2DescribeImages _ | Ec2CreateTags _ _ | Ec2ModifyImageAttribute _ _
  | S3DeleteObject _ _ => true
  | _ => false
  end.

(** The calls of the rename phase. *)
Definition is_rename_call (c : call) : bool :=
  match c with
  | Ec2CopyImage _ | Ec2WaitUntilAMIAvailable _ | Ec2DestroyAMIs _ => true
  | _ => false
  end.

(** ** The words of the statements about [PostProcess] *)

(** What a stretch of the body guarantees, whatever came before it: the
    calls it adds all satisfy [P]; if it goes on, its value satisfies [Q];
    if it returns from [PostProcess], the result satisfies [R]. *)
Definition ensures {A} (m : M A) (P : call -> Prop) (Q : A -> Prop)
  (R : result -> Prop) : Prop :=
  forall t, exists t',
    fst (m t) = t ++ t'
    /\ Forall P t'
    /\ match snd (m t) with
       | Next a => Q a
       | Return r => R r
       | Panic _ => True
       end.

(** A call outside the rename phase, and one before the phases that follow
    the import. *)
Definition not_rename (c : call) : Prop := is_rename_call c = false.
Definition not_later (c : call) : Prop := is_later_phase c = false.

(** A result that reports a failure: no artifact, and an error. *)
Definition is_failure (r : result) : Prop :=
  r_artifact r = None /\ r_err r <> None.

(** The result of a run that went through every phase: the artifact maps
    the region of the session to the image. *)
Definition final_result (region : option string) (ami : string) (r : result)
  : Prop :=
  exists regionName,
    region = Some regionName
    /\ r = {| r_artifact := Some {| Amis := {[ regionName := ami ]};
                                    BuilderIdValue := BuilderId |};
              r_keep := false; r_forceOverride := false; r_err := None |}.

(** The run gets as far as a started import task: the session, the
    rendering of the key, the source file, the upload and, within the eleven
    attempts, [ImportImage] succeed, and the answer names the task. [c'] is
    the configuration with the rendered key. *)
Record import_started (env : Env) (c : Config) (artifact : SourceArtifact)
  (region : option string) (c' : Config) (import_start : ImportImageOutput)
  (taskId : string) : Prop := {
  started_session : Session env = inl region;
  started_key :
    exists key,
      interpolate_Render env (S3Key c) (state_generated_data artifact) = inl key
      /\ c' = set_S3Key key c;
  started_source : find_source (Files artifact) ("." +:+ Format c') <> "";
  started_open :
    os_Open env (find_source (Files artifact) ("." +:+ Format c')) = None;
  started_upload :
    Upload env (upload_input c' (find_source (Files artifact) ("." +:+ Format c')))
    = None;
  started_import :
    exists n, n < 11
      /\ (forall k, k < n -> exists e, ImportImage env k (import_params c') = inr e)
      /\ ImportImage env n (import_params c') = inl import_start;
  started_task : ImportTaskId import_start = Some taskId
}.

(** The import task is reported as completed, with the image [createdami]. *)
Record import_completed (env : Env) (taskId : string) (createdami : string)
  : Prop := {
  completed_wait : WaitUntilImageImported env taskId = None;
  completed_task :
    exists task rest,
      DescribeImportImageTasks env (Some taskId) = inl (task :: rest)
      /\ Status task = Some "completed"
      /\ ImageId task = Some createdami
}.

(** The calls of the rename phase a run makes, by the answers it gets: the
    copy; then, on the copy's id, the wait; then the removal of the
    imported image. *)
Definition rename_calls (env : Env) (c : Config) (region : option string)
  (createdami : string) : list call :=
  let copyInput := copy_input c region createdami in
  Ec2CopyImage copyInput ::
  match CopyImage env copyInput with
  | inr _ => []
  | inl resp =>
      match co_ImageId resp with
      | None => []
      | Some newId =>
          Ec2WaitUntilAMIAvailable newId ::
          match WaitUntilAMIAvailable env newId with
          | Some _ => []
          | None => [Ec2DestroyAMIs [createdami]]
          end
      end
  end.

End AmazonImport.

(* ================================================================== *)
(** * The ebssurrogate builder: [RootBlockDevice] *)
(* ================================================================== *)

Module Ebssurrogate.
Import Go.

(** [RootBlockDevice]; the two [int64] fields as [Z]. *)
Record RootBlockDevice := {
  SourceDeviceName : string;
  DeviceName : string;
  DeleteOnTermination : bool;
  IOPS : Z;
  VolumeType : string;
  VolumeSize : Z;
  ImageMethod : string
}.

Definition set_ImageMethod (v : string) (c : RootBlockDevice) : RootBlockDevice :=
  {| SourceDeviceName := SourceDeviceName c; DeviceName := DeviceName c;
     DeleteOnTermination := DeleteOnTermination c; IOPS := IOPS c;
     VolumeType := VolumeType c; VolumeSize := VolumeSize c; ImageMethod := v |}.

Definition err_source_device_name : error :=
  "source_device_name for the root_device must be specified".
Definition err_device_name : error :=
  "device_name for the root_device must be specified".
Definition err_gp2_iops : error := "iops may not be specified for a gp2 volume".
Definition err_iops : error := "iops must be greater than 0".
Definition err_volume_size : error := "volume_size must be greater than 0".
Definition err_image_method : error :=
  "image_method must be 'create', 'register' or an empty string' ".

(** [errs = append(errs, e)] under a condition. *)
Definition when (b : bool) (e : error) : list error := if b then [e] else [].

(** [(c *RootBlockDevice) Prepare(ctx)]: the receiver after the call and the
    slice returned ([nil] is the empty list). *)
Definition Prepare (c : RootBlockDevice) : RootBlockDevice * list error :=
  let errs : list error := [] in
  let errs := errs ++ when (String.eqb (SourceDeviceName c) "") err_source_device_name in
  let errs := errs ++ when (String.eqb (DeviceName c) "") err_device_name in
  let errs := errs ++
    when (String.eqb (VolumeType c) "gp2" && negb (IOPS c =? 0)%Z) err_gp2_iops in
  let errs := errs ++ when (IOPS c <? 0)%Z err_iops in
  let errs := errs ++ when (VolumeSize c <? 0)%Z err_volume_size in
  let '(c, errs) :=
    if String.eqb (ImageMethod c) "" then (set_ImageMethod "register" c, errs)
    else if negb (String.eqb (ImageMethod c) "create")
            && negb (String.eqb (ImageMethod c) "register")
         then (c, errs ++ [err_image_method])
         else (c, errs) in
  if Nat.ltb 0 (length errs) then (c, errs) else (c, []).

(** A root device [Prepare] has nothing to say against. *)
Record well_formed (c : RootBlockDevice) : Prop := {
  wf_source : SourceDeviceName c <> "";
  wf_device : DeviceName c <> "";
  wf_gp2 : VolumeType c = "gp2" -> IOPS c = 0%Z;
  wf_iops : (0 <= IOPS c)%Z;
  wf_size : (0 <= VolumeSize c)%Z;
  wf_method :
    ImageMethod c = "" \/ ImageMethod c = "create" \/ ImageMethod c = "register"
}.

End Ebssurrogate.

(* ================================================================== *)
(** * The ebsvolume builder: [Builder.Prepare] and the tenancy of [Run] *)
(* ================================================================== *)

Module EbsvolumeConfig.
Import Go.

(** The fields of a [BlockDevice] of [ebs_volumes] that [Prepare] reads. *)
Record BlockDevice := {
  SnapshotDescription : string;
  SnapshotVolume : bool
}.

(** The fields of the builder's [Config] that [Prepare] and the tenancy
    loop of [Run] read or write; those of the embedded [RunConfig] come
    last. *)
Record Config := {
  AMIENASupport : Trilean;
  AMISriovNetSupport : bool;
  VolumeMappings : list BlockDevice;
  VolumeRunTags : gmap string string;
  VolumeRunTag : list AmiConfig.KeyValue;
  launchBlockDevices : list BlockDevice;
  SpotPriceAutoProduct : string;
  EnableT2Unlimited : bool;
  PlacementTenancy : string;
  Tenancy : string
}.

Definition set_VolumeRunTags (v : gmap string string) (c : Config) : Config :=
  {| AMIENASupport := AMIENASupport c; AMISriovNetSupport := AMISriovNetSupport c;
     VolumeMappings := VolumeMappings c; VolumeRunTags := v;
     VolumeRunTag := VolumeRunTag c; launchBlockDevices := launchBlockDevices c;
     SpotPriceAutoProduct := SpotPriceAutoProduct c;
     EnableT2Unlimited := EnableT2Unlimited c;
     PlacementTenancy := PlacementTenancy c; Tenancy := Tenancy c |}.

Definition set_launchBlockDevices (v : list BlockDevice) (c : Config) : Config :=
  {| AMIENASupport := AMIENASupport c; AMISriovNetSupport := AMISriovNetSupport c;
     VolumeMappings := VolumeMappings c; VolumeRunTags := VolumeRunTags c;
     VolumeRunTag := VolumeRunTag c; launchBlockDevices := v;
     SpotPriceAutoProduct := SpotPriceAutoProduct c;
     EnableT2Unlimited := EnableT2Unlimited c;
     PlacementTenancy := PlacementTenancy c; Tenancy := Tenancy c |}.

(** What [Prepare] returns as its error when it is not nil: the decoder's
    error, or the [packersdk.MultiError] with its [Errors]. *)
Inductive prepare_error :=
| DecodeError (e : error)
| MultiError (Errors : list error).

Definition err_spot_modification : error :=
  "Spot instances do not support modification, which is required " +:+
  "when either `ena_support` or `sriov_support` are set. Please ensure " +:+
  "you use an AMI that already has either SR-IOV or ENA enabled.".

Definition warn_spot_price_auto_product : string :=
  "spot_price_auto_product is deprecated and no " +:+
  "longer necessary for Packer builds. In future versions of " +:+
  "Packer, inclusion of spot_price_auto_product will error your " +:+
  "builds. Please take a look at our current documentation to " +:+
  "understand how Packer requests Spot instances.".

Definition warn_enable_t2_unlimited : string :=
  "enable_t2_unlimited is deprecated please use " +:+
  "enable_unlimited_credits. In future versions of " +:+
  "Packer, inclusion of enable_t2_unlimited will error your builds.".

Definition err_snapshot_description : error :=
  "All `ebs_volumes` blocks setting `snapshot_description` must also set `snapshot_volume`.".

(** A block that describes a snapshot it does not ask for. *)
Definition describes_without_snapshot (m : BlockDevice) : bool :=
  negb (String.eqb (SnapshotDescription m) "") && negb (SnapshotVolume m).

Section Prepare.

(** The plugin SDK and the common package, each by what it answers:
    [config.Decode] (the decoded configuration or its error), the four
    [Prepare] methods called on parts of the configuration (the
    configuration after the call and the errors), [IsSpotInstance] of the
    [RunConfig], and [GetGeneratedDataList]. *)
Variable raw : Type.
Variable config_Decode : list raw -> Config + error.
Variable AccessConfig_Prepare : Config -> Config * list error.
Variable RunConfig_Prepare : Config -> Config * list error.
Variable launchBlockDevices_Prepare : Config -> Config * list error.
Variable VolumeMappings_Prepare : Config -> Config * list error.
Variable IsSpotInstance : Config -> bool.
Variable GetGeneratedDataList : list string.

(** [b.config] as a [config.Decode] that fails leaves it: the call is handed
    [&b.config], whose [ctx.Funcs] and [ctx.Data] are assigned just
    before. *)
Variable config_Decode_receiver : Config -> list raw -> Config.

(** The configuration and the errors once the five parts have been
    prepared and the launch devices set. *)
Definition prepare_parts (c : Config) : Config * list error :=
  let errs : list error := [] in
  let '(tags, e) := AmiConfig.CopyOn (VolumeRunTag c) (VolumeRunTags c) in
  let c := set_VolumeRunTags tags c in
  let errs := errs ++ e in
  let '(c, e) := AccessConfig_Prepare c in
  let errs := errs ++ e in
  let '(c, e) := RunConfig_Prepare c in
  let errs := errs ++ e in
  let '(c, e) := launchBlockDevices_Prepare c in
  let errs := errs ++ e in
  let '(c, e) := VolumeMappings_Prepare c in
  let errs := errs ++ e in
  let c := set_launchBlockDevices (VolumeMappings c) c in
  (c, errs).

(** [(b *Builder) Prepare(raws...)]: the configuration after the call, and
    the three values returned: the generated data ([None] for nil), the
    warnings, the error.  The test of [err] that follows the assignment of
    the launch devices has no branch here: [err] is the decoder's, and nil
    at that point. *)
Definition Prepare (before : Config) (raws : list raw)
  : Config * (option (list string) * list string * option prepare_error) :=
  match config_Decode raws with
  | inr err => (config_Decode_receiver before raws, (None, [], Some (DecodeError err)))
  | inl c =>
      let '(c, errs) := prepare_parts c in
      let errs := errs ++
        (if IsSpotInstance c
            && (Trilean_True (AMIENASupport c) || AMISriovNetSupport c)
         then [err_spot_modification] else []) in
      let warns : list string := [] in
      let warns := warns ++
        (if negb (String.eqb (SpotPriceAutoProduct c) "")
         then [warn_spot_price_auto_product] else []) in
      let warns := warns ++
        (if EnableT2Unlimited c then [warn_enable_t2_unlimited] else []) in
      let errs := errs ++
        flat_map (fun configVolumeMapping =>
                    if describes_without_snapshot configVolumeMapping
                    then [err_snapshot_description] else [])
                 (VolumeMappings c) in
      if Nat.ltb 0 (length errs) then (c, (None, warns, Some (MultiError errs)))
      else (c, (Some GetGeneratedDataList, warns, None))
  end.

End Prepare.

(** The tenancy [Run] gives to the on-demand launch step: the loop over
    [tenancies] with its [break]. *)
Fixpoint first_set (tenancies : list string) : string :=
  match tenancies with
  | [] => ""
  | t :: rest => if negb (String.eqb t "") then t else first_set rest
  end.

Definition Run_tenancy (c : Config) : string :=
  first_set [PlacementTenancy c; Tenancy c].

End EbsvolumeConfig.

(* ================================================================== *)
(** * The calls of [PostProcess], by what the configuration allows *)
(* ================================================================== *)

Module ImportCalls.
Import Go AmazonImport.

(** What the configuration and the artifact say about a call: the upload
    is of a file of the artifact, to the configured bucket, with the
    encryption asked for; an import is of the uploaded object; the rename
    calls need a name, the tagging calls need tags; a modification is an
    entry of the attribute map with the image filled in; the deletion of
    the uploaded object needs [skip_clean] off. *)
Definition allowed (c : Config) (artifact : SourceArtifact) (x : call) : Prop :=
  match x with
  | OsOpen path => In path (Files artifact)
  | S3Upload input =>
      In (up_Body input) (Files artifact)
      /\ up_Bucket input = S3Bucket c
      /\ up_ServerSideEncryption input
         = (if String.eqb (S3Encryption c) "" then None else Some (S3Encryption c))
      /\ (forall k, up_SSEKMSKeyId input = Some k ->
            S3Encryption c = "aws:kms" /\ S3EncryptionKey c = k /\ k <> "")
  | Ec2ImportImage params =>
      ii_S3Bucket params = S3Bucket c
      /\ ii_Format params = Format c
      /\ (forall k, ii_KmsKeyId params = Some k -> Encrypt c = true /\ KMSKey c = k)
  | Ec2CopyImage input => Name c <> "" /\ ci_Name input = Name c
  | Ec2WaitUntilAMIAvailable _ => Name c <> ""
  | Ec2DestroyAMIs _ => Name c <> ""
  | Ec2DescribeImages _ => Tags c <> ∅
  | Ec2CreateTags _ tags => Tags c <> ∅ /\ length tags = size (Tags c)
  | Ec2ModifyImageAttribute name input =>
      exists input0 ami,
        attribute_options c !! name = Some input0
        /\ input = set_ImageId ami input0
  | S3DeleteObject bucket _ => SkipClean c = false /\ bucket = S3Bucket c
  | UiMessage _ | FileClose | Ec2WaitUntilImageImported _
  | Ec2DescribeImportImageTasks _ => True
  end.

(** What every result of [PostProcess] looks like: the input artifact is
    neither kept nor overridden; there is an artifact or an error, not
    both; an artifact is of this builder and has one image, in the region
    of the session. *)
Definition well_formed_result (env : Env) (r : result) : Prop :=
  r_keep r = false
  /\ r_forceOverride r = false
  /\ (r_artifact r = None <-> r_err r <> None)
  /\ (forall a, r_artifact r = Some a ->
        BuilderIdValue a = BuilderId
        /\ exists region ami,
             Session env = inl (Some region) /\ Amis a = {[ region := ami ]}).

(** The calls to [ImportImage], [ModifyImageAttribute] and to S3's
    [DeleteObject] among the calls of a run. *)
Definition is_import_call (x : call) : bool :=
  match x with Ec2ImportImage _ => true | _ => false end.

Definition is_modify_call (x : call) : bool :=
  match x with Ec2ModifyImageAttribute _ _ => true | _ => false end.

(** The image a call of the last phases is about, when it is about one:
    [DescribeImages] and [CreateTags] by their first resource,
    [ModifyImageAttribute] by its [ImageId]. *)
Definition about_image (ami : string) (x : call) : Prop :=
  match x with
  | Ec2DescribeImages ids => ids = [ami]
  | Ec2CreateTags resources _ => exists snapshots, resources = ami :: snapshots
  | Ec2ModifyImageAttribute _ input => mi_ImageId input = Some ami
  | _ => True
  end.

(** A call that names an object of S3 names the object [bucket]/[key]. *)
Definition same_object (bucket key : string) (x : call) : Prop :=
  match x with
  | S3Upload input => up_Bucket input = bucket /\ up_Key input = key
  | Ec2ImportImage params => ii_S3Bucket params = bucket /\ ii_S3Key params = key
  | S3DeleteObject b k => b = bucket /\ k = key
  | _ => True
  end.

(** The [Ui] lines and the calls of the tagging phase, in order, for the
    answer [DescribeImages] gives. *)
Definition tagging_trace (env : Env) (c : Config) (ami : string) : list call :=
  let pairs := map_to_list (Tags c) in
  let tags := map (fun kv => {| tag_Key := fst kv; tag_Value := snd kv |}) pairs in
  map (fun kv => UiMessage ("Adding tag " +:+ String dquote (fst kv)
                            +:+ String dquote ": " +:+ String dquote (snd kv)
                            +:+ String dquote EmptyString)) pairs
  ++ [Ec2DescribeImages [ami]]
  ++ match DescribeImages env [ami] with
     | inl (image :: _) =>
         let snapshots := snapshot_ids (BlockDeviceMappings image) in
         map (fun id => UiMessage ("Tagging snapshot " +:+ id)) snapshots
         ++ [UiMessage ("Tagging AMI " +:+ ami);
             Ec2CreateTags (ami :: snapshots) tags]
     | _ => []
     end.

End ImportCalls.

(* ================================================================== *)
(** * Concrete runs, for the examples *)
(* ================================================================== *)

Module Samples.
Import Go Multistep.

(** A chroot bag as the builder hands it to the mount step: the
    configuration, the device and the [Ui]. *)
Definition chroot_config : Chroot.Config unit :=
  {| Chroot.NVMEDevicePath := ""; Chroot.MountPath := "/mnt/packer-{{.Device}}";
     Chroot.ctx := tt |}.

Definition chroot_bag : world (Chroot.value unit) :=
  Put "ui" (Chroot.VUi unit)
    (Put "device" (Chroot.VString unit "/dev/xvdf")
       (Put "config" (Chroot.VConfig unit chroot_config)
          {| bag := ∅; trace := [] |})).

(** A renderer that fills in the device, one that always fails, and the
    path functions of a system whose paths are absolute already. *)
Definition render_device (template : string) (_ : unit)
  (data : Chroot.manualMountCommandData) : string + error :=
  inl ("/mnt/packer-" +:+ Chroot.Device data).

Definition render_fails (template : string) (_ : unit)
  (data : Chroot.manualMountCommandData) : string + error :=
  inr "template: unexpected token".

Definition base_name (path : string) : string :=
  if String.eqb path "/dev/xvdf" then "xvdf" else path.

Definition abs_path (path : string) : string + error := inl path.

Definition mount_step : Chroot.StepManualMountCommand :=
  {| Chroot.Command := "mount -o nouuid"; Chroot.mountPath := "";
     Chroot.GeneratedData := Some tt |}.

Definition silent_step : Chroot.StepManualMountCommand :=
  {| Chroot.Command := ""; Chroot.mountPath := "";
     Chroot.GeneratedData := Some tt |}.

(** A step of the ebsvolume builder that leaves the volumes and the
    snapshots in the bag, as its last steps do. *)
Definition volumes : Ebsvolume.EbsVolumes := {[ "us-east-1" := ["vol-0a1b"] ]}.
Definition snapshots : Ebsvolume.EbsSnapshots := {[ "us-east-1" := ["snap-0c2d"] ]}.

Definition publish_volumes : Step Ebsvolume.value :=
  {| run := fun w =>
       Returns (ActionContinue,
                Put "ebssnapshots" (Ebsvolume.VEbsSnapshots snapshots)
                  (Put "ebsvolumes" (Ebsvolume.VEbsVolumes volumes) w),
                fun w => Returns w) |}.

(** A step that fails the way the steps of the builders do. *)
Definition failing_step : Step Ebsvolume.value :=
  {| run := fun w =>
       Returns (ActionHalt,
                emit (UiError "Error launching source instance")
                  (Put "error" (Ebsvolume.VError "Error launching source instance") w),
                fun w => Returns w) |}.

Definition cancelled : Context := fun _ => true.

(** An import: the configuration, the artifact of the builder, and the
    services; the first two attempts to start the import are throttled.
    The services differ in how the wait for the task ends and in the status
    the task is found in. *)
Definition import_config : AmazonImport.Config :=
  {| AmazonImport.S3Bucket := "images"; AmazonImport.S3Key := "disk.ova";
     AmazonImport.S3Encryption := ""; AmazonImport.S3EncryptionKey := "";
     AmazonImport.SkipClean := false;
     AmazonImport.Tags := {[ "team" := "infra" ]};
     AmazonImport.Name := "final"; AmazonImport.Description := "";
     AmazonImport.Users := ["111111111111"]; AmazonImport.Groups := [];
     AmazonImport.OrgArns := []; AmazonImport.OuArns := [];
     AmazonImport.Encrypt := false; AmazonImport.KMSKey := "";
     AmazonImport.AMIIMDSSupport := ""; AmazonImport.LicenseType := "";
     AmazonImport.RoleName := ""; AmazonImport.Format := "ova";
     AmazonImport.Architecture := "x86_64";
     AmazonImport.BootMode := "legacy-bios"; AmazonImport.Platform := "linux";
     AmazonImport.PollingConfig := None |}.

Definition built : AmazonImport.SourceArtifact :=
  {| AmazonImport.generated_data := None;
     AmazonImport.Files := ["out/disk.vmdk"; "out/disk.ova"] |}.

Definition aws (wait : option error) (status : string) : AmazonImport.Env :=
  {| AmazonImport.Session := inl (Some "us-east-1");
     AmazonImport.interpolate_Render := fun s _ => inl s;
     AmazonImport.os_Open := fun _ => None;
     AmazonImport.Upload := fun _ => None;
     AmazonImport.ImportImage := fun n _ =>
       if Nat.ltb n 2 then inr "RequestLimitExceeded"
       else inl {| AmazonImport.ImportTaskId := Some "import-ami-1" |};
     AmazonImport.WaitUntilImageImported := fun _ => wait;
     AmazonImport.DescribeImportImageTasks := fun _ =>
       inl [{| AmazonImport.Status := Some status;
               AmazonImport.StatusMessage := Some "ClientError: Disk validation failed";
               AmazonImport.ImageId := Some "ami-1" |}];
     AmazonImport.CopyImage := fun _ =>
       inl {| AmazonImport.co_ImageId := Some "ami-2" |};
     AmazonImport.WaitUntilAMIAvailable := fun _ => None;
     AmazonImport.DestroyAMIs := fun _ => None;
     AmazonImport.DescribeImages := fun _ =>
       inl [{| AmazonImport.BlockDeviceMappings :=
                 [{| AmazonImport.Ebs :=
                       Some {| AmazonImport.SnapshotId := Some "snap-1" |} |};
                  {| AmazonImport.Ebs := None |}] |}];
     AmazonImport.CreateTags := fun _ _ => None;
     AmazonImport.ModifyImageAttribute := fun _ => None;
     AmazonImport.DeleteObject := fun _ _ => None;
     AmazonImport.fmt_GoSyntax := fun _ => "[]string{...}" |}.

(** The same services, with another answer to [DescribeImportImageTasks]. *)
Definition with_describe (answer : list AmazonImport.ImportImageTask + error)
  (env : AmazonImport.Env) : AmazonImport.Env :=
  {| AmazonImport.Session := AmazonImport.Session env;
     AmazonImport.interpolate_Render := AmazonImport.interpolate_Render env;
     AmazonImport.os_Open := AmazonImport.os_Open env;
     AmazonImport.Upload := AmazonImport.Upload env;
     AmazonImport.ImportImage := AmazonImport.ImportImage env;
     AmazonImport.WaitUntilImageImported := AmazonImport.WaitUntilImageImported env;
     AmazonImport.DescribeImportImageTasks := fun _ => answer;
     AmazonImport.CopyImage := AmazonImport.CopyImage env;
     AmazonImport.WaitUntilAMIAvailable := AmazonImport.WaitUntilAMIAvailable env;
     AmazonImport.DestroyAMIs := AmazonImport.DestroyAMIs env;
     AmazonImport.DescribeImages := AmazonImport.DescribeImages env;
     AmazonImport.CreateTags := AmazonImport.CreateTags env;
     AmazonImport.ModifyImageAttribute := AmazonImport.ModifyImageAttribute env;
     AmazonImport.DeleteObject := AmazonImport.DeleteObject env;
     AmazonImport.fmt_GoSyntax := AmazonImport.fmt_GoSyntax env |}.

(** A wait that times out on a task that cannot be described, and a task
    that was deleted and carries no status message. *)
Definition unanswered : AmazonImport.Env :=
  with_describe (inr "RequestLimitExceeded")
    (aws (Some "ResourceNotReady: exceeded wait attempts") "active").

Definition deleted : AmazonImport.Env :=
  with_describe
    (inl [{| AmazonImport.Status := Some "deleted";
             AmazonImport.StatusMessage := None;
             AmazonImport.ImageId := None |}])
    (aws None "deleted").




End Samples.

(* ================================================================== *)
(** * Properties *)
(* ================================================================== *)

(** ** The matcher decides the language of an expression *)

Section RegexpFacts.
Import Regexp.

Lemma nullable_sound r : nullable r = true -> Matches r [].
Proof.
  induction r as [| |p|a IHa b IHb|a IHa b IHb|a IHa]; simpl; intros H;
    try discriminate.
  - constructor.
  - apply andb_true_iff in H as [Ha Hb].
    change (@nil ascii) with (@nil ascii ++ []). constructor; auto.
  - apply orb_true_iff in H as [H|H]; [apply MAltL|apply MAltR]; auto.
  - constructor.
Qed.

Lemma nullable_complete r s : Matches r s -> s = [] -> nullable r = true.
Proof.
  induction 1 as [|p c Hp|a b s t Ha IHa Hb IHb|a b s Ha IHa|a b s Hb IHb|a
                 |a s t Ha IHa Hs IHs]; simpl; intros E; auto.
  - discriminate.
  - apply app_eq_nil in E as [-> ->]. rewrite IHa, IHb; auto.
  - rewrite IHa; auto.
  - rewrite IHb; auto. apply orb_true_r.
Qed.

Lemma deriv_sound c r : forall s, Matches (deriv c r) s -> Matches r (c :: s).
Proof.
  induction r as [| |p|a IHa b IHb|a IHa b IHb|a IHa]; simpl; intros s H.
  - inversion H.
  - inversion H.
  - destruct (p c) eqn:Hp; inversion H; subst. now constructor.
  - destruct (nullable a) eqn:Hn.
    + inversion H as [| | | ? ? ? H1 | ? ? ? H1 | |]; subst.
      * inversion H1 as [| |? ? s1 s2 Hs1 Hs2| | | |]; subst.
        change (c :: s1 ++ s2) with ((c :: s1) ++ s2). constructor; auto.
      * change (c :: s) with ([] ++ c :: s). constructor; auto.
        now apply nullable_sound.
    + inversion H as [| |? ? s1 s2 Hs1 Hs2| | | |]; subst.
      change (c :: s1 ++ s2) with ((c :: s1) ++ s2). constructor; auto.
  - inversion H; subst; [apply MAltL|apply MAltR]; auto.
  - inversion H as [| |? ? s1 s2 Hs1 Hs2| | | |]; subst.
    change (c :: s1 ++ s2) with ((c :: s1) ++ s2). constructor; auto.
Qed.

Lemma deriv_complete r w :
  Matches r w -> forall c s, w = c :: s -> Matches (deriv c r) s.
Proof.
  induction 1 as [|p c0 Hp|a b s1 t1 Ha IHa Hb IHb|a b s1 Ha IHa|a b s1 Hb IHb|a
                 |a s1 t1 Ha IHa Hs IHs]; intros c s E; simpl.
  - discriminate.
  - injection E as -> <-. rewrite Hp. constructor.
  - destruct s1 as [|c1 s1'].
    + simpl in E. subst t1.
      rewrite (nullable_complete a [] Ha eq_refl).
      apply MAltR. now apply IHb.
    + simpl in E. injection E as -> <-.
      destruct (nullable a).
      * apply MAltL. constructor; auto.
      * constructor; auto.
  - apply MAltL. now apply IHa.
  - apply MAltR. now apply IHb.
  - discriminate.
  - destruct s1 as [|c1 s1'].
    + simpl in E. now apply IHs.
    + simpl in E. injection E as -> <-. constructor; auto.
Qed.

Lemma accepts_sound : forall s r, accepts r s = true -> Matches r s.
Proof.
  induction s as [|c s IH]; simpl; intros r H.
  - now apply nullable_sound.
  - apply deriv_sound. now apply IH.
Qed.

Lemma accepts_complete : forall s r, Matches r s -> accepts r s = true.
Proof.
  induction s as [|c s IH]; simpl; intros r H.
  - now apply (nullable_complete r []).
  - apply IH. now apply (deriv_complete r (c :: s)).
Qed.

Lemma Matches_Eps_inv s : Matches Eps s -> s = [].
Proof. now inversion 1. Qed.

Lemma Matches_Cat_inv a b s :
  Matches (Cat a b) s ->
  exists s1 s2, s = s1 ++ s2 /\ Matches a s1 /\ Matches b s2.
Proof. inversion 1; subst; eauto. Qed.

(** A pattern anchored at both ends matches the whole text or nothing. *)
Lemma MatchString_anchored r s :
  MatchString {| bol := true; body := r; eol := true |} s = true
  <-> Matches r (list_ascii_of_string s).
Proof.
  unfold MatchString, unanchored; simpl. split; intros H.
  - apply accepts_sound in H.
    apply Matches_Cat_inv in H as (s1 & s2 & E & H1 & H2).
    apply Matches_Eps_inv in H1. subst s1. simpl in E. subst s2.
    apply Matches_Cat_inv in H2 as (s3 & s4 & E & H3 & H4).
    apply Matches_Eps_inv in H4. subst s4. rewrite app_nil_r in E.
    now rewrite E.
  - apply accepts_complete.
    change (list_ascii_of_string s) with ([] ++ list_ascii_of_string s).
    constructor; [constructor|].
    rewrite <- (app_nil_r (list_ascii_of_string s)).
    constructor; [assumption|constructor].
Qed.

Lemma Matches_Star_class p l :
  forallb p l = true -> Matches (Star (Class p)) l.
Proof.
  induction l as [|c l IH]; simpl; intros H.
  - constructor.
  - apply andb_true_iff in H as [Hc Hl].
    change (c :: l) with ([c] ++ l). constructor; auto. now constructor.
Qed.

Lemma Matches_Plus_class p c l :
  p c = true -> forallb p l = true -> Matches (Plus (Class p)) (c :: l).
Proof.
  intros Hc Hl. unfold Plus. change (c :: l) with ([c] ++ l).
  constructor; [now constructor | now apply Matches_Star_class].
Qed.

Lemma list_ascii_of_string_app s t :
  list_ascii_of_string (s +:+ t)
  = list_ascii_of_string s ++ list_ascii_of_string t.
Proof. induction s as [|c s IH]; simpl; [reflexivity | now rewrite IH]. Qed.

End RegexpFacts.

(** ** [ValidateKmsKey] *)

Section KmsKeyFacts.
Import Regexp AmiConfig.

Lemma kmsKeyIdPattern_matches id :
  key_id_shape id = true -> Matches kmsKeyIdPattern (list_ascii_of_string id).
Proof.
  unfold key_id_shape, kmsKeyIdPattern.
  destruct (list_ascii_of_string id) as [|c rest]; [discriminate|].
  intros H. apply andb_true_iff in H as [H Hrest].
  apply andb_true_iff in H as [Hc Hlen].
  destruct rest as [|d rest]; [discriminate|].
  simpl in Hrest. apply andb_true_iff in Hrest as [Hd Hrest].
  change (c :: d :: rest) with ([c] ++ d :: rest).
  constructor; now apply Matches_Plus_class.
Qed.

Lemma ValidateKmsKey_key_id id :
  key_id_shape id = true -> ValidateKmsKey id = true.
Proof.
  intros H. unfold ValidateKmsKey, anchored.
  replace (MatchString {| bol := true; body := kmsKeyIdPattern; eol := true |} id)
    with true; [reflexivity|].
  symmetry. apply MatchString_anchored. now apply kmsKeyIdPattern_matches.
Qed.

Lemma ValidateKmsKey_arn_key (prefix id : string) :
  accepts kmsArnStartPattern (list_ascii_of_string prefix) = true ->
  key_id_shape id = true ->
  ValidateKmsKey (prefix +:+ "key/" +:+ id) = true.
Proof.
  intros Hp Hid. unfold ValidateKmsKey, anchored.
  replace (MatchString
             {| bol := true;
                body := Cat kmsArnStartPattern (Cat (Lit "key/") kmsKeyIdPattern);
                eol := true |} (prefix +:+ "key/" +:+ id)) with true.
  - repeat match goal with |- context [if ?b then _ else _] => destruct b end;
      reflexivity.
  - symmetry. apply MatchString_anchored.
    rewrite !list_ascii_of_string_app.
    constructor; [now apply accepts_sound|].
    constructor; [apply accepts_sound; vm_compute; reflexivity|].
    now apply kmsKeyIdPattern_matches.
Qed.

(** C7. [ValidateKmsKey] is true for the alias ["alias/my-key"], for every
    bare key id of 36 characters (a hexadecimal digit, then hexadecimal
    digits and dashes), and for the full ARN
    [arn:aws:kms:us-east-1:123456789012:key/<id>] of such an id; it is false
    for ["not-a-key"]. *)
Theorem ValidateKmsKey_documented_forms (id : string) :
  String.length id = 36 ->
  key_id_shape id = true ->
  ValidateKmsKey "alias/my-key" = true
  /\ ValidateKmsKey id = true
  /\ ValidateKmsKey ("arn:aws:kms:us-east-1:123456789012:key/" +:+ id) = true
  /\ ValidateKmsKey "not-a-key" = false.
Proof.
  intros _ Hid. split; [|split; [|split]].
  - vm_compute. reflexivity.
  - now apply ValidateKmsKey_key_id.
  - apply (ValidateKmsKey_arn_key "arn:aws:kms:us-east-1:123456789012:" id);
      [vm_compute; reflexivity | assumption].
  - vm_compute. reflexivity.
Qed.

Lemma ValidateKmsKey_documented_forms_witness :
  (String.length "1234abcd-12ab-34cd-56ef-1234567890ab" = 36
   /\ key_id_shape "1234abcd-12ab-34cd-56ef-1234567890ab" = true)
  /\ ValidateKmsKey "alias/my-key" = true
  /\ ValidateKmsKey "1234abcd-12ab-34cd-56ef-1234567890ab" = true
  /\ ValidateKmsKey
       "arn:aws:kms:us-east-1:123456789012:key/1234abcd-12ab-34cd-56ef-1234567890ab"
     = true
  /\ ValidateKmsKey "not-a-key" = false.
Proof.
  split.
  - split; vm_compute; reflexivity.
  - apply (ValidateKmsKey_documented_forms "1234abcd-12ab-34cd-56ef-1234567890ab");
      vm_compute; reflexivity.
Defined.

End KmsKeyFacts.

(** ** [prepareRegions] *)

Section RegionFacts.
Import Go AmiConfig.

Lemma filter_filter_comm {A} (p q : A -> bool) l :
  List.filter p (List.filter q l) = List.filter q (List.filter p l).
Proof.
  induction l as [|x l IH]; simpl; [reflexivity|].
  destruct (q x) eqn:Hq, (p x) eqn:Hp; simpl; rewrite ?Hq, ?Hp, IH; reflexivity.
Qed.

Lemma filter_absorb {A} (p q : A -> bool) l :
  (forall x, p x = true -> q x = true) ->
  List.filter p (List.filter q l) = List.filter p l.
Proof.
  intros H. induction l as [|x l IH]; simpl; [reflexivity|].
  destruct (q x) eqn:Hq; simpl.
  - now rewrite IH.
  - destruct (p x) eqn:Hp; [|assumption].
    apply H in Hp. congruence.
Qed.

Lemma unseen_insert x seen y :
  unseen ({[x]} ∪ seen) y = unseen seen y && negb (String.eqb x y).
Proof.
  unfold unseen. destruct (String.eqb_spec x y) as [->|Hne].
  - rewrite bool_decide_eq_true_2 by set_solver. now rewrite andb_false_r.
  - rewrite andb_true_r. f_equal. apply bool_decide_ext. set_solver.
Qed.

Lemma filter_andb {A} (p q : A -> bool) l :
  List.filter (fun x => p x && q x) l = List.filter p (List.filter q l).
Proof.
  induction l as [|x l IH]; simpl; [reflexivity|].
  destruct (q x); simpl.
  - rewrite andb_true_r. destruct (p x); now rewrite IH.
  - now rewrite andb_false_r.
Qed.

Lemma missing_key_errs_app kms (l1 l2 : list string) :
  missing_key_errs kms (l1 ++ l2)
  = missing_key_errs kms l1 ++ missing_key_errs kms l2.
Proof.
  unfold missing_key_errs. destruct (Nat.ltb 0 (size kms)); [|reflexivity].
  apply flat_map_app.
Qed.

(** The loop, in terms of the regions still to come that were not seen. *)
Lemma prepareRegions_loop_spec kms ac :
  forall todo seen regions errs,
    prepareRegions_loop kms ac todo seen regions errs
    = (regions ++ List.filter (not_session_region ac)
                    (List.filter (unseen seen) (first_occurrences todo)),
       errs ++ missing_key_errs kms
                 (List.filter (unseen seen) (first_occurrences todo))).
Proof.
  induction todo as [|x todo IH]; intros seen regions errs; simpl.
  - unfold missing_key_errs. destruct (Nat.ltb 0 (size kms)); simpl;
      now rewrite !app_nil_r.
  - assert (Hu : unseen seen x = negb (bool_decide (x ∈ seen))) by reflexivity.
    destruct (bool_decide (x ∈ seen)) eqn:Hx; rewrite !Hu; simpl.
    + rewrite IH. apply bool_decide_eq_true in Hx.
      rewrite (filter_absorb (unseen seen)); [reflexivity|].
      intros y Hy. apply negb_true_iff. apply String.eqb_neq. intros ->.
      unfold unseen in Hy. rewrite bool_decide_eq_true_2 in Hy by assumption.
      discriminate.
    + assert (Hrest :
        List.filter (unseen ({[x]} ∪ seen)) (first_occurrences todo)
        = List.filter (unseen seen)
            (List.filter (fun y => negb (String.eqb x y)) (first_occurrences todo))).
      { rewrite <- filter_andb. apply filter_ext. intros y. apply unseen_insert. }
      match goal with
      | |- context [missing_key_errs kms (x :: ?l)] =>
          change (missing_key_errs kms (x :: l))
            with (missing_key_errs kms ([x] ++ l))
      end.
      rewrite missing_key_errs_app, app_assoc, <- Hrest.
      assert (Herr :
        (if Nat.ltb 0 (size kms)
         then match kms !! x with
              | Some _ => errs
              | None => errs ++ [err_region_not_in_kms x]
              end
         else errs) = errs ++ missing_key_errs kms [x]).
      { unfold missing_key_errs. destruct (Nat.ltb 0 (size kms)); simpl;
          [|now rewrite app_nil_r].
        destruct (kms !! x); simpl; now rewrite ?app_nil_r. }
      rewrite Herr. clear Herr.
      destruct ac as [a|]; simpl.
      * destruct (String.eqb x (RawRegion a)); simpl; rewrite IH.
        -- reflexivity.
        -- now rewrite <- app_assoc.
      * rewrite IH. now rewrite <- app_assoc.
Qed.

Lemma prepareRegions_spec c ac :
  AMIRegions (fst (prepareRegions c ac))
  = List.filter (not_session_region ac) (first_occurrences (AMIRegions c))
  /\ snd (prepareRegions c ac)
     = missing_key_errs (AMIRegionKMSKeyIDs c) (first_occurrences (AMIRegions c)).
Proof.
  unfold prepareRegions. destruct (AMIRegions c) as [|r rs] eqn:E.
  - simpl. rewrite E. unfold missing_key_errs.
    destruct (Nat.ltb 0 (size (AMIRegionKMSKeyIDs c))); auto.
  - cbn [length Nat.ltb Nat.leb]. rewrite prepareRegions_loop_spec.
    cbn [fst snd app AMIRegions set_AMIRegions].
    assert (H : forall l, List.filter (unseen ∅) l = l).
    { intros l. induction l as [|y l IH]; simpl; [reflexivity|].
      unfold unseen at 1. rewrite bool_decide_eq_false_2 by set_solver.
      simpl. now rewrite IH. }
    now rewrite H.
Qed.

Lemma first_occurrences_In l x : In x (first_occurrences l) <-> In x l.
Proof.
  induction l as [|y l IH]; simpl; [tauto|].
  rewrite filter_In, IH. split.
  - intros [H|[H _]]; auto.
  - intros [H|H]; auto.
    destruct (String.eqb_spec y x) as [->|Hne]; auto.
Qed.

Lemma first_occurrences_NoDup l : List.NoDup (first_occurrences l).
Proof.
  induction l as [|y l IH]; simpl; constructor.
  - rewrite filter_In. intros [_ H]. now rewrite String.eqb_refl in H.
  - now apply List.NoDup_filter.
Qed.

End RegionFacts.

(** ** [AMIConfig.Prepare] *)

Section PrepareFacts.
Import Go AmiConfig.
Variable rfc : string -> bool.

Lemma snd_if_nonempty {A} (c : A) (errs : list error) :
  snd (if Nat.ltb 0 (length errs) then (c, errs) else (c, [])) = errs.
Proof. destruct errs; reflexivity. Qed.

Lemma prepareRegions_frame c ac :
  exists regions, fst (prepareRegions c ac) = set_AMIRegions regions c.
Proof.
  unfold prepareRegions. destruct (Nat.ltb 0 (length (AMIRegions c))).
  - destruct (prepareRegions_loop _ _ _ _ _ _) as [regions errs].
    now exists regions.
  - exists (AMIRegions c). now destruct c.
Qed.

(** The slice [Prepare] returns, check by check, on the configuration it
    was given. *)
Lemma Prepare_errs c ac :
  snd (Prepare rfc c ac)
  = when (String.eqb (AMIName c) "") err_name_missing
    ++ (if Nat.ltb 0 (size (AMIRegionKMSKeyIDs c)) then
          flat_map (fun kv => when (negb (stringInSlice (AMIRegions c) (fst kv)))
                                   (err_kms_region_not_in_regions (fst kv)))
                   (map_to_list (AMIRegionKMSKeyIDs c))
        else [])
    ++ missing_key_errs (AMIRegionKMSKeyIDs c) (first_occurrences (AMIRegions c))
    ++ (if Nat.ltb 0 (length (AMIUsers c)) || Nat.ltb 0 (length (AMIOrgArns c))
           || Nat.ltb 0 (length (AMIOuArns c))
        then when (Nat.eqb (String.length (AMIKmsKeyId c)) 0
                   && Nat.eqb (size (AMIRegionKMSKeyIDs c)) 0
                   && Trilean_True (AMIEncryptBootVolume c)) err_share_default_key
             ++ empty_key_errs (AMIRegionKMSKeyIDs c) err_share_default_key_regions
        else [])
    ++ when (Nat.ltb 0 (length (kmsKeys_of c))
             && negb (Trilean_True (AMIEncryptBootVolume c))) err_encrypt_boot
    ++ flat_map (fun kmsKey => when (negb (ValidateKmsKey kmsKey))
                                    (err_invalid_kms kmsKey)) (kmsKeys_of c)
    ++ (if Nat.ltb 0 (length (SnapshotUsers c))
        then when (Nat.eqb (String.length (AMIKmsKeyId c)) 0
                   && Nat.eqb (size (AMIRegionKMSKeyIDs c)) 0
                   && Trilean_True (AMIEncryptBootVolume c)) err_snapshot_default_key
             ++ empty_key_errs (AMIRegionKMSKeyIDs c) err_snapshot_default_key_regions
        else [])
    ++ when (Nat.ltb (String.length (AMIName c)) 3
             || Nat.ltb 128 (String.length (AMIName c))) err_name_length
    ++ when (negb (String.eqb (AMIName c) (templateCleanAMIName (AMIName c))))
            err_name_chars
    ++ when (negb (String.eqb (AMIIMDSSupport c) "")
             && negb (String.eqb (AMIIMDSSupport c) ImdsSupportValuesV20)) err_imds
    ++ (if negb (String.eqb (DeprecationTime c) "")
        then when (negb (rfc (DeprecationTime c)))
                  (err_deprecate_at (DeprecationTime c))
        else []).
Proof.
  unfold Prepare, CopyOn.
  match goal with
  | |- context [prepareRegions ?c1 ac] =>
      pose proof (prepareRegions_spec c1 ac) as [_ He];
      destruct (prepareRegions_frame c1 ac) as [regions Hc];
      destruct (prepareRegions c1 ac) as [c' e]
  end.
  simpl in He, Hc. subst c' e.
  rewrite snd_if_nonempty. unfold kmsKeys_of.
  cbn [AMIName AMIUsers AMIOrgArns AMIOuArns AMIRegions AMITags AMITag
       AMIEncryptBootVolume AMIKmsKeyId AMIRegionKMSKeyIDs AMIIMDSSupport
       DeprecationTime SnapshotTags SnapshotTag SnapshotUsers
       DeregistrationProtection set_AMIRegions set_AMITags set_SnapshotTags
       set_DeregistrationProtection app].
  repeat rewrite <- app_assoc. reflexivity.
Qed.

Lemma In_when b (x e : error) : In e (when b x) <-> b = true /\ e = x.
Proof.
  unfold when. destruct b; simpl; split.
  - intros [H|[]]; auto.
  - intros [_ H]; auto.
  - intros [].
  - intros [H _]; discriminate.
Qed.

Lemma stringInSlice_In l x : stringInSlice l x = true <-> In x l.
Proof.
  induction l as [|y l IH]; simpl.
  - split; [discriminate|tauto].
  - destruct (String.eqb_spec y x) as [->|Hne].
    + split; auto.
    + rewrite IH. split; [auto|intros [H|H]; [contradiction|assumption]].
Qed.

Lemma size_pos (m : gmap string string) :
  Nat.ltb 0 (size m) = true <-> m <> ∅.
Proof.
  rewrite Nat.ltb_lt. rewrite <- (map_size_empty_iff m). lia.
Qed.

Lemma size_zero (m : gmap string string) :
  Nat.eqb (size m) 0 = true <-> m = ∅.
Proof. rewrite Nat.eqb_eq. apply map_size_empty_iff. Qed.

Lemma In_map_to_list (m : gmap string string) r k :
  In (r, k) (map_to_list m) <-> m !! r = Some k.
Proof. rewrite <- list_elem_of_In. apply elem_of_map_to_list. Qed.

Lemma lookup_nonempty (m : gmap string string) r k :
  m !! r = Some k -> m <> ∅.
Proof. intros H ->. rewrite lookup_empty in H. discriminate. Qed.

Lemma length_zero_string s : Nat.eqb (String.length s) 0 = true <-> s = "".
Proof. destruct s; simpl; split; auto; discriminate. Qed.

Lemma length_pos_string s : Nat.ltb 0 (String.length s) = true <-> s <> "".
Proof. destruct s; simpl; split; auto; try discriminate; congruence. Qed.

Lemma length_pos_list {A} (l : list A) : Nat.ltb 0 (length l) = true <-> l <> [].
Proof. destruct l; simpl; split; auto; try discriminate; congruence. Qed.

Lemma In_missing_key_errs kms regions e :
  In e (missing_key_errs kms regions)
  <-> kms <> ∅ /\ exists r, In r regions /\ kms !! r = None
                            /\ e = err_region_not_in_kms r.
Proof.
  unfold missing_key_errs. destruct (Nat.ltb 0 (size kms)) eqn:Hs.
  - apply size_pos in Hs. rewrite in_flat_map. split.
    + intros (r & Hr & He). split; [assumption|]. exists r.
      destruct (kms !! r); simpl in He; [contradiction|].
      destruct He as [<-|[]]; auto.
    + intros (_ & r & Hr & Hk & ->). exists r. split; [assumption|].
      rewrite Hk. now left.
  - split; [intros []|]. intros (Hne & _).
    apply size_pos in Hne. congruence.
Qed.

Lemma In_empty_key_errs kms e0 e :
  In e (empty_key_errs kms e0) <-> e = e0 /\ exists r, kms !! r = Some "".
Proof.
  unfold empty_key_errs. destruct (Nat.ltb 0 (size kms)) eqn:Hs.
  - rewrite in_flat_map. split.
    + intros ([r k] & Hrk & He). apply In_when in He as [Hk ->].
      simpl in Hk. apply length_zero_string in Hk. subst k.
      apply In_map_to_list in Hrk. eauto.
    + intros (-> & r & Hr). exists (r, "").
      split; [now apply In_map_to_list|]. now left.
  - split; [intros []|]. intros (_ & r & Hr).
    apply lookup_nonempty, size_pos in Hr. congruence.
Qed.

Lemma In_kmsKeys_of c k :
  In k (kmsKeys_of c)
  <-> (k = AMIKmsKeyId c /\ k <> "")
      \/ (exists r, AMIRegionKMSKeyIDs c !! r = Some k /\ k <> "").
Proof.
  unfold kmsKeys_of. rewrite in_app_iff.
  apply Morphisms_Prop.or_iff_morphism.
  - destruct (Nat.ltb 0 (String.length (AMIKmsKeyId c))) eqn:Hl.
    + apply length_pos_string in Hl. simpl. split.
      * intros [<-|[]]; auto.
      * intros [-> _]; auto.
    + split; [intros []|]. intros [-> Hne].
      apply length_pos_string in Hne. congruence.
  - destruct (Nat.ltb 0 (size (AMIRegionKMSKeyIDs c))) eqn:Hs.
    + rewrite in_flat_map. split.
      * intros ([r k'] & Hrk & Hk). simpl in Hk.
        destruct (Nat.ltb 0 (String.length k')) eqn:Hl; [|contradiction].
        destruct Hk as [<-|[]]. apply length_pos_string in Hl.
        apply In_map_to_list in Hrk. eauto.
      * intros (r & Hr & Hne). exists (r, k).
        split; [now apply In_map_to_list|]. simpl.
        apply length_pos_string in Hne. rewrite Hne. now left.
    + split; [intros []|]. intros (r & Hr & _).
      apply lookup_nonempty, size_pos in Hr. congruence.
Qed.

Lemma kmsKeys_of_nonempty c : kmsKeys_of c <> [] <-> names_key c.
Proof.
  unfold names_key. split.
  - intros H. destruct (kmsKeys_of c) as [|k l] eqn:E; [contradiction|].
    assert (Hk : In k (kmsKeys_of c)) by (rewrite E; now left).
    apply In_kmsKeys_of in Hk as [[-> Hne]|(r & Hr & Hne)]; eauto.
  - intros H Hnil.
    assert (Hk : exists k, In k (kmsKeys_of c)).
    { destruct H as [H|(r & k & Hr & Hne)].
      - exists (AMIKmsKeyId c). apply In_kmsKeys_of. auto.
      - exists k. apply In_kmsKeys_of. eauto. }
    destruct Hk as [k Hk]. rewrite Hnil in Hk. destruct Hk.
Qed.

Lemma Trilean_True_iff t : Trilean_True t = true <-> t = TriTrue.
Proof. destruct t; simpl; split; auto; discriminate. Qed.

Lemma shares_ami_iff c :
  Nat.ltb 0 (length (AMIUsers c)) || Nat.ltb 0 (length (AMIOrgArns c))
  || Nat.ltb 0 (length (AMIOuArns c)) = true <-> shares_ami c.
Proof.
  unfold shares_ami. rewrite !orb_true_iff, !length_pos_list. tauto.
Qed.

Lemma default_key_iff c :
  Nat.eqb (String.length (AMIKmsKeyId c)) 0
  && Nat.eqb (size (AMIRegionKMSKeyIDs c)) 0
  && Trilean_True (AMIEncryptBootVolume c) = true <-> default_key c.
Proof.
  unfold default_key.
  rewrite !andb_true_iff, length_zero_string, size_zero, Trilean_True_iff.
  tauto.
Qed.


(** [Prepare] reports exactly the failing checks. *)
Lemma Prepare_reports c ac e :
  In e (snd (Prepare rfc c ac)) <-> reported rfc c e.
Proof.
  rewrite Prepare_errs, !in_app_iff. split.
  - intros [H|[H|[H|[H|[H|[H|[H|[H|[H|[H|H]]]]]]]]]].
    + apply In_when in H as [H ->]. apply String.eqb_eq in H.
      now constructor.
    + destruct (Nat.ltb 0 (size (AMIRegionKMSKeyIDs c))); [|destruct H].
      apply in_flat_map in H as ([r k] & Hrk & H).
      apply In_when in H as [H ->]. simpl in *.
      apply In_map_to_list in Hrk. apply negb_true_iff in H.
      apply (R_key_region_unlisted _ _ r k); [assumption|].
      intros Hin. apply stringInSlice_In in Hin. congruence.
    + apply In_missing_key_errs in H as (Hne & r & Hr & Hk & ->).
      rewrite first_occurrences_In in Hr. now apply R_region_without_key.
    + destruct (_ || _ || _) eqn:Hs in H; [|destruct H].
      apply shares_ami_iff in Hs. apply in_app_iff in H as [H|H].
      * apply In_when in H as [H ->]. apply default_key_iff in H.
        now constructor.
      * apply In_empty_key_errs in H as (-> & r & Hr).
        now apply (R_share_region_default_key _ _ r).
    + apply In_when in H as [H ->]. apply andb_true_iff in H as [H1 H2].
      apply length_pos_list, kmsKeys_of_nonempty in H1.
      apply negb_true_iff in H2. constructor; [assumption|].
      intros Ht. apply Trilean_True_iff in Ht. congruence.
    + apply in_flat_map in H as (k & Hk & H).
      apply In_when in H as [H ->]. apply negb_true_iff in H.
      apply In_kmsKeys_of in Hk as [[-> Hne]|(r & Hr & Hne)].
      * now constructor.
      * now apply (R_invalid_region_key _ _ r k).
    + destruct (Nat.ltb 0 (length (SnapshotUsers c))) eqn:Hs; [|destruct H].
      apply length_pos_list in Hs. apply in_app_iff in H as [H|H].
      * apply In_when in H as [H ->]. apply default_key_iff in H.
        now constructor.
      * apply In_empty_key_errs in H as (-> & r & Hr).
        now apply (R_snapshot_region_default_key _ _ r).
    + apply In_when in H as [H ->]. apply orb_true_iff in H.
      rewrite !Nat.ltb_lt in H. now constructor.
    + apply In_when in H as [H ->]. apply negb_true_iff in H.
      apply String.eqb_neq in H. constructor. congruence.
    + apply In_when in H as [H ->]. apply andb_true_iff in H as [H1 H2].
      apply negb_true_iff, String.eqb_neq in H1.
      apply negb_true_iff, String.eqb_neq in H2. now constructor.
    + destruct (negb (String.eqb (DeprecationTime c) "")) eqn:Hd; [|destruct H].
      apply negb_true_iff, String.eqb_neq in Hd.
      apply In_when in H as [H ->]. apply negb_true_iff in H.
      now constructor.
  - intros H. destruct H as [H|r k Hk Hr|r Hne Hr Hk|Hs Hd|r Hs Hr|Hk Ht
                            |Hne Hv|r k Hr Hne Hv|Hs Hd|r Hs Hr|H|H|H1 H2|Hd Hp].
    + left. apply In_when. split; [|reflexivity]. now apply String.eqb_eq.
    + do 1 right; left.
      pose proof (lookup_nonempty _ _ _ Hk) as Hs. apply size_pos in Hs.
      rewrite Hs. apply in_flat_map. exists (r, k).
      split; [now apply In_map_to_list|]. apply In_when.
      split; [|reflexivity]. apply negb_true_iff. simpl.
      destruct (stringInSlice (AMIRegions c) r) eqn:E; [|reflexivity].
      apply stringInSlice_In in E. contradiction.
    + do 2 right; left. apply In_missing_key_errs. split; [assumption|].
      exists r. rewrite first_occurrences_In. auto.
    + do 3 right; left. apply shares_ami_iff in Hs. rewrite Hs.
      apply in_app_iff. left. apply In_when. split; [|reflexivity].
      now apply default_key_iff.
    + do 3 right; left. apply shares_ami_iff in Hs. rewrite Hs.
      apply in_app_iff. right. apply In_empty_key_errs. eauto.
    + do 4 right; left. apply In_when. split; [|reflexivity].
      apply andb_true_iff. split.
      * now apply length_pos_list, kmsKeys_of_nonempty.
      * apply negb_true_iff. destruct (AMIEncryptBootVolume c); simpl; congruence.
    + do 5 right; left. apply in_flat_map. exists (AMIKmsKeyId c). split.
      * apply In_kmsKeys_of. auto.
      * apply In_when. rewrite Hv. auto.
    + do 5 right; left. apply in_flat_map. exists k. split.
      * apply In_kmsKeys_of. eauto.
      * apply In_when. rewrite Hv. auto.
    + do 6 right; left. apply length_pos_list in Hs. rewrite Hs.
      apply in_app_iff. left. apply In_when. split; [|reflexivity].
      now apply default_key_iff.
    + do 6 right; left. apply length_pos_list in Hs. rewrite Hs.
      apply in_app_iff. right. apply In_empty_key_errs. eauto.
    + do 7 right; left. apply In_when. split; [|reflexivity].
      apply orb_true_iff. now rewrite !Nat.ltb_lt.
    + do 8 right; left. apply In_when. split; [|reflexivity].
      apply negb_true_iff, String.eqb_neq. congruence.
    + do 9 right; left. apply In_when. split; [|reflexivity].
      apply andb_true_iff. split; now apply negb_true_iff, String.eqb_neq.
    + do 10 right.
      apply String.eqb_neq in Hd. rewrite Hd. simpl.
      apply In_when. rewrite Hp. auto.
Qed.


Lemma no_errors_iff (l : list error) : l = [] <-> forall e, ~ In e l.
Proof.
  split; [intros -> e []|]. destruct l as [|x l]; [reflexivity|].
  intros H. exfalso. apply (H x). now left.
Qed.

(** [Prepare] returns no error exactly when every check passes. *)
Lemma Prepare_none_iff c ac :
  snd (Prepare rfc c ac) = [] <-> checks_pass rfc c.
Proof.
  rewrite no_errors_iff. split.
  - intros H.
    assert (Hno : forall e, ~ reported rfc c e).
    { intros e He. apply (H e). now apply Prepare_reports. }
    clear H. constructor.
    + intros E. apply (Hno _ (R_name_missing _ _ E)).
    + intros r k Hk. destruct (in_dec string_dec r (AMIRegions c)); [assumption|].
      exfalso. apply (Hno _ (R_key_region_unlisted _ _ r k Hk n)).
    + intros Hne r Hr. destruct (AMIRegionKMSKeyIDs c !! r) eqn:E; [eauto|].
      exfalso. apply (Hno _ (R_region_without_key _ _ r Hne Hr E)).
    + intros Hs Hd. apply (Hno _ (R_share_default_key _ _ Hs Hd)).
    + intros Hs r k Hk ->.
      apply (Hno _ (R_share_region_default_key _ _ r Hs Hk)).
    + intros Hk. destruct (AMIEncryptBootVolume c) eqn:E; [|reflexivity|];
        exfalso; apply (Hno err_encrypt_boot); constructor; auto;
        rewrite E; discriminate.
    + intros Hne. destruct (ValidateKmsKey (AMIKmsKeyId c)) eqn:E; [reflexivity|].
      exfalso. apply (Hno _ (R_invalid_key _ _ Hne E)).
    + intros r k Hk Hne. destruct (ValidateKmsKey k) eqn:E; [reflexivity|].
      exfalso. apply (Hno _ (R_invalid_region_key _ _ r k Hk Hne E)).
    + intros Hs Hd. apply (Hno _ (R_snapshot_default_key _ _ Hs Hd)).
    + intros Hs r k Hk ->.
      apply (Hno _ (R_snapshot_region_default_key _ _ r Hs Hk)).
    + destruct (le_lt_dec 3 (String.length (AMIName c))) as [H3|H3];
        [destruct (le_lt_dec (String.length (AMIName c)) 128) as [H128|H128]|].
      * lia.
      * exfalso. apply (Hno err_name_length). constructor. now right.
      * exfalso. apply (Hno err_name_length). constructor. now left.
    + destruct (string_dec (templateCleanAMIName (AMIName c)) (AMIName c));
        [assumption|].
      exfalso. apply (Hno _ (R_name_chars _ _ n)).
    + destruct (string_dec (AMIIMDSSupport c) ""); [now left|].
      destruct (string_dec (AMIIMDSSupport c) ImdsSupportValuesV20); [now right|].
      exfalso. apply (Hno _ (R_imds _ _ n n0)).
    + intros Hd. destruct (rfc (DeprecationTime c)) eqn:E; [reflexivity|].
      exfalso. apply (Hno _ (R_deprecate_at _ _ Hd E)).
  - intros [] e He. apply Prepare_reports in He.
    destruct He as [H|r k Hk Hr|r Hne Hr Hk|Hs Hd|r Hs Hr|Hk Ht
                   |Hne Hv|r k Hr Hne Hv|Hs Hd|r Hs Hr|H|H|H1 H2|Hd Hp].
    + contradiction.
    + apply Hr. eauto.
    + destruct (regions_have_keys0 Hne r Hr) as [k Hk']. congruence.
    + now apply share_not_default0.
    + now apply (share_region_keys0 Hs r "").
    + auto.
    + rewrite kms_key_valid0 in Hv by assumption. discriminate.
    + rewrite (region_keys_valid0 r k) in Hv by assumption. discriminate.
    + now apply snapshot_not_default0.
    + now apply (snapshot_region_keys0 Hs r "").
    + lia.
    + contradiction.
    + destruct imds_value0; contradiction.
    + rewrite deprecation_time0 in Hp by assumption. discriminate.
Qed.


(** ** The AMI name *)

Lemma templateCleanAMIName_fixed s :
  templateCleanAMIName s = s
  <-> forallb allowedByte (list_ascii_of_string s) = true.
Proof.
  induction s as [|ch s IH]; simpl; [tauto|].
  rewrite andb_true_iff, <- IH. destruct (allowedByte ch) eqn:Hc.
  - split; [intros H; injection H; auto | intros [_ ->]; reflexivity].
  - split; [|intros [H _]; discriminate].
    intros H. injection H as Hd _. subst ch. discriminate.
Qed.

Lemma hash_not_allowed s :
  In "#"%char (list_ascii_of_string s) ->
  forallb allowedByte (list_ascii_of_string s) = false.
Proof.
  induction s as [|ch s IH]; simpl; [tauto|].
  intros [->|H]; [reflexivity|]. rewrite IH by assumption. apply andb_false_r.
Qed.

Lemma valid_ami_name_checks name :
  valid_ami_name name = true ->
  3 <= String.length name <= 128 /\ templateCleanAMIName name = name.
Proof.
  unfold valid_ami_name. rewrite !andb_true_iff, !Nat.leb_le.
  intros [[H3 H128] Hc]. split; [lia|]. now apply templateCleanAMIName_fixed.
Qed.


Lemma valid_name_not_reported c e :
  valid_ami_name (AMIName c) = true ->
  reported rfc c e ->
  e <> err_name_missing /\ e <> err_name_length /\ e <> err_name_chars.
Proof.
  intros Hv Hr. apply valid_ami_name_checks in Hv as [Hlen Hclean].
  assert (Hne : AMIName c <> "").
  { intros E. rewrite E in Hlen. simpl in Hlen. lia. }
  destruct Hr; try contradiction; try lia;
    repeat split; intros E; vm_compute in E; discriminate.
Qed.

(** C6. The name validation of [AMIConfig.Prepare]: the name ["ab"], every
    name of 129 characters and every name holding ["#"] are reported; a name
    of 3 to 128 characters, all of them alphanumerics or one of
    [()[] ./-'@_], draws none of the three name errors, and with nothing
    else configured [Prepare] returns no error at all; ["My AMI (v1.0) [test]"]
    is such a name. *)
Theorem Prepare_name_validation (c : AMIConfig) (ac : option AccessConfig) :
  (AMIName c = "ab" -> In err_name_length (snd (Prepare rfc c ac)))
  /\ (String.length (AMIName c) = 129 ->
      In err_name_length (snd (Prepare rfc c ac)))
  /\ (In "#"%char (list_ascii_of_string (AMIName c)) ->
      In err_name_chars (snd (Prepare rfc c ac)))
  /\ (valid_ami_name (AMIName c) = true ->
      ~ In err_name_missing (snd (Prepare rfc c ac))
      /\ ~ In err_name_length (snd (Prepare rfc c ac))
      /\ ~ In err_name_chars (snd (Prepare rfc c ac)))
  /\ (forall name, valid_ami_name name = true ->
                   snd (Prepare rfc (set_AMIName name zero) ac) = [])
  /\ valid_ami_name "My AMI (v1.0) [test]" = true
  /\ snd (Prepare rfc (set_AMIName "My AMI (v1.0) [test]" zero) ac) = [].
Proof.
  assert (Hzero : forall name, valid_ami_name name = true ->
                    snd (Prepare rfc (set_AMIName name zero) ac) = []).
  { intros name Hv. apply no_errors_iff. intros e He.
    apply Prepare_reports in He.
    apply valid_ami_name_checks in Hv as [Hlen Hclean].
    destruct He; unfold shares_ami, names_key in *; simpl in *;
      try solve [contradiction | discriminate | lia | tauto
                 | rewrite lookup_empty in *; discriminate
                 | match goal with H : _ \/ _ |- _ =>
                     destruct H as [H|(? & ? & H & _)];
                     [now apply H | rewrite lookup_empty in H; discriminate] end].
    subst name. simpl in Hlen. lia. }
  split; [|split; [|split; [|split; [|split; [|split]]]]].
  - intros E. apply Prepare_reports. constructor. rewrite E. simpl. lia.
  - intros E. apply Prepare_reports. constructor. lia.
  - intros H. apply Prepare_reports. constructor. intros E.
    apply templateCleanAMIName_fixed in E.
    rewrite hash_not_allowed in E by assumption. discriminate.
  - intros Hv.
    repeat split; intros H; apply Prepare_reports in H;
      apply (valid_name_not_reported _ _ Hv) in H; tauto.
  - exact Hzero.
  - vm_compute. reflexivity.
  - apply Hzero. vm_compute. reflexivity.
Qed.

(** C9. [prepareRegions] leaves in [AMIRegions] the regions of [ami_regions]
    other than the access configuration's [RawRegion], each once, in the
    order of their first occurrence; the errors it returns do not depend on
    the access configuration, so dropping adds none, and there is none at
    all when [region_kms_key_ids] is empty.  A region of
    [region_kms_key_ids] that [ami_regions] lacks is reported by [Prepare],
    and so is, when [region_kms_key_ids] is not empty, a region of
    [ami_regions] it has no key for. *)
Theorem prepareRegions_drops_session_region (c : AMIConfig)
  (ac : option AccessConfig) :
  AMIRegions (fst (prepareRegions c ac))
  = List.filter (not_session_region ac) (first_occurrences (AMIRegions c))
  /\ List.NoDup (AMIRegions (fst (prepareRegions c ac)))
  /\ (forall r, In r (AMIRegions (fst (prepareRegions c ac)))
                <-> In r (AMIRegions c) /\ not_session_region ac r = true)
  /\ (forall a, ac = Some a ->
                ~ In (RawRegion a) (AMIRegions (fst (prepareRegions c ac))))
  /\ snd (prepareRegions c ac) = snd (prepareRegions c None)
  /\ (AMIRegionKMSKeyIDs c = ∅ -> snd (prepareRegions c ac) = [])
  /\ (forall r k, AMIRegionKMSKeyIDs c !! r = Some k -> ~ In r (AMIRegions c) ->
                  In (err_kms_region_not_in_regions r) (snd (Prepare rfc c ac)))
  /\ (forall r, AMIRegionKMSKeyIDs c <> ∅ -> In r (AMIRegions c) ->
                AMIRegionKMSKeyIDs c !! r = None ->
                In (err_region_not_in_kms r) (snd (prepareRegions c ac))
                /\ In (err_region_not_in_kms r) (snd (Prepare rfc c ac))).
Proof.
  destruct (prepareRegions_spec c ac) as [Hr He].
  destruct (prepareRegions_spec c None) as [_ He'].
  rewrite Hr, He.
  split; [reflexivity|]. split; [|split; [|split; [|split; [|split; [|split]]]]].
  - apply List.NoDup_filter, first_occurrences_NoDup.
  - intros r. now rewrite filter_In, first_occurrences_In.
  - intros a -> H. apply filter_In in H as [_ H]. simpl in H.
    now rewrite String.eqb_refl in H.
  - now rewrite He'.
  - intros E. unfold missing_key_errs. rewrite E. reflexivity.
  - intros r k Hk Hn. apply Prepare_reports.
    now apply (R_key_region_unlisted _ _ r k).
  - intros r Hne Hin Hk. split.
    + apply In_missing_key_errs. split; [assumption|]. exists r.
      now rewrite first_occurrences_In.
    + apply Prepare_reports. now apply R_region_without_key.
Qed.

End PrepareFacts.

(** ** [LogEnvOverrideWarnings] *)

Section PollingFacts.
Import Polling.

Lemma LogEnvOverrideWarnings_receiver w env :
  fst (LogEnvOverrideWarnings w env) = w.
Proof. reflexivity. Qed.

Lemma LogEnvOverrideWarnings_count w env :
  length (snd (LogEnvOverrideWarnings w env))
  = if timeoutSecondsIsSet env then 1
    else if maxAttemptsIsSet w env || pollDelayIsSet w env then 0 else 1.
Proof.
  unfold LogEnvOverrideWarnings, timeoutSecondsIsSet, maxAttemptsIsSet,
    pollDelayIsSet; simpl.
  destruct (nonempty (Getenv env "AWS_MAX_ATTEMPTS")),
    (nonempty (Getenv env "AWS_TIMEOUT_SECONDS")),
    (nonempty (Getenv env "AWS_POLL_DELAY_SECONDS")),
    (MaxAttempts w =? 0)%Z, (DelaySeconds w =? 0)%Z; reflexivity.
Qed.

(** C10, as the code has it. For every polling configuration and every
    environment, [LogEnvOverrideWarnings] leaves [MaxAttempts] and
    [DelaySeconds] as they were and logs at most one message: exactly one
    when [AWS_TIMEOUT_SECONDS] is set or when no override is set at all,
    and none when only the attempts or the delay are set. *)
Theorem LogEnvOverrideWarnings_at_most_one (w : AWSPollingConfig)
  (env : gmap string string) :
  MaxAttempts (fst (LogEnvOverrideWarnings w env)) = MaxAttempts w
  /\ DelaySeconds (fst (LogEnvOverrideWarnings w env)) = DelaySeconds w
  /\ length (snd (LogEnvOverrideWarnings w env)) <= 1
  /\ (length (snd (LogEnvOverrideWarnings w env)) = 1
      <-> timeoutSecondsIsSet env = true
          \/ (maxAttemptsIsSet w env = false /\ pollDelayIsSet w env = false)).
Proof.
  rewrite LogEnvOverrideWarnings_receiver, LogEnvOverrideWarnings_count.
  repeat split; auto.
  - destruct (timeoutSecondsIsSet env); [lia|].
    destruct (maxAttemptsIsSet w env || pollDelayIsSet w env); lia.
  - destruct (timeoutSecondsIsSet env); [now left|].
    destruct (maxAttemptsIsSet w env), (pollDelayIsSet w env); simpl;
      intros H; try discriminate; now right.
  - intros [H|[H1 H2]].
    + now rewrite H.
    + rewrite H1, H2. simpl. now destruct (timeoutSecondsIsSet env).
Qed.

(** The claim as first stated asks for exactly one message on every input.
    With [AWS_MAX_ATTEMPTS=10] alone, the function logs nothing. *)
Lemma LogEnvOverrideWarnings_silent_case :
  snd (LogEnvOverrideWarnings {| MaxAttempts := 0; DelaySeconds := 0 |}
         {[ "AWS_MAX_ATTEMPTS" := "10" ]}) = []
  /\ ~ (forall w env, length (snd (LogEnvOverrideWarnings w env)) = 1).
Proof.
  split; [vm_compute; reflexivity|].
  intros H.
  specialize (H {| MaxAttempts := 0; DelaySeconds := 0 |}
                {[ "AWS_MAX_ATTEMPTS" := "10" ]}).
  vm_compute in H. discriminate.
Qed.

End PollingFacts.

(** ** The manual mount step *)

Section MountStepFacts.
Import Go Multistep Chroot.

Variable InterpolateContext : Type.
Variable interpolate_Render :
  string -> InterpolateContext -> manualMountCommandData -> string + error.
Variable filepath_Base : string -> string.
Variable filepath_Abs : string -> string + error.

Local Abbreviation value := (Chroot.value InterpolateContext).
Local Abbreviation Run :=
  (Chroot.Run InterpolateContext interpolate_Render filepath_Base filepath_Abs).
Local Abbreviation CleanupFunc := (Chroot.CleanupFunc InterpolateContext).
Local Abbreviation Cleanup := (Chroot.Cleanup InterpolateContext).

(** The commands started so far. *)
Local Abbreviation commands w := (List.filter is_exec (trace w)).

Lemma commands_emit (e : event) (w : world value) :
  is_exec e = false -> commands (emit e w) = commands w.
Proof.
  intros He. simpl. rewrite List.filter_app. simpl. rewrite He.
  apply app_nil_r.
Qed.

Lemma commands_Put (key : string) (v : value) (w : world value) :
  commands (Put key v w) = commands w.
Proof. reflexivity. Qed.

Lemma GeneratedData_Put_trace gd key data (w w' : world value) :
  GeneratedData_Put InterpolateContext gd key data w = Returns w' ->
  trace w' = trace w.
Proof.
  unfold GeneratedData_Put. destruct gd as [[]|]; simpl; [|discriminate].
  destruct (Get "generated_data" w) as [[]|]; intros H; inversion H; reflexivity.
Qed.

Lemma GeneratedData_Put_frame gd key data (w w' : world value) (k : string) :
  GeneratedData_Put InterpolateContext gd key data w = Returns w' ->
  k <> "generated_data" -> Get k w' = Get k w.
Proof.
  unfold GeneratedData_Put. destruct gd as [[]|]; simpl; [|discriminate].
  intros H Hk.
  destruct (Get "generated_data" w) as [[]|]; inversion H; subst;
    unfold Get, Put; simpl; apply lookup_insert_ne; congruence.
Qed.

Ltac same_commands :=
  repeat first [rewrite commands_Put | rewrite commands_emit by reflexivity];
  reflexivity.

(** [Run] starts no command, however it ends. *)
Lemma Run_starts_no_command (s s' : StepManualMountCommand) (w w' : world value) a :
  Run s w = Returns (a, s', w') -> commands w' = commands w.
Proof.
  unfold Chroot.Run.
  destruct (as_Config _ (Get "config" w)) as [config|]; simpl; [|discriminate].
  destruct (as_string _ (Get "device" w)) as [device|]; simpl; [|discriminate].
  destruct (as_Ui _ (Get "ui" w)) as [[]|]; simpl; [|discriminate].
  destruct (Nat.eqb (String.length (Command s)) 0).
  { intros H; inversion H; subst. same_commands. }
  destruct (interpolate_Render _ _ _) as [path|err].
  2:{ intros H; inversion H; subst. same_commands. }
  destruct (filepath_Abs path) as [abs|err].
  2:{ intros H; inversion H; subst. same_commands. }
  destruct (GeneratedData_Put _ _ _ _ _) as [w1|] eqn:Hg; simpl; [|discriminate].
  intros H; inversion H; subst. simpl.
  rewrite (GeneratedData_Put_trace _ _ _ _ _ Hg). simpl.
  rewrite !List.filter_app. simpl. rewrite !app_nil_r. reflexivity.
Qed.

Lemma length_zero_iff (s : string) : Nat.eqb (String.length s) 0 = true <-> s = "".
Proof. destruct s; simpl; split; congruence. Qed.

(** [CleanupFunc] gives no error and starts no command. *)
Lemma CleanupFunc_nil (s : StepManualMountCommand) (w w' : world value) r :
  CleanupFunc s w = Returns (r, w') ->
  r = None /\ commands w' = commands w /\ bag w' = bag w.
Proof.
  unfold Chroot.CleanupFunc. destruct (String.eqb (mountPath s) "").
  - intros H; inversion H; auto.
  - destruct (as_Ui _ (Get "ui" w)) as [[]|]; simpl; [|discriminate].
    intros H; inversion H; subst. split; [reflexivity|].
    split; [|reflexivity]. apply commands_emit. reflexivity.
Qed.

(** C4. [StepManualMountCommand] starts no external command: the commands
    started are the same after [Run] as before, however [Run] ends.  On a
    bag that holds the configuration, the device and the [Ui]:  with an
    empty command, [Run] gives [ActionContinue], leaves the step and the
    bag as they were, and so publishes neither key;  with a command, the
    step's [GeneratedData] set, a ["generated_data"] entry that is absent
    or a map, and a mount path that renders and is made absolute, [Run]
    gives [ActionContinue] and the bag then has ["mount_path"] (the
    absolute path) and ["mount_device_cleanup"] (the step).  [CleanupFunc]
    never gives an error: whenever it returns, it returns nil, having
    started no command, and it does return when the step has no mount path
    or the bag holds the [Ui]. *)
Theorem Run_publishes_mount_path (s : StepManualMountCommand) (w : world value)
  (config : Config InterpolateContext) (device : string) :
  Get "config" w = Some (VConfig _ config) ->
  Get "device" w = Some (VString _ device) ->
  Get "ui" w = Some (VUi _) ->
  (Command s = "" ->
   exists w',
     Run s w = Returns (ActionContinue, s, w')
     /\ bag w' = bag w
     /\ Get "mount_path" w' = Get "mount_path" w
     /\ Get "mount_device_cleanup" w' = Get "mount_device_cleanup" w)
  /\ (Command s <> "" ->
      GeneratedData s = Some tt ->
      (Get "generated_data" w = None
       \/ exists m, Get "generated_data" w = Some (VGenerated _ m)) ->
      forall path abs : string,
        interpolate_Render (MountPath _ config) (GetContext _ config)
          {| Device := filepath_Base
               (if negb (String.eqb (NVMEDevicePath _ config) "")
                then NVMEDevicePath _ config else device) |} = inl path ->
        filepath_Abs path = inl abs ->
        exists s' w',
          Run s w = Returns (ActionContinue, s', w')
          /\ mountPath s' = abs
          /\ Get "mount_path" w' = Some (VString _ abs)
          /\ Get "mount_device_cleanup" w' = Some (VMountStep _))
  /\ (forall s0 w0 a s1 w1, Run s0 w0 = Returns (a, s1, w1) ->
        commands w1 = commands w0)
  /\ (forall s0 w0 r w1, CleanupFunc s0 w0 = Returns (r, w1) ->
        r = None /\ commands w1 = commands w0)
  /\ (forall s0 w0, mountPath s0 = "" \/ Get "ui" w0 = Some (VUi _) ->
        exists w1, CleanupFunc s0 w0 = Returns (None, w1)).
Proof.
  intros Hc Hd Hu.
  split; [|split; [|split; [|split]]].
  - intros Hcmd. unfold Chroot.Run. rewrite Hc, Hd, Hu, Hcmd. simpl.
    eexists. split; [reflexivity|]. repeat split.
  - intros Hcmd Hgd Hg path abs Hr Ha.
    unfold Chroot.Run. rewrite Hc, Hd, Hu. simpl.
    destruct (Nat.eqb (String.length (Command s)) 0) eqn:Hl.
    { apply length_zero_iff in Hl. contradiction. }
    rewrite Hr, Ha. simpl.
    unfold GeneratedData_Put. rewrite Hgd. simpl.
    assert (Hget : forall e1 e2 e3 e4 v,
               Get "generated_data"
                 (Put "mount_path" v (emit e1 (emit e2 (emit e3 (emit e4
                    (emit (UiSay ("Command is: " +:+ Command s))
                       (emit (UiSay "Running manual mount commands...") w)))))))
               = Get "generated_data" w).
    { intros. unfold Get, Put. simpl. apply lookup_insert_ne. discriminate. }
    rewrite Hget.
    destruct Hg as [Hg|[m Hg]]; rewrite Hg; simpl;
      (eexists; eexists; split; [reflexivity|]; split; [reflexivity|]; split;
       [unfold Get, Put; simpl;
        rewrite lookup_insert_ne by discriminate;
        rewrite lookup_insert_ne by discriminate;
        apply lookup_insert_eq
       |unfold Get, Put; simpl; apply lookup_insert_eq]).
  - intros s0 w0 a s1 w1 H. apply (Run_starts_no_command _ _ _ _ _ H).
  - intros s0 w0 r w1 H. apply CleanupFunc_nil in H. tauto.
  - intros s0 w0 [H|H]; unfold Chroot.CleanupFunc.
    + rewrite H. simpl. eexists; reflexivity.
    + destruct (String.eqb (mountPath s0) ""); [eexists; reflexivity|].
      rewrite H. simpl. eexists; reflexivity.
Qed.

End MountStepFacts.

Lemma Run_publishes_mount_path_witness :
  (exists w',
      Chroot.Run unit Samples.render_device Samples.base_name Samples.abs_path
        Samples.silent_step Samples.chroot_bag
      = Go.Returns (Multistep.ActionContinue, Samples.silent_step, w')
      /\ Multistep.bag w' = Multistep.bag Samples.chroot_bag)
  /\ exists s' w',
       Chroot.Run unit Samples.render_device Samples.base_name Samples.abs_path
         Samples.mount_step Samples.chroot_bag
       = Go.Returns (Multistep.ActionContinue, s', w')
       /\ Chroot.mountPath s' = "/mnt/packer-xvdf"
       /\ Multistep.Get "mount_path" w'
          = Some (Chroot.VString unit "/mnt/packer-xvdf")
       /\ Multistep.Get "mount_device_cleanup" w' = Some (Chroot.VMountStep unit).
Proof.
  split.
  - destruct (proj1 (Run_publishes_mount_path unit Samples.render_device
                       Samples.base_name Samples.abs_path Samples.silent_step
                       Samples.chroot_bag Samples.chroot_config "/dev/xvdf"
                       eq_refl eq_refl eq_refl) eq_refl)
      as (w' & Hrun & Hbag & _).
    exists w'. split; assumption.
  - refine (proj1 (proj2 (Run_publishes_mount_path unit Samples.render_device
                            Samples.base_name Samples.abs_path Samples.mount_step
                            Samples.chroot_bag Samples.chroot_config "/dev/xvdf"
                            eq_refl eq_refl eq_refl))
              _ eq_refl (or_introl eq_refl)
              "/mnt/packer-xvdf" "/mnt/packer-xvdf" eq_refl eq_refl).
    discriminate.
Defined.

Lemma Run_empty_command_publishes_nothing :
  (forall template ictx data, exists path,
      Samples.render_device template ictx data = inl path
      /\ Samples.abs_path path = inl path)
  /\ exists s' w',
       Chroot.Run unit Samples.render_device Samples.base_name Samples.abs_path
         Samples.silent_step Samples.chroot_bag
       = Go.Returns (Multistep.ActionContinue, s', w')
       /\ Multistep.Get "mount_path" w' = None
       /\ Multistep.Get "mount_device_cleanup" w' = None.
Proof.
  split.
  - intros. eexists. split; reflexivity.
  - eexists. eexists. split; [reflexivity|]. split; reflexivity.
Qed.

(** ** [Builder.Run] of the ebsvolume builder and the error in the bag *)

Section BuilderRunFacts.
Import Go Multistep Ebsvolume.

Variable Session : option string + error.
Variable steps : list (Step value).
Variable Artifact_String : Artifact -> string.

Variable InterpolateContext : Type.
Variable interpolate_Render :
  string -> InterpolateContext -> Chroot.manualMountCommandData -> string + error.
Variable filepath_Base : string -> string.
Variable filepath_Abs : string -> string + error.

Local Abbreviation Builder_Run := (Ebsvolume.Builder_Run Session steps Artifact_String).
Local Abbreviation finish := (Ebsvolume.finish Artifact_String).
Local Abbreviation chroot_Run :=
  (Chroot.Run InterpolateContext interpolate_Render filepath_Base filepath_Abs).

(** With a session, [Run] is the runner followed by the reading of the
    bag. *)
Lemma Builder_Run_finish (ctx : Context) (region : string) (state : world value) :
  Session = inl (Some region) ->
  Runner_Run ctx steps (initial_state (Some region)) = Returns state ->
  Builder_Run ctx = finish state.
Proof.
  intros Hs Hr. unfold Ebsvolume.Builder_Run. rewrite Hs. simpl.
  rewrite Hr. reflexivity.
Qed.

Lemma finish_error (state : world value) (e : error) :
  GetOk "error" state = Some (VError e) ->
  finish state = Returns (None, Some e, state).
Proof. intros H. unfold Ebsvolume.finish. rewrite H. reflexivity. Qed.

Lemma finish_artifact (state : world value) (v : EbsVolumes) (s : EbsSnapshots) :
  GetOk "error" state = None ->
  Get "ebsvolumes" state = Some (VEbsVolumes v) ->
  Get "ebssnapshots" state = Some (VEbsSnapshots s) ->
  exists artifact,
    finish state
    = Returns (Some artifact, None,
               emit (UiSay ("Created Volumes: " +:+ Artifact_String artifact)) state)
    /\ Volumes artifact = v /\ Snapshots artifact = s
    /\ BuilderIdValue artifact = BuilderId
    /\ StateData artifact = {[ "generated_data" := Get "generated_data" state ]}.
Proof.
  intros He Hv Hs. unfold Ebsvolume.finish. rewrite He, Hv, Hs. simpl.
  eexists. split; [reflexivity|]. repeat split.
Qed.

(** The mount step, when the mount path cannot be prepared: the error goes
    into the bag and onto the [Ui], and the action is [ActionHalt]. *)
Lemma chroot_Run_halts (s : Chroot.StepManualMountCommand)
  (w : world (Chroot.value InterpolateContext))
  (config : Chroot.Config InterpolateContext) (device : string) :
  Get "config" w = Some (Chroot.VConfig _ config) ->
  Get "device" w = Some (Chroot.VString _ device) ->
  Get "ui" w = Some (Chroot.VUi _) ->
  Chroot.Command s <> "" ->
  forall err,
    (interpolate_Render (Chroot.MountPath _ config) (Chroot.GetContext _ config)
       {| Chroot.Device := filepath_Base
            (if negb (String.eqb (Chroot.NVMEDevicePath _ config) "")
             then Chroot.NVMEDevicePath _ config else device) |} = inr err
     \/ exists path,
          interpolate_Render (Chroot.MountPath _ config) (Chroot.GetContext _ config)
            {| Chroot.Device := filepath_Base
                 (if negb (String.eqb (Chroot.NVMEDevicePath _ config) "")
                  then Chroot.NVMEDevicePath _ config else device) |} = inl path
          /\ filepath_Abs path = inr err) ->
    exists w',
      chroot_Run s w = Returns (ActionHalt, s, w')
      /\ GetOk "error" w'
         = Some (Chroot.VError _ ("Error preparing mount directory: " +:+ err)).
Proof.
  intros Hc Hd Hu Hcmd err Hfail.
  unfold Chroot.Run. rewrite Hc, Hd, Hu. simpl.
  destruct (Nat.eqb (String.length (Chroot.Command s)) 0) eqn:Hl.
  { destruct (Chroot.Command s); [contradiction|discriminate]. }
  destruct Hfail as [Hr|(path & Hr & Ha)]; rewrite Hr; [|rewrite Ha];
    (eexists; split; [reflexivity|]; unfold GetOk, emit, Put; simpl;
     apply lookup_insert_eq).
Qed.

(** C1. Once the runner is back, [Builder.Run] reads the bag it left. If a
    step stored an error under ["error"], that error is the error returned,
    with a nil artifact. If nothing is stored under ["error"] and the
    steps left the volumes and the snapshots under ["ebsvolumes"] and
    ["ebssnapshots"], the artifact returned holds them, and the error is
    nil. A failing step tells by the bag and its action alone: when the
    mount step cannot prepare the mount path it puts the error under
    ["error"] and gives [ActionHalt]. *)
Theorem Builder_Run_reads_error_from_bag (ctx : Context) (region : string)
  (state : world value) :
  Session = inl (Some region) ->
  Runner_Run ctx steps (initial_state (Some region)) = Returns state ->
  (forall e, GetOk "error" state = Some (VError e) ->
     Builder_Run ctx = Returns (None, Some e, state))
  /\ (GetOk "error" state = None ->
      forall v s,
        Get "ebsvolumes" state = Some (VEbsVolumes v) ->
        Get "ebssnapshots" state = Some (VEbsSnapshots s) ->
        exists artifact,
          Builder_Run ctx
          = Returns (Some artifact, None,
                     emit (UiSay ("Created Volumes: " +:+ Artifact_String artifact)) state)
          /\ Volumes artifact = v /\ Snapshots artifact = s
          /\ BuilderIdValue artifact = BuilderId)
  /\ (forall s w config device err,
        Get "config" w = Some (Chroot.VConfig _ config) ->
        Get "device" w = Some (Chroot.VString _ device) ->
        Get "ui" w = Some (Chroot.VUi _) ->
        Chroot.Command s <> "" ->
        (interpolate_Render (Chroot.MountPath _ config) (Chroot.GetContext _ config)
           {| Chroot.Device := filepath_Base
                (if negb (String.eqb (Chroot.NVMEDevicePath _ config) "")
                 then Chroot.NVMEDevicePath _ config else device) |} = inr err
         \/ exists path,
              interpolate_Render (Chroot.MountPath _ config) (Chroot.GetContext _ config)
                {| Chroot.Device := filepath_Base
                     (if negb (String.eqb (Chroot.NVMEDevicePath _ config) "")
                      then Chroot.NVMEDevicePath _ config else device) |} = inl path
              /\ filepath_Abs path = inr err) ->
        exists w',
          chroot_Run s w = Returns (ActionHalt, s, w')
          /\ GetOk "error" w'
             = Some (Chroot.VError _ ("Error preparing mount directory: " +:+ err))).
Proof.
  intros Hs Hr. rewrite (Builder_Run_finish ctx region state Hs Hr).
  split; [|split].
  - intros e He. apply finish_error, He.
  - intros He v s Hv Hsn.
    destruct (finish_artifact state v s He Hv Hsn) as (a & Ha & H1 & H2 & H3 & _).
    exists a. auto.
  - intros s w config device err Hc Hd Hu Hcmd Hfail.
    apply (chroot_Run_halts s w config device Hc Hd Hu Hcmd err Hfail).
Qed.

End BuilderRunFacts.

Lemma Builder_Run_reads_error_from_bag_witness :
  (exists state,
     Ebsvolume.Builder_Run (inl (Some "us-east-1")) [Samples.failing_step]
       (fun _ => "") Multistep.Background
     = Go.Returns (None, Some "Error launching source instance", state))
  /\ (exists artifact state,
        Ebsvolume.Builder_Run (inl (Some "us-east-1")) [Samples.publish_volumes]
          (fun _ => "") Multistep.Background
        = Go.Returns (Some artifact, None, state)
        /\ Ebsvolume.Volumes artifact = Samples.volumes
        /\ Ebsvolume.Snapshots artifact = Samples.snapshots).
Proof.
  split.
  - eexists.
    refine (proj1 (Builder_Run_reads_error_from_bag (inl (Some "us-east-1"))
                     [Samples.failing_step] (fun _ => "") unit
                     Samples.render_fails Samples.base_name Samples.abs_path
                     Multistep.Background "us-east-1" _ eq_refl eq_refl) _ _).
    reflexivity.
  - destruct (proj1 (proj2 (Builder_Run_reads_error_from_bag (inl (Some "us-east-1"))
                     [Samples.publish_volumes] (fun _ => "") unit
                     Samples.render_fails Samples.base_name Samples.abs_path
                     Multistep.Background "us-east-1" _ eq_refl eq_refl))
                eq_refl Samples.volumes Samples.snapshots eq_refl eq_refl)
      as (a & Ha & Hv & Hs & _).
    exists a. eexists. split; [exact Ha|]. split; assumption.
Defined.

Lemma Builder_Run_cancelled_run_panics :
  Multistep.Runner_Run Samples.cancelled [Samples.publish_volumes]
    (Ebsvolume.initial_state (Some "us-east-1"))
  = Go.Returns (Ebsvolume.initial_state (Some "us-east-1"))
  /\ Multistep.GetOk "error" (Ebsvolume.initial_state (Some "us-east-1")) = None
  /\ Ebsvolume.Builder_Run (inl (Some "us-east-1")) [Samples.publish_volumes]
       (fun _ => "") Samples.cancelled
     = Go.Panics "interface conversion: not EbsVolumes".
Proof.
  split; [reflexivity|]. split; reflexivity.
Qed.

(** ** [Configure] of the import post-processor, and validation as a whole *)

Section ConfigureFacts.
Import Go AmazonImport.

Variable raw : Type.
Variable config_Decode : list raw -> Config + error.
Variable IsValidBootMode : string -> option error.
Variable interpolate_Validate : string -> option error.
Variable AccessConfig_Prepare : list raw -> list error.
Variable env : gmap string string.
Variable config_Decode_receiver : Config -> list raw -> Config.
Variable log_Println : Config -> string.

Local Abbreviation Configure :=
  (AmazonImport.Configure raw config_Decode IsValidBootMode
     interpolate_Validate AccessConfig_Prepare env config_Decode_receiver
     log_Println).
Local Abbreviation configure_reported :=
  (AmazonImport.configure_reported raw IsValidBootMode interpolate_Validate
     AccessConfig_Prepare).
Local Abbreviation collected :=
  (AmazonImport.collected raw IsValidBootMode interpolate_Validate
     AccessConfig_Prepare).

Lemma configure_return (c c' : Config) (errs : list error) (w : Polling.AWSPollingConfig) :
  snd (fst (if Nat.ltb 0 (length errs)
            then (c, Some (MultiError errs), @nil string)
            else let '(polling, logged) := Polling.LogEnvOverrideWarnings w env in
                 let c := set_PollingConfig (Some polling) c' in
                 (c, None, logged ++ [log_Println c])))
  = aggregate errs.
Proof. destruct errs; reflexivity. Qed.

Lemma Configure_decoded before raws d :
  config_Decode raws = inl d ->
  snd (fst (Configure before raws))
  = aggregate (collected raws d).
Proof.
  intros Hd. unfold Configure, collected, defaults. rewrite Hd.
  destruct (String.eqb (Format d) "") eqn:Hf;
    cbn [S3Key Format Architecture BootMode set_Format update];
  destruct (String.eqb (S3Key d) "") eqn:Hk;
    cbn [S3Key Format Architecture BootMode set_S3Key set_Format update];
  destruct (String.eqb (Architecture d) "") eqn:Ha;
    cbn [S3Key Format Architecture BootMode set_S3Key set_Format
         set_Architecture update];
  destruct (String.eqb (BootMode d) "") eqn:Hb;
    cbn [S3Key Format Architecture BootMode set_S3Key set_Format
         set_Architecture update];
  try destruct (String.eqb (Architecture d) "arm64") eqn:Harm;
  rewrite ?configure_return;
  cbn [S3Bucket S3Key S3Encryption S3EncryptionKey SkipClean Tags Name
       Description Users Groups OrgArns OuArns Encrypt KMSKey AMIIMDSSupport
       LicenseType RoleName Format Architecture BootMode Platform PollingConfig
       set_S3Key set_Format set_Architecture set_BootMode update
       String.eqb Ascii.eqb Bool.eqb fst snd];
  rewrite ?configure_return;
  cbn [S3Bucket S3Key S3Encryption S3EncryptionKey SkipClean Tags Name
       Description Users Groups OrgArns OuArns Encrypt KMSKey AMIIMDSSupport
       LicenseType RoleName Format Architecture BootMode Platform PollingConfig
       set_S3Key set_Format set_Architecture set_BootMode update
       String.eqb Ascii.eqb Bool.eqb fst snd];
  repeat rewrite <- app_assoc; reflexivity.
Qed.


Ltac cfg_simpl :=
  cbn [S3Bucket S3Key S3Encryption S3EncryptionKey SkipClean Tags Name
       Description Users Groups OrgArns OuArns Encrypt KMSKey AMIIMDSSupport
       LicenseType RoleName Format Architecture BootMode Platform PollingConfig
       set_S3Key set_Format set_Architecture set_BootMode set_PollingConfig
       update].

Lemma defaults_frame d :
  S3Bucket (defaults d) = S3Bucket d
  /\ Platform (defaults d) = Platform d
  /\ S3Encryption (defaults d) = S3Encryption d
  /\ AMIIMDSSupport (defaults d) = AMIIMDSSupport d.
Proof.
  unfold defaults.
  repeat (cfg_simpl;
          match goal with
          | |- context [if ?b then _ else _] => destruct b
          end);
    cfg_simpl; (split; [|split; [|split]]); reflexivity.
Qed.

Lemma In_when_import b (x e : error) :
  In e (AmazonImport.when b x) <-> b = true /\ e = x.
Proof.
  unfold AmazonImport.when. destruct b; simpl; split.
  - intros [H|[]]; auto.
  - intros [_ H]; auto.
  - intros [].
  - intros [H _]; discriminate.
Qed.

(** [Configure] collects exactly the failing checks. *)
Lemma collected_reports raws d e :
  In e (collected raws d) <-> configure_reported raws d e.
Proof.
  unfold AmazonImport.collected.
  destruct (defaults_frame d) as (Hbk & Hpl & Hse & Him).
  rewrite Hbk, Hpl, Hse, Him, !in_app_iff. split.
  - intros [H|[H|[H|[H|[H|[H|[H|[H|[H|H]]]]]]]]].
    + destruct (String.eqb (BootMode d) "") eqn:Hb; [destruct H|].
      apply String.eqb_neq in Hb.
      destruct (IsValidBootMode (BootMode d)) eqn:Hv; [|destruct H].
      destruct H as [<-|[]]. now apply CR_boot_mode_unknown.
    + destruct (interpolate_Validate _) eqn:Hv; [|destruct H].
      destruct H as [<-|[]]. now apply CR_s3_key_template.
    + now apply CR_access_config.
    + apply In_when_import in H as [H ->]. apply String.eqb_eq in H.
      now apply CR_bucket_missing.
    + apply In_when_import in H as [H ->]. apply negb_true_iff in H.
      now apply CR_format.
    + destruct (String.eqb_spec (Platform d) "windows") as [Hw|Hw];
        [destruct H|].
      destruct (String.eqb_spec (Platform d) "linux") as [Hl|Hl];
        [destruct H|]. simpl in H.
      destruct (String.eqb_spec (Platform d) "") as [He|He].
      * apply In_when_import in H as [H ->]. apply String.eqb_eq in H.
        now apply CR_platform_uefi.
      * destruct H as [<-|[]]. now apply CR_platform.
    + apply In_when_import in H as [H ->].
      rewrite !andb_true_iff, !negb_true_iff, !String.eqb_neq in H.
      apply CR_s3_encryption; tauto.
    + apply In_when_import in H as [H ->].
      rewrite !andb_true_iff, !negb_true_iff, !String.eqb_neq in H.
      apply CR_boot_mode; tauto.
    + apply In_when_import in H as [H ->].
      rewrite !andb_true_iff, !negb_true_iff, String.eqb_neq, String.eqb_eq in H.
      apply CR_boot_mode_arm64; tauto.
    + apply In_when_import in H as [H ->].
      rewrite !andb_true_iff, !negb_true_iff, !String.eqb_neq in H.
      apply CR_imds; tauto.
  - intros H.
    destruct H as [e Hb Hv|e Hv|e Hin|Hb|Hf|Hp Hb|Hw Hl He|H1 H2 H3|H1 H2
                  |H1 H2|H1 H2].
    + left. apply String.eqb_neq in Hb. rewrite Hb, Hv. now left.
    + do 1 right; left. rewrite Hv. now left.
    + do 2 right; left. assumption.
    + do 3 right; left. apply In_when_import. split; [|reflexivity].
      now apply String.eqb_eq.
    + do 4 right; left. apply In_when_import. split; [|reflexivity].
      now apply negb_true_iff.
    + do 5 right; left. rewrite Hp. simpl. apply In_when_import.
      split; [|reflexivity]. now apply String.eqb_eq.
    + do 5 right; left.
      apply String.eqb_neq in Hw, Hl, He. rewrite Hw, Hl, He. now left.
    + do 6 right; left. apply In_when_import. split; [|reflexivity].
      rewrite !andb_true_iff, !negb_true_iff, !String.eqb_neq. tauto.
    + do 7 right; left. apply In_when_import. split; [|reflexivity].
      rewrite !andb_true_iff, !negb_true_iff, !String.eqb_neq. tauto.
    + do 8 right; left. apply In_when_import. split; [|reflexivity].
      rewrite !andb_true_iff, !negb_true_iff, String.eqb_neq, String.eqb_eq.
      tauto.
    + do 9 right. apply In_when_import. split; [|reflexivity].
      rewrite !andb_true_iff, !negb_true_iff, !String.eqb_neq. tauto.
Qed.

Lemma aggregate_None errs : aggregate errs = None <-> errs = [].
Proof. destruct errs; simpl; split; auto; discriminate. Qed.

Lemma aggregate_In errs e :
  In e errs -> aggregate errs = Some (MultiError errs).
Proof. destruct errs; simpl; [tauto|reflexivity]. Qed.


(** C8. Validation collects every error.  [Configure], once the input is
    decoded, returns the aggregate of exactly the errors of the checks that
    fail (an invalid format together with an invalid platform gives both),
    and nil exactly when no check fails; [AMIConfig.Prepare] returns exactly
    the errors of its failing checks (a name that is too short together
    with an invalid [kms_key_id] gives both), and none exactly when every
    check passes. *)
Theorem validation_collects_every_error (time_Parse_RFC3339 : string -> bool)
  (before : Config) (raws : list raw) (d : Config)
  (c : AmiConfig.AMIConfig) (ac : option AmiConfig.AccessConfig) :
  config_Decode raws = inl d ->
  snd (fst (Configure before raws)) = aggregate (collected raws d)
  /\ (forall e, In e (collected raws d) <-> configure_reported raws d e)
  /\ (snd (fst (Configure before raws)) = None
      <-> forall e, ~ configure_reported raws d e)
  /\ (format_allowed (Format (defaults d)) = false ->
      Platform d <> "windows" -> Platform d <> "linux" -> Platform d <> "" ->
      exists errs,
        snd (fst (Configure before raws)) = Some (MultiError errs)
        /\ In (err_invalid_format (Format (defaults d))) errs
        /\ In (err_invalid_platform (Platform d)) errs)
  /\ (forall e, In e (snd (AmiConfig.Prepare time_Parse_RFC3339 c ac))
                <-> AmiConfig.reported time_Parse_RFC3339 c e)
  /\ (snd (AmiConfig.Prepare time_Parse_RFC3339 c ac) = []
      <-> AmiConfig.checks_pass time_Parse_RFC3339 c)
  /\ (String.length (AmiConfig.AMIName c) < 3 ->
      AmiConfig.AMIKmsKeyId c <> "" ->
      AmiConfig.ValidateKmsKey (AmiConfig.AMIKmsKeyId c) = false ->
      In AmiConfig.err_name_length
         (snd (AmiConfig.Prepare time_Parse_RFC3339 c ac))
      /\ In (AmiConfig.err_invalid_kms (AmiConfig.AMIKmsKeyId c))
            (snd (AmiConfig.Prepare time_Parse_RFC3339 c ac))).
Proof.
  intros Hd. rewrite (Configure_decoded before raws d Hd).
  split; [reflexivity|]. split; [apply collected_reports|].
  split; [|split; [|split; [|split]]].
  - rewrite aggregate_None, no_errors_iff. split.
    + intros H e He. apply (H e). now apply collected_reports.
    + intros H e He. apply (H e). now apply collected_reports.
  - intros Hf Hw Hl He. exists (collected raws d).
    assert (H1 : In (err_invalid_format (Format (defaults d))) (collected raws d)).
    { apply collected_reports. now apply CR_format. }
    assert (H2 : In (err_invalid_platform (Platform d)) (collected raws d)).
    { apply collected_reports. now apply CR_platform. }
    split; [now apply (aggregate_In _ _ H1)|]. now split.
  - intros e. apply Prepare_reports.
  - apply Prepare_none_iff.
  - intros Hlen Hne Hv. split; apply Prepare_reports.
    + apply AmiConfig.R_name_length. now left.
    + now apply AmiConfig.R_invalid_key.
Qed.

End ConfigureFacts.

Lemma validation_collects_every_error_witness :
  (fun _ : list unit => @inl AmazonImport.Config Go.error
                          (AmazonImport.import_of "bucket" "iso" "bsd")) []
  = inl (AmazonImport.import_of "bucket" "iso" "bsd")
  /\ exists errs,
      snd (fst (AmazonImport.Configure unit
                  (fun _ => inl (AmazonImport.import_of "bucket" "iso" "bsd"))
                  (fun _ => None) (fun _ => None) (fun _ => []) ∅
                  (fun before _ => before) (fun _ => "")
                  AmazonImport.zero []))
      = Some (AmazonImport.MultiError errs)
      /\ In (AmazonImport.err_invalid_format "iso") errs
      /\ In (AmazonImport.err_invalid_platform "bsd") errs.
Proof.
  split; [reflexivity|].
  apply (validation_collects_every_error unit
           (fun _ => inl (AmazonImport.import_of "bucket" "iso" "bsd"))
           (fun _ => None) (fun _ => None) (fun _ => []) ∅
           (fun before _ => before) (fun _ => "")
           (fun _ => true) AmazonImport.zero []
           (AmazonImport.import_of "bucket" "iso" "bsd")
           AmiConfig.zero None eq_refl);
    [vm_compute; reflexivity | | | ]; vm_compute; discriminate.
Defined.

(** ** The attribute-modification map *)

Section AttributeFacts.
Import Go AmazonImport.

Lemma is_Some_cond_insert {V} (b : bool) (k : string) (v : V) (m : gmap string V) (j : string) :
  is_Some ((if b then <[k := v]> m else m) !! j) <-> (b = true /\ k = j) \/ is_Some (m !! j).
Proof.
  destruct b.
  - rewrite lookup_insert_is_Some. split.
    + intros [->|[_ H]]; auto.
    + intros [[_ ->]|H]; [auto|]. destruct (decide (k = j)); auto.
  - split; [auto|]. intros [[H _]|H]; [discriminate|assumption].
Qed.

Lemma eqb_empty_false (s : string) : negb (String.eqb s "") = true <-> s <> "".
Proof.
  destruct (String.eqb_spec s ""); simpl; split; congruence.
Qed.

Lemma ltb_length_nonempty {A} (l : list A) : Nat.ltb 0 (length l) = true <-> l <> [].
Proof.
  destruct l; simpl; split; try congruence; auto.
Qed.

Lemma attribute_options_lookup (c : Config) (name : string) :
  is_Some (attribute_options c !! name) <-> entry_expected c name.
Proof.
  unfold attribute_options, entry_expected. cbv zeta.
  rewrite !is_Some_cond_insert, lookup_empty, !eqb_empty_false, !ltb_length_nonempty.
  assert (He : ~ is_Some (@None ModifyImageAttributeInput)) by (intros [x Hx]; discriminate).
  intuition (subst; auto).
Qed.

(** C5. [PostProcess] builds the map of attribute modifications from the
    fields of the configuration that are set, and from those only: a name
    has an entry exactly when its field is non-empty (["description"],
    ["groups"], ["users"], ["ami org arns"], ["ami ou arns"],
    ["ami imds support"]).  With users alone set the map has exactly one
    entry, under ["users"], carrying the user ids and one launch permission
    per user. *)
Theorem attribute_options_only_set_fields (c : Config) :
  (forall name, is_Some (attribute_options c !! name) <-> entry_expected c name)
  /\ (Users c <> [] -> Description c = "" -> Groups c = [] -> OrgArns c = [] ->
      OuArns c = [] -> AMIIMDSSupport c = "" ->
      dom (attribute_options c) = {[ "users" ]}
      /\ size (attribute_options c) = 1
      /\ exists input,
           attribute_options c = {[ "users" := input ]}
           /\ mi_UserIds input = Users c
           /\ mi_LaunchPermissionAdd input
              = Some (map (fun u => {| lp_Group := None; lp_UserId := Some u;
                                       lp_OrganizationArn := None;
                                       lp_OrganizationalUnitArn := None |}) (Users c))).
Proof.
  split; [apply attribute_options_lookup|].
  intros Hu Hd Hg Ho Hou Hi.
  assert (Hopts : exists input, attribute_options c = {[ "users" := input ]}
           /\ mi_UserIds input = Users c
           /\ mi_LaunchPermissionAdd input
              = Some (map (fun u => {| lp_Group := None; lp_UserId := Some u;
                                       lp_OrganizationArn := None;
                                       lp_OrganizationalUnitArn := None |}) (Users c))).
  { unfold attribute_options. cbv zeta. rewrite Hd, Hg, Ho, Hou, Hi. simpl.
    apply ltb_length_nonempty in Hu. rewrite Hu.
    eexists. split; [reflexivity|]. split; reflexivity. }
  destruct Hopts as (input & Heq & H1 & H2).
  split; [|split].
  - rewrite Heq. apply dom_singleton_L.
  - rewrite Heq. apply map_size_singleton.
  - exists input. auto.
Qed.

End AttributeFacts.

(** ** [PostProcess]: the phases after the import is started *)

Section PostProcessFacts.
Import Go AmazonImport.

Variable env : Env.

Lemma ensures_ret {A} (a : A) P (Q : A -> Prop) R :
  Q a -> ensures (mret a) P Q R.
Proof.
  intros H t. exists []. simpl. rewrite app_nil_r. auto.
Qed.

Lemma ensures_fail {A} (err : error) P (Q : A -> Prop) (R : result -> Prop) :
  R (failed err) -> ensures (fail_with err) P Q R.
Proof.
  intros H t. exists []. simpl. rewrite app_nil_r. auto.
Qed.

Lemma ensures_do_call (c : call) (P : call -> Prop) (Q : unit -> Prop) R :
  P c -> Q tt -> ensures (do_call c) P Q R.
Proof.
  intros H1 H2 t. exists [c]. simpl. auto.
Qed.

Lemma ensures_lift {A} (o : outcome A) P (Q : A -> Prop) R :
  (forall a, o = Returns a -> Q a) -> ensures (lift o) P Q R.
Proof.
  intros H t. exists []. unfold lift. rewrite app_nil_r.
  destruct o; simpl; auto.
Qed.

Lemma ensures_bind {A B} (m : M A) (k : A -> M B) P (Q : A -> Prop)
  (Q' : B -> Prop) R :
  ensures m P Q R -> (forall a, Q a -> ensures (k a) P Q' R) ->
  ensures (m ≫= k) P Q' R.
Proof.
  intros Hm Hk t. unfold mbind, M_bind.
  destruct (Hm t) as (t1 & E1 & F1 & O1).
  destruct (m t) as [t' [a|r|why]]; simpl in *; subst t'.
  - destruct (Hk a O1 (t ++ t1)) as (t2 & E2 & F2 & O2).
    exists (t1 ++ t2). rewrite E2, app_assoc. split; [reflexivity|].
    split; [apply Forall_app; auto|assumption].
  - exists t1. auto.
  - exists t1. auto.
Qed.

Lemma ensures_or_fail {A} (r : A + error) wrap P (Q : A -> Prop) (R : result -> Prop) :
  (forall a, r = inl a -> Q a) -> (forall e, R (failed e)) ->
  ensures (or_fail r wrap) P Q R.
Proof.
  intros H1 H2. destruct r; simpl.
  - apply ensures_ret. auto.
  - apply ensures_fail. auto.
Qed.

Lemma ensures_check (r : option error) wrap P (Q : unit -> Prop) (R : result -> Prop) :
  (r = None -> Q tt) -> (forall e, R (failed e)) -> ensures (check r wrap) P Q R.
Proof.
  intros H1 H2. destruct r; simpl.
  - apply ensures_fail. auto.
  - apply ensures_ret. auto.
Qed.

Lemma ensures_when (b : bool) (m : M unit) P R :
  ensures m P (fun _ => True) R -> ensures (when_ b m) P (fun _ => True) R.
Proof.
  intros H. destruct b; simpl; [assumption|]. apply ensures_ret. exact I.
Qed.

Lemma failed_is_failure (e : error) : is_failure (failed e).
Proof. split; simpl; congruence. Qed.

(** A run of [Ui] lines, one per element. *)
Lemma ensures_messages {X} (f : X -> string) (l : list X) (P : call -> Prop) R :
  (forall s, P (UiMessage s)) ->
  ensures (foldr (fun x rest => _ ← do_call (UiMessage (f x)); rest) (mret tt) l)
    P (fun _ => True) R.
Proof.
  intros HP. induction l as [|x l IH]; simpl.
  - apply ensures_ret. exact I.
  - eapply ensures_bind; [apply ensures_do_call with (Q := fun _ => True); auto|].
    intros _ _. exact IH.
Qed.

Lemma tagging_ensures (c : Config) (ami : string) :
  ensures (tagging env c ami) not_rename (fun _ => True) is_failure.
Proof.
  unfold tagging. cbv zeta.
  eapply ensures_bind with (Q := fun _ => True).
  { apply (ensures_messages (fun kv => "Adding tag " +:+ String dquote (fst kv)
                                 +:+ String dquote ": " +:+ String dquote (snd kv)
                                 +:+ String dquote "")). reflexivity. }
  intros _ _.
  eapply ensures_bind with (Q := fun _ => True);
    [apply ensures_do_call; [reflexivity|exact I]|intros _ _].
  eapply ensures_bind with (Q := fun _ => True);
    [apply ensures_or_fail; [auto|apply failed_is_failure]|intros imageResp _].
  destruct imageResp as [|image rest].
  { apply ensures_fail, failed_is_failure. }
  eapply ensures_bind with (Q := fun _ => True).
  { apply (ensures_messages (fun id => "Tagging snapshot " +:+ id)). reflexivity. }
  intros _ _.
  eapply ensures_bind with (Q := fun _ => True);
    [apply ensures_do_call; [reflexivity|exact I]|intros _ _].
  eapply ensures_bind with (Q := fun _ => True);
    [apply ensures_do_call; [reflexivity|exact I]|intros _ _].
  apply ensures_check; [auto|apply failed_is_failure].
Qed.

Ltac ensures_step :=
  eapply ensures_bind with (Q := fun _ => True);
  [first [apply ensures_do_call; [reflexivity|exact I]
         |apply ensures_check; [auto|apply failed_is_failure]
         |apply ensures_or_fail; [auto|apply failed_is_failure]]
  |intros ? _].

Lemma modify_each_ensures entries (ami : string) :
  ensures (modify_each env entries ami) not_rename (fun _ => True) is_failure.
Proof.
  induction entries as [|[name input] rest IH]; simpl.
  - apply ensures_ret. exact I.
  - do 3 ensures_step. exact IH.
Qed.

Lemma modify_attributes_ensures (c : Config) (ami : string) :
  ensures (modify_attributes env c ami) not_rename (fun _ => True) is_failure.
Proof.
  unfold modify_attributes. cbv zeta. apply ensures_when, modify_each_ensures.
Qed.

Lemma later_phases_ensures (c : Config) (region : option string) (ami : string) :
  ensures (later_phases env c region ami) not_rename (final_result region ami)
    is_failure.
Proof.
  unfold later_phases.
  eapply ensures_bind with (Q := fun _ => True);
    [apply ensures_when, tagging_ensures|intros _ _].
  eapply ensures_bind with (Q := fun _ => True);
    [apply modify_attributes_ensures|intros _ _].
  eapply ensures_bind with (Q := fun rn => region = Some rn).
  { apply ensures_lift. destruct region; simpl; congruence. }
  intros rn Hrn. cbv zeta.
  eapply ensures_bind with (Q := fun _ => True).
  { apply ensures_when. do 2 ensures_step.
    apply ensures_check; [auto|apply failed_is_failure]. }
  intros _ _. apply ensures_ret. exists rn. auto.
Qed.

Lemma retry_ImportImage_succeeds (n : nat) :
  forall tries attempt params last out t,
    n < tries ->
    (forall k, k < n -> exists e, ImportImage env (attempt + k) params = inr e) ->
    ImportImage env (attempt + n) params = inl out ->
    retry_ImportImage env tries attempt params last t
    = (t ++ repeat (Ec2ImportImage params) (S n), Next (inl out)).
Proof.
  induction n as [|n IH]; intros tries attempt params last out t Hlt Hfail Hok.
  - destruct tries as [|tries]; [lia|]. simpl.
    unfold mbind, M_bind, do_call. rewrite Nat.add_0_r in Hok. rewrite Hok.
    reflexivity.
  - destruct tries as [|tries]; [lia|]. simpl.
    unfold mbind, M_bind, do_call.
    destruct (Hfail 0 ltac:(lia)) as [e He]. rewrite Nat.add_0_r in He.
    rewrite He. rewrite (IH tries (S attempt) params e out).
    + rewrite <- app_assoc. reflexivity.
    + lia.
    + intros k Hk. destruct (Hfail (S k) ltac:(lia)) as [e' He'].
      exists e'. rewrite <- He'. f_equal. lia.
    + rewrite <- Hok. f_equal. lia.
Qed.

Lemma Forall_repeat {A} (P : A -> Prop) (a : A) (n : nat) :
  P a -> Forall P (repeat a n).
Proof. intros H. induction n; simpl; auto. Qed.

(** The equations of the sequencing, one per kind of statement. *)
Lemma bind_do_call {B} (x : call) (k : unit -> M B) (t : list call) :
  (do_call x ≫= k) t = k tt (t ++ [x]).
Proof. reflexivity. Qed.

Lemma bind_ret {A B} (a : A) (k : A -> M B) (t : list call) :
  (mret a ≫= k) t = k a t.
Proof. reflexivity. Qed.

Lemma bind_when_call {B} (b : bool) (x : call) (k : unit -> M B) (t : list call) :
  (when_ b (do_call x) ≫= k) t = k tt (t ++ if b then [x] else []).
Proof. destruct b; simpl; [reflexivity|]. rewrite app_nil_r. reflexivity. Qed.

Lemma bind_check_None {B} wrap (k : unit -> M B) (t : list call) :
  (check None wrap ≫= k) t = k tt t.
Proof. reflexivity. Qed.

Lemma bind_or_fail_inl {A B} (a : A) wrap (k : A -> M B) (t : list call) :
  (or_fail (inl a) wrap ≫= k) t = k a t.
Proof. reflexivity. Qed.

Lemma bind_lift_Returns {A B} (a : A) (k : A -> M B) (t : list call) :
  (lift (Returns a) ≫= k) t = k a t.
Proof. reflexivity. Qed.

Lemma bind_unfold {A B} (m : M A) (k : A -> M B) (t : list call) :
  (m ≫= k) t
  = match m t with
    | (t', Next a) => k a t'
    | (t', Return r) => (t', Return r)
    | (t', Panic why) => (t', Panic why)
    end.
Proof. reflexivity. Qed.

Lemma bind_eq {A B} (m : M A) (k : A -> M B) (t t' : list call) (a : A) :
  m t = (t', Next a) -> (m ≫= k) t = k a t'.
Proof. intros H. unfold mbind, M_bind. rewrite H. reflexivity. Qed.

(** Up to the started import: the calls made, none of a later phase, and
    what is left to do. *)
Lemma PostProcess_started c artifact region c' import_start taskId :
  import_started env c artifact region c' import_start taskId ->
  exists t0,
    Forall not_later t0
    /\ PostProcess env c artifact [] = await_import env c' region import_start taskId t0.
Proof.
  intros [Hsess (key & Hkey & ->) Hsrc Hopen Hup (n & Hn & Hfail & Hok) Htask].
  unfold PostProcess. cbv zeta. rewrite Hsess, bind_or_fail_inl.
  rewrite Hkey, bind_or_fail_inl.
  destruct (String.eqb_spec
              (find_source (Files artifact) ("." +:+ Format (set_S3Key key c))) "")
    as [E|_]; [contradiction|].
  rewrite bind_when_call, bind_do_call, Hopen, bind_check_None, !bind_do_call.
  rewrite Hup, bind_check_None, !bind_do_call, bind_when_call.
  rewrite (bind_eq _ _ _ _ _
             (retry_ImportImage_succeeds n 11 0 _ "" import_start _ Hn Hfail Hok)).
  rewrite bind_or_fail_inl, Htask. simpl deref. rewrite bind_lift_Returns, bind_do_call.
  eexists. split; [|reflexivity].
  rewrite !Forall_app. repeat split;
    try (repeat constructor; fail).
  - destruct (_ && _); repeat constructor.
  - destruct (negb _); repeat constructor.
  - apply Forall_repeat. reflexivity.
Qed.

Lemma run_PostProcess_fst c artifact :
  fst (run_PostProcess env c artifact) = fst (PostProcess env c artifact []).
Proof.
  unfold run_PostProcess. destruct (PostProcess env c artifact []) as [t [r|r|why]];
    reflexivity.
Qed.

Lemma run_PostProcess_snd c artifact :
  snd (run_PostProcess env c artifact)
  = match snd (PostProcess env c artifact []) with
    | Next r | Return r => Returns r
    | Panic why => Panics why
    end.
Proof.
  unfold run_PostProcess. destruct (PostProcess env c artifact []) as [t [r|r|why]];
    reflexivity.
Qed.

Lemma append_inj_l (s x y : string) : s +:+ x = s +:+ y -> x = y.
Proof.
  induction s as [|a s IH]; simpl; [auto|]. intros H. injection H. exact IH.
Qed.

Lemma import_errors_differ (taskId m err m' : string) :
  err_import_wait taskId m err <> err_import_failed taskId m'.
Proof.
  unfold err_import_wait, err_import_failed. intros H.
  apply (append_inj_l "Import task ") in H.
  apply append_inj_l in H. apply (f_equal (String.get 7)) in H.
  cbv in H. discriminate.
Qed.

(** C2. Once the import task is started, a failed wait for it, or a task
    that is not reported completed, ends [PostProcess] there: no call of a
    later phase (rename, tagging, attribute modification, deletion of the
    uploaded object) is made.  After a failed wait the task is asked for
    with [DescribeImportImageTasks], the call that follows the wait and the
    last one made: when the answer holds a task with a status message, the
    artifact is nil and the error is the text with the task id, that
    message and the waiter's error; when the call itself fails, the fixed
    text [Error retrieving status message] stands where the message would.
    After a wait that succeeds, a task in another status than [completed]
    and with a status message gives a nil artifact and the text with the
    task id and the message.  The two texts never coincide. *)
Theorem PostProcess_import_failure c artifact region c' import_start taskId :
  import_started env c artifact region c' import_start taskId ->
  let run := run_PostProcess env c artifact in
  (forall err, WaitUntilImageImported env taskId = Some err ->
     Forall not_later (fst run)
     /\ (exists before,
           fst run = before ++ [Ec2WaitUntilImageImported taskId;
                                Ec2DescribeImportImageTasks (Some taskId)])
     /\ (forall task rest m,
           DescribeImportImageTasks env (Some taskId) = inl (task :: rest) ->
           StatusMessage task = Some m ->
           exists r,
             snd run = Returns r /\ r_artifact r = None
             /\ r_err r = Some ("Import task " +:+ taskId
                                +:+ " failed with status message: " +:+ m
                                +:+ ", error: " +:+ err))
     /\ (forall err2,
           DescribeImportImageTasks env (Some taskId) = inr err2 ->
           exists r,
             snd run = Returns r /\ r_artifact r = None
             /\ r_err r = Some ("Import task " +:+ taskId
                                +:+ " failed with status message: "
                                +:+ "Error retrieving status message"
                                +:+ ", error: " +:+ err)))
  /\ (WaitUntilImageImported env taskId = None ->
      ((forall task rest,
          DescribeImportImageTasks env (Some taskId) = inl (task :: rest) ->
          Status task <> Some "completed") ->
       Forall not_later (fst run))
      /\ (forall task rest status m,
            DescribeImportImageTasks env (Some taskId) = inl (task :: rest) ->
            Status task = Some status -> status <> "completed" ->
            StatusMessage task = Some m ->
            exists r,
              snd run = Returns r /\ r_artifact r = None
              /\ r_err r = Some ("Import task " +:+ taskId +:+ " failed: " +:+ m)))
  /\ (forall m err m',
        "Import task " +:+ taskId +:+ " failed with status message: " +:+ m
        +:+ ", error: " +:+ err
        <> "Import task " +:+ taskId +:+ " failed: " +:+ m').
Proof.
  intros Hstart run.
  destruct (PostProcess_started _ _ _ _ _ _ Hstart) as (t0 & Ht0 & Hpp).
  destruct Hstart as [_ _ _ _ _ _ Htask].
  assert (Hfst : fst run = fst (await_import env c' region import_start taskId t0)).
  { unfold run. rewrite run_PostProcess_fst, Hpp. reflexivity. }
  assert (Hsnd : snd run
                 = match snd (await_import env c' region import_start taskId t0) with
                   | Next r | Return r => Returns r
                   | Panic why => Panics why
                   end).
  { unfold run. rewrite run_PostProcess_snd, Hpp. reflexivity. }
  clearbody run. rewrite Hfst, Hsnd. clear Hfst Hsnd Hpp.
  unfold await_import. rewrite !bind_do_call, Htask.
  set (waiting := UiMessage ("Waiting for task " +:+ taskId
                             +:+ " to complete (may take a while)")).
  assert (Hcalls : forall r : flow result,
             Forall not_later
               (fst ((((t0 ++ [waiting]) ++ [Ec2WaitUntilImageImported taskId])
                      ++ [Ec2DescribeImportImageTasks (Some taskId)]), r))).
  { intros r. simpl. rewrite !Forall_app.
    repeat split; try assumption; repeat constructor. }
  split; [|split].
  - intros err Hw. rewrite Hw, bind_do_call.
    assert (Hlast : forall r : flow result,
               exists before,
                 fst ((((t0 ++ [waiting]) ++ [Ec2WaitUntilImageImported taskId])
                       ++ [Ec2DescribeImportImageTasks (Some taskId)]), r)
                 = before ++ [Ec2WaitUntilImageImported taskId;
                              Ec2DescribeImportImageTasks (Some taskId)]).
    { intros r. exists (t0 ++ [waiting]). simpl. rewrite <- !app_assoc. reflexivity. }
    destruct (DescribeImportImageTasks env (Some taskId)) as [[|task rest]|e2];
      unfold mbind, M_bind; simpl.
    + split; [apply (Hcalls (Panic ""))|]. split; [apply (Hlast (Panic ""))|].
      split; intros; discriminate.
    + destruct (StatusMessage task) as [m0|] eqn:Hsm; simpl.
      * split; [apply (Hcalls (Panic ""))|]. split; [apply (Hlast (Panic ""))|].
        split; [|intros; discriminate].
        intros task' rest' m H Hm. inversion H; subst.
        assert (m0 = m) by congruence. subst m0.
        eexists. split; [reflexivity|]. split; reflexivity.
      * split; [apply (Hcalls (Panic ""))|]. split; [apply (Hlast (Panic ""))|].
        split; [|intros; discriminate].
        intros task' rest' m H Hm. inversion H; subst. congruence.
    + split; [apply (Hcalls (Panic ""))|]. split; [apply (Hlast (Panic ""))|].
      split; [intros; discriminate|].
      intros err2 _. eexists. split; [reflexivity|]. split; reflexivity.
  - intros Hw. rewrite Hw, bind_do_call. split.
    + intros Hnot.
      destruct (DescribeImportImageTasks env (Some taskId)) as [[|task rest]|e2];
        unfold mbind, M_bind; simpl; try apply (Hcalls (Panic "")).
      specialize (Hnot task rest eq_refl).
      destruct (Status task) as [status|]; simpl; [|apply (Hcalls (Panic ""))].
      destruct (String.eqb_spec status "completed") as [E|_];
        [subst status; contradiction|].
      simpl. destruct (StatusMessage task); simpl; apply (Hcalls (Panic "")).
    + intros task rest status m Hd Hs Hne Hm. rewrite Hd.
      unfold mbind, M_bind. simpl. rewrite Hs. simpl.
      destruct (String.eqb_spec status "completed") as [E|_]; [contradiction|].
      simpl. rewrite Hm. simpl.
      eexists. split; [reflexivity|]. split; reflexivity.
  - intros m err m'. apply import_errors_differ.
Qed.

Lemma filter_none {A} (f : A -> bool) (l : list A) :
  Forall (fun x => f x = false) l -> List.filter f l = [].
Proof.
  induction 1 as [|x l Hx _ IH]; simpl; [reflexivity|]. rewrite Hx. exact IH.
Qed.

Lemma not_later_not_rename (x : call) : not_later x -> not_rename x.
Proof. unfold not_later, not_rename. destruct x; simpl; congruence. Qed.

(** The rename phase: the calls it makes, and what its success means. *)
Lemma rename_spec (c : Config) (region : option string) (createdami : string)
  (t : list call) :
  exists t',
    fst (rename env c region createdami t) = t ++ t'
    /\ List.filter is_rename_call t' = rename_calls env c region createdami
    /\ match snd (rename env c region createdami t) with
       | Next newId =>
           rename_calls env c region createdami
           = [Ec2CopyImage (copy_input c region createdami);
              Ec2WaitUntilAMIAvailable newId; Ec2DestroyAMIs [createdami]]
           /\ CopyImage env (copy_input c region createdami)
              = inl {| co_ImageId := Some newId |}
           /\ WaitUntilAMIAvailable env newId = None
           /\ DestroyAMIs env [createdami] = None
       | Return r => is_failure r
       | Panic _ => True
       end.
Proof.
  unfold rename, rename_calls. cbv zeta. rewrite !bind_do_call.
  destruct (CopyImage env (copy_input c region createdami)) as [[[newId|]]|e].
  - rewrite bind_or_fail_inl, bind_do_call. simpl deref.
    rewrite bind_lift_Returns, bind_do_call. simpl co_ImageId. cbv iota.
    destruct (WaitUntilAMIAvailable env newId) as [e|] eqn:Hwait.
    + eexists. split; [simpl; rewrite <- !app_assoc; reflexivity|].
      split; [reflexivity|apply failed_is_failure].
    + rewrite bind_check_None, !bind_do_call.
      destruct (DestroyAMIs env [createdami]) as [e|] eqn:Hd.
      * eexists. split; [simpl; rewrite <- !app_assoc; reflexivity|].
        split; [reflexivity|apply failed_is_failure].
      * rewrite bind_check_None, bind_do_call.
        eexists. split; [simpl; rewrite <- !app_assoc; reflexivity|].
        split; [reflexivity|]. simpl. repeat split; assumption.
  - rewrite bind_or_fail_inl, bind_do_call. simpl.
    eexists. split; [rewrite <- !app_assoc; reflexivity|]. split; reflexivity.
  - simpl. eexists. split; [rewrite <- !app_assoc; reflexivity|].
    split; [reflexivity|apply failed_is_failure].
Qed.

Lemma copy_input_set_S3Key key c region createdami :
  copy_input (set_S3Key key c) region createdami = copy_input c region createdami.
Proof. reflexivity. Qed.

(** C3. With a name configured and the import task completed, the calls of
    the rename phase are made in this order: the copy of the imported image
    under the configured name; then the wait, on the id of the copy; then
    the removal of the imported image; each only after the one before it
    succeeded. When [PostProcess] returns an artifact, all three were
    made, and the artifact maps the region of the session to the id of the
    copy. *)
Theorem PostProcess_rename_order c artifact region c' import_start taskId createdami :
  import_started env c artifact region c' import_start taskId ->
  import_completed env taskId createdami ->
  Name c <> "" ->
  let run := run_PostProcess env c artifact in
  let copyInput := copy_input c region createdami in
  ci_Name copyInput = Name c
  /\ ci_SourceImageId copyInput = createdami
  /\ List.filter is_rename_call (fst run) = rename_calls env c region createdami
  /\ (forall r a, snd run = Returns r -> r_artifact r = Some a ->
        exists regionName newId,
          region = Some regionName
          /\ CopyImage env copyInput = inl {| co_ImageId := Some newId |}
          /\ List.filter is_rename_call (fst run)
             = [Ec2CopyImage copyInput; Ec2WaitUntilAMIAvailable newId;
                Ec2DestroyAMIs [createdami]]
          /\ Amis a = {[ regionName := newId ]}).
Proof.
  intros Hstart [Hw (task & rest & Hd & Hs & Hi)] Hname run copyInput.
  split; [reflexivity|]. split; [reflexivity|].
  destruct (PostProcess_started _ _ _ _ _ _ Hstart) as (t0 & Ht0 & Hpp).
  destruct Hstart as [_ (key & _ & ->) _ _ _ _ Htask].
  assert (Hfst : fst run
                 = fst (await_import env (set_S3Key key c) region import_start taskId t0)).
  { unfold run. rewrite run_PostProcess_fst, Hpp. reflexivity. }
  assert (Hsnd : snd run
                 = match snd (await_import env (set_S3Key key c) region import_start
                                taskId t0) with
                   | Next r | Return r => Returns r
                   | Panic why => Panics why
                   end).
  { unfold run. rewrite run_PostProcess_snd, Hpp. reflexivity. }
  clearbody run. rewrite Hfst, Hsnd. clear Hfst Hsnd Hpp. subst copyInput.
  unfold await_import. rewrite !bind_do_call, Htask, Hw, bind_do_call, Hd.
  rewrite bind_or_fail_inl. simpl index0. rewrite bind_lift_Returns, Hs.
  simpl deref. rewrite bind_lift_Returns, String.eqb_refl.
  change (negb true) with false. cbv iota.
  rewrite bind_do_call, Hi. simpl deref. rewrite bind_lift_Returns.
  change (Name (set_S3Key key c)) with (Name c).
  destruct (String.eqb_spec (Name c) "") as [E|_]; [contradiction|].
  change (negb false) with true. cbv iota.
  match goal with
  | |- context [(rename env ?c' region createdami ≫= ?k) ?t] =>
      set (t1 := t);
      assert (Ht1 : List.filter is_rename_call t1 = []);
      [|destruct (rename_spec c' region createdami t1) as (t' & E1 & F1 & O1);
        rewrite !(bind_unfold (rename env c' region createdami) _ t1)]
  end.
  { apply filter_none. unfold t1. rewrite !Forall_app.
    repeat split; try (repeat constructor; fail).
    eapply Forall_impl; [exact Ht0|]. apply not_later_not_rename. }
  rewrite copy_input_set_S3Key in O1.
  change (rename_calls env (set_S3Key key c) region createdami)
    with (rename_calls env c region createdami) in F1, O1.
  destruct (rename env (set_S3Key key c) region createdami t1)
    as [t2 [newId|r|why]]; simpl in E1, O1; subst t2.
  - cbv beta.
    destruct (later_phases_ensures (set_S3Key key c) region newId (t1 ++ t'))
      as (t'' & E2 & F2 & O2).
    destruct O1 as (Hcalls & Hcopy & _).
    assert (Hfilter : List.filter is_rename_call
                        (fst (later_phases env (set_S3Key key c) region newId (t1 ++ t')))
                      = rename_calls env c region createdami).
    { rewrite E2, !List.filter_app, Ht1, F1, (filter_none _ _ F2).
      rewrite app_nil_r. reflexivity. }
    split; [exact Hfilter|].
    intros r a Hr Ha. rewrite Hfilter.
    destruct (snd (later_phases env (set_S3Key key c) region newId (t1 ++ t')))
      as [r'|r'|why]; simpl in Hr; [| |discriminate Hr].
    + inversion Hr; subst r'. destruct O2 as (regionName & Hreg & ->).
      simpl in Ha. inversion Ha; subst a. exists regionName, newId. auto.
    + inversion Hr; subst r'. destruct O2 as [Hnone _]. congruence.
  - simpl. split.
    + rewrite List.filter_app, Ht1, F1. reflexivity.
    + intros r' a Hr Ha. inversion Hr; subst r'. destruct O1 as [Hnone _]. congruence.
  - simpl. split.
    + rewrite List.filter_app, Ht1, F1. reflexivity.
    + intros r' a Hr. discriminate Hr.
Qed.

End PostProcessFacts.

Lemma PostProcess_import_failure_witness :
  (exists r,
      snd (AmazonImport.run_PostProcess
             (Samples.aws (Some "ResourceNotReady: exceeded wait attempts") "active")
             Samples.import_config Samples.built) = Go.Returns r
      /\ AmazonImport.r_artifact r = None
      /\ AmazonImport.r_err r
         = Some ("Import task import-ami-1 failed with status message: "
                 +:+ "ClientError: Disk validation failed, error: "
                 +:+ "ResourceNotReady: exceeded wait attempts"))
  /\ (exists r,
        snd (AmazonImport.run_PostProcess (Samples.aws None "deleted")
               Samples.import_config Samples.built) = Go.Returns r
        /\ AmazonImport.r_artifact r = None
        /\ AmazonImport.r_err r
           = Some ("Import task import-ami-1 failed: "
                   +:+ "ClientError: Disk validation failed")).
Proof.
  assert (Hs : forall wait status,
             AmazonImport.import_started (Samples.aws wait status)
               Samples.import_config Samples.built (Some "us-east-1")
               Samples.import_config
               {| AmazonImport.ImportTaskId := Some "import-ami-1" |}
               "import-ami-1").
  { intros wait status. constructor; try reflexivity.
    - exists "disk.ova". split; reflexivity.
    - vm_compute. discriminate.
    - exists 2. split; [lia|]. split; [|reflexivity].
      intros k Hk. exists "RequestLimitExceeded".
      destruct k as [|[|k]]; [reflexivity|reflexivity|lia]. }
  split.
  - destruct (PostProcess_import_failure _ _ _ _ _ _ _
                (Hs (Some "ResourceNotReady: exceeded wait attempts") "active"))
      as [H _].
    destruct (H _ eq_refl) as (_ & _ & H1 & _).
    exact (H1 _ _ _ eq_refl eq_refl).
  - destruct (PostProcess_import_failure _ _ _ _ _ _ _ (Hs None "deleted"))
      as (_ & H & _).
    refine (proj2 (H eq_refl) _ _ "deleted" _ eq_refl eq_refl _ eq_refl).
    discriminate.
Defined.

(** A wait that fails, followed by a [DescribeImportImageTasks] that fails
    too: the error returned holds the fixed text, and no status message of
    the task.  A wait that succeeds on a task that was deleted and has no
    status message: [PostProcess] returns neither artifact nor error. *)
Lemma PostProcess_import_failure_without_message :
  (AmazonImport.WaitUntilImageImported Samples.unanswered "import-ami-1"
   = Some "ResourceNotReady: exceeded wait attempts"
   /\ AmazonImport.DescribeImportImageTasks Samples.unanswered (Some "import-ami-1")
      = inr "RequestLimitExceeded"
   /\ snd (AmazonImport.run_PostProcess Samples.unanswered Samples.import_config
             Samples.built)
      = Go.Returns
          {| AmazonImport.r_artifact := None;
             AmazonImport.r_keep := false;
             AmazonImport.r_forceOverride := false;
             AmazonImport.r_err :=
               Some ("Import task import-ami-1 failed with status message: "
                     +:+ "Error retrieving status message, error: "
                     +:+ "ResourceNotReady: exceeded wait attempts") |})
  /\ (AmazonImport.WaitUntilImageImported Samples.deleted "import-ami-1" = None
      /\ (forall r,
            snd (AmazonImport.run_PostProcess Samples.deleted Samples.import_config
                   Samples.built) <> Go.Returns r)).
Proof.
  split.
  - split; [reflexivity|]. split; [reflexivity|]. vm_compute. reflexivity.
  - split; [reflexivity|]. intros r. vm_compute. discriminate.
Qed.

Lemma PostProcess_rename_order_witness :
  List.filter AmazonImport.is_rename_call
    (fst (AmazonImport.run_PostProcess (Samples.aws None "completed")
            Samples.import_config Samples.built))
  = [AmazonImport.Ec2CopyImage
       (AmazonImport.copy_input Samples.import_config (Some "us-east-1") "ami-1");
     AmazonImport.Ec2WaitUntilAMIAvailable "ami-2";
     AmazonImport.Ec2DestroyAMIs ["ami-1"]]
  /\ exists r a,
       snd (AmazonImport.run_PostProcess (Samples.aws None "completed")
              Samples.import_config Samples.built) = Go.Returns r
       /\ AmazonImport.r_artifact r = Some a
       /\ AmazonImport.Amis a = {[ "us-east-1" := "ami-2" ]}.
Proof.
  assert (Hs : AmazonImport.import_started (Samples.aws None "completed")
               Samples.import_config Samples.built (Some "us-east-1")
               Samples.import_config
               {| AmazonImport.ImportTaskId := Some "import-ami-1" |}
               "import-ami-1").
  { constructor; try reflexivity.
    - exists "disk.ova". split; reflexivity.
    - vm_compute. discriminate.
    - exists 2. split; [lia|]. split; [|reflexivity].
      intros k Hk. exists "RequestLimitExceeded".
      destruct k as [|[|k]]; [reflexivity|reflexivity|lia]. }
  assert (Hc : AmazonImport.import_completed (Samples.aws None "completed")
                 "import-ami-1" "ami-1").
  { constructor; [reflexivity|]. eexists. eexists.
    split; [reflexivity|]. split; reflexivity. }
  assert (Hn : AmazonImport.Name Samples.import_config <> "") by discriminate.
  destruct (PostProcess_rename_order _ _ _ _ _ _ _ _ Hs Hc Hn) as (_ & _ & H1 & H2).
  split.
  - rewrite H1. reflexivity.
  - eexists. eexists. split; [vm_compute; reflexivity|].
    split; [reflexivity|]. reflexivity.
Defined.

(** ** [RootBlockDevice.Prepare] *)

Section RootBlockDeviceFacts.
Import Go Ebssurrogate.

Lemma surrogate_when_nil (b : bool) (e : error) :
  Ebssurrogate.when b e = [] <-> b = false.
Proof. destruct b; simpl; split; congruence. Qed.

Lemma surrogate_errs_nil (c : RootBlockDevice) :
  snd (Prepare c) = [] <-> well_formed c.
Proof.
  unfold Prepare. cbv zeta.
  destruct (String.eqb_spec (SourceDeviceName c) "") as [Hs|Hs];
  destruct (String.eqb_spec (DeviceName c) "") as [Hd|Hd];
  destruct (String.eqb_spec (VolumeType c) "gp2") as [Hv|Hv];
  destruct (Z.eqb_spec (IOPS c) 0) as [Hi|Hi];
  destruct (Z.ltb_spec (IOPS c) 0) as [Hn|Hn];
  destruct (Z.ltb_spec (VolumeSize c) 0) as [Hz|Hz];
  destruct (String.eqb_spec (ImageMethod c) "") as [Hm|Hm];
  destruct (String.eqb_spec (ImageMethod c) "create") as [Hc|Hc];
  destruct (String.eqb_spec (ImageMethod c) "register") as [Hr|Hr];
  simpl; split;
    try (intros H; discriminate H);
    try (intros [? ? ? ? ? ?]; try contradiction; try lia;
         try (exfalso; intuition congruence); fail);
    try (intros _; constructor; auto; try lia; intuition congruence);
    try reflexivity.
Qed.

(** [RootBlockDevice.Prepare] returns nil exactly for a well-formed root
    device: both device names set, no iops on a gp2 volume, iops and
    volume size not negative, and an image method that is empty, [create]
    or [register].  Zero passes for the iops and for the size: the
    function tests for a negative number. *)
Theorem RootBlockDevice_Prepare_nil_iff (c : RootBlockDevice) :
  (snd (Prepare c) = [] <-> well_formed c)
  /\ (IOPS c = 0%Z -> ~ In err_iops (snd (Prepare c))
                      /\ ~ In err_gp2_iops (snd (Prepare c)))
  /\ (VolumeSize c = 0%Z -> ~ In err_volume_size (snd (Prepare c))).
Proof.
  split; [apply surrogate_errs_nil|].
  assert (Hin : forall e, In e (snd (Prepare c)) ->
            (e = err_source_device_name /\ SourceDeviceName c = "")
            \/ (e = err_device_name /\ DeviceName c = "")
            \/ (e = err_gp2_iops /\ VolumeType c = "gp2" /\ IOPS c <> 0%Z)
            \/ (e = err_iops /\ (IOPS c < 0)%Z)
            \/ (e = err_volume_size /\ (VolumeSize c < 0)%Z)
            \/ (e = err_image_method /\ ImageMethod c <> "create"
                /\ ImageMethod c <> "register" /\ ImageMethod c <> "")).
  { intros e. unfold Prepare. cbv zeta.
    destruct (String.eqb_spec (SourceDeviceName c) "") as [Hs|Hs];
    destruct (String.eqb_spec (DeviceName c) "") as [Hd|Hd];
    destruct (String.eqb_spec (VolumeType c) "gp2") as [Hv|Hv];
    destruct (Z.eqb_spec (IOPS c) 0) as [Hi|Hi];
    destruct (Z.ltb_spec (IOPS c) 0) as [Hn|Hn];
    destruct (Z.ltb_spec (VolumeSize c) 0) as [Hz|Hz];
    destruct (String.eqb_spec (ImageMethod c) "") as [Hm|Hm];
    destruct (String.eqb_spec (ImageMethod c) "create") as [Hc|Hc];
    destruct (String.eqb_spec (ImageMethod c) "register") as [Hr|Hr];
    simpl; intros H;
      repeat (destruct H as [<-|H]; [tauto|]); contradiction. }
  split.
  - intros Hz. split; intros H; apply Hin in H;
      repeat (destruct H as [[E H]|H]; [try discriminate E; try lia; tauto|]);
      destruct H as [E H]; try discriminate E; lia || tauto.
  - intros Hz H. apply Hin in H.
    repeat (destruct H as [[E H]|H]; [try discriminate E; try lia; tauto|]).
    destruct H as [E H]; discriminate E.
Qed.

(** [Prepare] writes one field only: an empty image method becomes
    [register]; an image method that was set stays as it was, valid or
    not.  After a [Prepare] without error the image method is [create] or
    [register], and a second [Prepare] changes nothing and reports the
    same. *)
Theorem RootBlockDevice_Prepare_image_method (c : RootBlockDevice) :
  fst (Prepare c)
  = set_ImageMethod (if String.eqb (ImageMethod c) "" then "register"
                     else ImageMethod c) c
  /\ (snd (Prepare c) = [] ->
      ImageMethod (fst (Prepare c)) = "create"
      \/ ImageMethod (fst (Prepare c)) = "register")
  /\ Prepare (fst (Prepare c)) = Prepare c.
Proof.
  assert (Hfst : fst (Prepare c)
                 = set_ImageMethod (if String.eqb (ImageMethod c) "" then "register"
                                    else ImageMethod c) c).
  { unfold Prepare. cbv zeta.
    destruct (String.eqb (ImageMethod c) "").
    - match goal with |- context [Nat.ltb 0 (length ?l)] =>
        destruct (Nat.ltb 0 (length l)) end; reflexivity.
    - destruct (negb (String.eqb (ImageMethod c) "create")
                && negb (String.eqb (ImageMethod c) "register"));
        match goal with |- context [Nat.ltb 0 (length ?l)] =>
          destruct (Nat.ltb 0 (length l)) end; destruct c; reflexivity. }
  split; [exact Hfst|]. split.
  - intros Hnil. apply surrogate_errs_nil in Hnil. destruct Hnil as [_ _ _ _ _ Hm].
    rewrite Hfst. simpl.
    destruct Hm as [E|[E|E]]; rewrite E; simpl; auto.
  - rewrite Hfst.
    destruct (String.eqb_spec (ImageMethod c) "") as [Hm|Hm].
    + unfold Prepare. cbv zeta. simpl. rewrite Hm. simpl.
      match goal with |- context [Nat.ltb 0 (length ?l)] =>
        destruct (Nat.ltb 0 (length l)) end; reflexivity.
    + assert (E : set_ImageMethod (ImageMethod c) c = c) by (destruct c; reflexivity).
      rewrite E. reflexivity.
Qed.

Lemma surrogate_In_when (b : bool) (e e' : error) :
  In e (Ebssurrogate.when b e') <-> b = true /\ e' = e.
Proof. destruct b; simpl; intuition congruence. Qed.

Lemma surrogate_snd (c : RootBlockDevice) :
  snd (Prepare c)
  = Ebssurrogate.when (String.eqb (SourceDeviceName c) "") err_source_device_name
    ++ Ebssurrogate.when (String.eqb (DeviceName c) "") err_device_name
    ++ Ebssurrogate.when (String.eqb (VolumeType c) "gp2" && negb (IOPS c =? 0)%Z)
         err_gp2_iops
    ++ Ebssurrogate.when (IOPS c <? 0)%Z err_iops
    ++ Ebssurrogate.when (VolumeSize c <? 0)%Z err_volume_size
    ++ Ebssurrogate.when (negb (String.eqb (ImageMethod c) "")
                          && negb (String.eqb (ImageMethod c) "create")
                          && negb (String.eqb (ImageMethod c) "register"))
         err_image_method.
Proof.
  assert (Hif : forall (c' : RootBlockDevice) (l : list error),
             snd (if Nat.ltb 0 (length l) then (c', l) else (c', [])) = l).
  { intros c' [|e l]; reflexivity. }
  unfold Prepare. cbv zeta.
  destruct (String.eqb (ImageMethod c) ""); simpl negb; simpl andb.
  - rewrite Hif. simpl. rewrite !app_nil_r, <- !app_assoc. reflexivity.
  - destruct (negb (String.eqb (ImageMethod c) "create")
              && negb (String.eqb (ImageMethod c) "register"));
      rewrite Hif; simpl; rewrite ?app_nil_r, <- ?app_assoc; reflexivity.
Qed.

(** [Prepare] reports every failing check, not the first one only: each of
    the six errors is in the slice exactly when its check fails. *)
Theorem RootBlockDevice_Prepare_reports_all (c : RootBlockDevice) :
  (In err_source_device_name (snd (Prepare c)) <-> SourceDeviceName c = "")
  /\ (In err_device_name (snd (Prepare c)) <-> DeviceName c = "")
  /\ (In err_gp2_iops (snd (Prepare c))
      <-> VolumeType c = "gp2" /\ IOPS c <> 0%Z)
  /\ (In err_iops (snd (Prepare c)) <-> (IOPS c < 0)%Z)
  /\ (In err_volume_size (snd (Prepare c)) <-> (VolumeSize c < 0)%Z)
  /\ (In err_image_method (snd (Prepare c))
      <-> ImageMethod c <> "" /\ ImageMethod c <> "create"
          /\ ImageMethod c <> "register").
Proof.
  rewrite surrogate_snd.
  assert (Hne : forall s t : string, negb (String.eqb s t) = true <-> s <> t).
  { intros s t. destruct (String.eqb_spec s t); simpl; split; congruence. }
  assert (Heq : forall s t : string, String.eqb s t = true <-> s = t).
  { intros s t. apply String.eqb_eq. }
  assert (Hz : negb (IOPS c =? 0)%Z = true <-> IOPS c <> 0%Z).
  { destruct (Z.eqb_spec (IOPS c) 0); simpl; split; congruence. }
  repeat rewrite in_app_iff. repeat rewrite surrogate_In_when.
  repeat rewrite andb_true_iff. rewrite !Hne, !Heq, Hz, !Z.ltb_lt.
  assert (D1 : err_device_name <> err_source_device_name) by discriminate.
  assert (D2 : err_gp2_iops <> err_source_device_name) by discriminate.
  assert (D3 : err_iops <> err_source_device_name) by discriminate.
  assert (D4 : err_volume_size <> err_source_device_name) by discriminate.
  assert (D5 : err_image_method <> err_source_device_name) by discriminate.
  assert (D6 : err_gp2_iops <> err_device_name) by discriminate.
  assert (D7 : err_iops <> err_device_name) by discriminate.
  assert (D8 : err_volume_size <> err_device_name) by discriminate.
  assert (D9 : err_image_method <> err_device_name) by discriminate.
  assert (D10 : err_iops <> err_gp2_iops) by discriminate.
  assert (D11 : err_volume_size <> err_gp2_iops) by discriminate.
  assert (D12 : err_image_method <> err_gp2_iops) by discriminate.
  assert (D13 : err_volume_size <> err_iops) by discriminate.
  assert (D14 : err_image_method <> err_iops) by discriminate.
  assert (D15 : err_image_method <> err_volume_size) by discriminate.
  intuition congruence.
Qed.

End RootBlockDeviceFacts.

(** ** More on the manual mount step: the bag, the generated data, the cleanup *)

Section MountStepMore.
Import Go Multistep Chroot.

Variable InterpolateContext : Type.
Variable interpolate_Render :
  string -> InterpolateContext -> manualMountCommandData -> string + error.
Variable filepath_Base : string -> string.
Variable filepath_Abs : string -> string + error.

Local Abbreviation value := (Chroot.value InterpolateContext).
Local Abbreviation Run :=
  (Chroot.Run InterpolateContext interpolate_Render filepath_Base filepath_Abs).
Local Abbreviation CleanupFunc := (Chroot.CleanupFunc InterpolateContext).
Local Abbreviation Cleanup := (Chroot.Cleanup InterpolateContext).
Local Abbreviation as_Step :=
  (Chroot.as_Step InterpolateContext interpolate_Render filepath_Base filepath_Abs).

(** [Run] leaves every other key of the bag as it was, whatever it returns:
    it writes ["error"] when it halts, and ["mount_path"],
    ["generated_data"] and ["mount_device_cleanup"] when it goes through. *)
Theorem Run_frame (s s' : StepManualMountCommand) (w w' : world value)
  (a : StepAction) (key : string) :
  Run s w = Returns (a, s', w') ->
  ~ In key ["error"; "mount_path"; "generated_data"; "mount_device_cleanup"] ->
  Get key w' = Get key w.
Proof.
  unfold Chroot.Run. intros H Hk.
  assert (K1 : key <> "error") by (intros ->; apply Hk; simpl; auto).
  assert (K2 : key <> "mount_path") by (intros ->; apply Hk; simpl; auto).
  assert (K3 : key <> "generated_data") by (intros ->; apply Hk; simpl; auto).
  assert (K4 : key <> "mount_device_cleanup") by (intros ->; apply Hk; simpl; auto).
  destruct (as_Config _ (Get "config" w)) as [config|]; simpl in H; [|discriminate].
  destruct (as_string _ (Get "device" w)) as [device|]; simpl in H; [|discriminate].
  destruct (as_Ui _ (Get "ui" w)) as [[]|]; simpl in H; [|discriminate].
  destruct (Nat.eqb (String.length (Command s)) 0).
  { inversion H; subst. reflexivity. }
  destruct (interpolate_Render _ _ _) as [path|err].
  2:{ inversion H; subst. unfold Get, emit, Put. simpl.
      apply lookup_insert_ne. congruence. }
  destruct (filepath_Abs path) as [abs|err].
  2:{ inversion H; subst. unfold Get, emit, Put. simpl.
      apply lookup_insert_ne. congruence. }
  destruct (GeneratedData_Put _ _ _ _ _) as [w1|] eqn:Hg; simpl in H; [|discriminate].
  inversion H; subst.
  unfold GeneratedData_Put in Hg.
  destruct (GeneratedData s) as [[]|]; simpl in Hg; [|discriminate].
  match type of Hg with
  | match ?g with _ => _ end = _ => destruct g as [[]|]
  end; inversion Hg; subst; unfold Get, emit, Put; simpl;
    rewrite !lookup_insert_ne by congruence; reflexivity.
Qed.

(** When [Run] goes through, the generated data of the run has the mount
    path under ["MountPath"] and every other entry it had before; a bag
    without generated data gets a map with that one entry. *)
Theorem Run_generated_data (s s' : StepManualMountCommand) (w w' : world value) :
  Run s w = Returns (ActionContinue, s', w') ->
  Command s <> "" ->
  exists m',
    Get "generated_data" w' = Some (VGenerated _ m')
    /\ m' !! "MountPath" = Some (mountPath s')
    /\ Get "mount_path" w' = Some (VString _ (mountPath s'))
    /\ (forall k, k <> "MountPath" ->
          m' !! k = match Get "generated_data" w with
                    | Some (VGenerated _ m) => m !! k
                    | _ => None
                    end).
Proof.
  unfold Chroot.Run. intros H Hcmd.
  destruct (as_Config _ (Get "config" w)) as [config|]; simpl in H; [|discriminate].
  destruct (as_string _ (Get "device" w)) as [device|]; simpl in H; [|discriminate].
  destruct (as_Ui _ (Get "ui" w)) as [[]|]; simpl in H; [|discriminate].
  destruct (Nat.eqb (String.length (Command s)) 0) eqn:Hl.
  { destruct (Command s); [contradiction|discriminate]. }
  destruct (interpolate_Render _ _ _) as [path|err]; [|discriminate].
  destruct (filepath_Abs path) as [abs|err]; [|discriminate].
  destruct (GeneratedData_Put _ _ _ _ _) as [w1|] eqn:Hg; simpl in H; [|discriminate].
  inversion H; subst. clear H.
  unfold GeneratedData_Put in Hg.
  destruct (GeneratedData s) as [[]|]; simpl in Hg; [|discriminate].
  assert (Hold : forall e1 e2 e3 e4 e5 e6 v,
             Get "generated_data"
               (Put "mount_path" v (emit e1 (emit e2 (emit e3 (emit e4
                  (emit e5 (emit e6 w)))))))
             = Get "generated_data" w).
  { intros. unfold Get, Put. simpl. apply lookup_insert_ne. discriminate. }
  rewrite Hold in Hg.
  destruct (Get "generated_data" w) as [[]|] eqn:Hgd; inversion Hg; subst;
    (eexists; split;
     [unfold Get, Put; simpl; rewrite lookup_insert_ne by discriminate;
      apply lookup_insert_eq|];
     split; [apply lookup_insert_eq|];
     split; [unfold Get, Put; simpl; rewrite !lookup_insert_ne by discriminate;
             apply lookup_insert_eq|];
     intros k Hk; rewrite lookup_insert_ne by congruence;
     try apply lookup_empty; reflexivity).
Qed.

Lemma Cleanup_with_ui (s : StepManualMountCommand) (w : world value) :
  Get "ui" w = Some (VUi _) ->
  Cleanup s w
  = Returns (if String.eqb (mountPath s) "" then w
             else emit (UiSay "Unmounting the root device...") w).
Proof.
  intros Hui. unfold Chroot.Cleanup, Chroot.CleanupFunc. rewrite Hui. simpl.
  destruct (String.eqb (mountPath s) ""); reflexivity.
Qed.

(** The path [Run] publishes is the one it records on the step. *)
Lemma Run_mount_path (s s' : StepManualMountCommand) (w w' : world value) :
  Run s w = Returns (ActionContinue, s', w') ->
  Command s <> "" ->
  Get "mount_path" w' = Some (VString _ (mountPath s')).
Proof.
  unfold Chroot.Run. intros H Hcmd.
  destruct (as_Config _ (Get "config" w)) as [config|]; simpl in H; [|discriminate].
  destruct (as_string _ (Get "device" w)) as [device|]; simpl in H; [|discriminate].
  destruct (as_Ui _ (Get "ui" w)) as [[]|]; simpl in H; [|discriminate].
  destruct (Nat.eqb (String.length (Command s)) 0) eqn:Hl.
  { destruct (Command s); [contradiction|discriminate]. }
  destruct (interpolate_Render _ _ _) as [path|err]; [|discriminate].
  destruct (filepath_Abs path) as [abs|err]; [|discriminate].
  destruct (GeneratedData_Put _ _ _ _ _) as [w1|] eqn:Hg; simpl in H; [|discriminate].
  inversion H; subst. clear H.
  unfold Get, Put. simpl. rewrite lookup_insert_ne by discriminate.
  unfold GeneratedData_Put in Hg.
  destruct (GeneratedData s) as [[]|]; simpl in Hg; [|discriminate].
  match type of Hg with
  | match ?g with _ => _ end = _ => destruct g as [[]|]
  end; inversion Hg; subst; unfold Put; simpl;
    rewrite lookup_insert_ne by discriminate; apply lookup_insert_eq.
Qed.

(** [Cleanup] needs the [Ui] of the bag and nothing else; with it,
    [Cleanup] returns, leaves the bag as it is, never writes an error on
    the [Ui], and says that it unmounts exactly when [Run] recorded a mount
    path on the step. *)
Theorem Cleanup_says_unmounting (s : StepManualMountCommand) (w : world value) :
  (Get "ui" w = Some (VUi _) ->
   Cleanup s w
   = Returns (if String.eqb (mountPath s) "" then w
              else emit (UiSay "Unmounting the root device...") w))
  /\ (forall w', Cleanup s w = Returns w' ->
        Get "ui" w = Some (VUi _)
        /\ bag w' = bag w
        /\ forall e, In (UiError e) (trace w') -> In (UiError e) (trace w)).
Proof.
  split; [apply Cleanup_with_ui|].
  unfold Chroot.Cleanup, Chroot.CleanupFunc.
  - intros w'.
    destruct (Get "ui" w) as [[]|] eqn:Hui; simpl; try discriminate.
    destruct (String.eqb (mountPath s) ""); simpl.
    + intros H; inversion H; subst. auto.
    + intros H; inversion H; subst. simpl.
      split; [reflexivity|]. split; [reflexivity|].
      intros e He. apply in_app_or in He as [He|[He|[]]]; [assumption|discriminate].
Qed.

(** [Run] and then the cleanup it leaves to the runner: for a step that had
    no mount path, the cleanup says that it unmounts exactly when [Run]
    went through with a command and recorded a non-empty path; after a
    halt, or with no command, the cleanup is silent. *)
Theorem as_Step_cleanup_after_Run (s : StepManualMountCommand)
  (w w' w2 : world value) (a : StepAction) (cleanup : Multistep.Cleanup value) :
  run (as_Step s) w = Returns (a, w', cleanup) ->
  mountPath s = "" ->
  Get "ui" w2 = Some (VUi _) ->
  (a = ActionHalt \/ Command s = "" -> cleanup w2 = Returns w2)
  /\ (a = ActionContinue -> Command s <> "" ->
      exists path,
        Get "mount_path" w' = Some (VString _ path)
        /\ cleanup w2
           = Returns (if String.eqb path "" then w2
                      else emit (UiSay "Unmounting the root device...") w2)).
Proof.
  simpl. intros H Hmp Hui.
  destruct (Run s w) as [[[a0 s0] w0]|] eqn:Hrun; simpl in H; [|discriminate].
  inversion H; subst a0 w0 cleanup. clear H.
  pose proof (Cleanup_with_ui s0 w2 Hui) as Hc.
  split.
  - intros Hcase. rewrite Hc.
    assert (Hs0 : mountPath s0 = "").
    { unfold Chroot.Run in Hrun.
      destruct (as_Config _ (Get "config" w)) as [config|]; simpl in Hrun; [|discriminate].
      destruct (as_string _ (Get "device" w)) as [device|]; simpl in Hrun; [|discriminate].
      destruct (as_Ui _ (Get "ui" w)) as [[]|]; simpl in Hrun; [|discriminate].
      destruct (Nat.eqb (String.length (Command s)) 0) eqn:Hl.
      { inversion Hrun; subst. assumption. }
      assert (Hcmd : Command s <> "").
      { intros E. rewrite E in Hl. discriminate. }
      destruct Hcase as [->|E]; [|contradiction].
      destruct (interpolate_Render _ _ _) as [path|err].
      2:{ inversion Hrun; subst. assumption. }
      destruct (filepath_Abs path) as [abs|err].
      2:{ inversion Hrun; subst. assumption. }
      destruct (GeneratedData_Put _ _ _ _ _); simpl in Hrun; discriminate. }
    rewrite Hs0. reflexivity.
  - intros -> Hcmd.
    exists (mountPath s0). split; [|exact Hc].
    apply (Run_mount_path s s0 w w' Hrun Hcmd).
Qed.

End MountStepMore.

Lemma Run_frame_witness :
  exists a s' w',
    Chroot.Run unit Samples.render_device Samples.base_name Samples.abs_path
      Samples.mount_step Samples.chroot_bag = Go.Returns (a, s', w')
    /\ Multistep.Get "config" w' = Multistep.Get "config" Samples.chroot_bag.
Proof.
  eexists. eexists. eexists. split; [reflexivity|].
  eapply (Run_frame unit Samples.render_device Samples.base_name Samples.abs_path
            Samples.mount_step _ Samples.chroot_bag _ _ "config").
  - reflexivity.
  - simpl. intuition discriminate.
Defined.

Lemma Run_generated_data_witness :
  exists s' w' m',
    Chroot.Run unit Samples.render_device Samples.base_name Samples.abs_path
      Samples.mount_step Samples.chroot_bag
    = Go.Returns (Multistep.ActionContinue, s', w')
    /\ Multistep.Get "generated_data" w' = Some (Chroot.VGenerated unit m')
    /\ m' !! "MountPath" = Some "/mnt/packer-xvdf".
Proof.
  eexists. eexists.
  destruct (Run_generated_data unit Samples.render_device Samples.base_name
              Samples.abs_path Samples.mount_step _ Samples.chroot_bag _ eq_refl)
    as (m' & H1 & H2 & _).
  - discriminate.
  - exists m'. split; [reflexivity|]. split; [exact H1|exact H2].
Defined.

Lemma as_Step_cleanup_after_Run_witness :
  exists a w' cleanup,
    Multistep.run
      (Chroot.as_Step unit Samples.render_device Samples.base_name
         Samples.abs_path Samples.mount_step) Samples.chroot_bag
    = Go.Returns (a, w', cleanup)
    /\ a = Multistep.ActionContinue
    /\ exists path,
         Multistep.Get "mount_path" w' = Some (Chroot.VString unit path)
         /\ cleanup Samples.chroot_bag
            = Go.Returns
                (if String.eqb path "" then Samples.chroot_bag
                 else Multistep.emit
                        (Multistep.UiSay "Unmounting the root device...")
                        Samples.chroot_bag).
Proof.
  eexists. eexists. eexists. split; [reflexivity|]. split; [reflexivity|].
  refine (proj2 (as_Step_cleanup_after_Run unit Samples.render_device
                   Samples.base_name Samples.abs_path Samples.mount_step
                   Samples.chroot_bag _ Samples.chroot_bag _ _
                   eq_refl eq_refl eq_refl) eq_refl _).
  discriminate.
Defined.

(** ** [Builder.Prepare] of the ebsvolume builder, and the tenancy *)

Section BuilderPrepareFacts.
Import Go EbsvolumeConfig.

Variable raw : Type.
Variable config_Decode : list raw -> Config + error.
Variable AccessConfig_Prepare : Config -> Config * list error.
Variable RunConfig_Prepare : Config -> Config * list error.
Variable launchBlockDevices_Prepare : Config -> Config * list error.
Variable VolumeMappings_Prepare : Config -> Config * list error.
Variable IsSpotInstance : Config -> bool.
Variable GetGeneratedDataList : list string.
Variable config_Decode_receiver : Config -> list raw -> Config.

Local Abbreviation prepare_parts :=
  (EbsvolumeConfig.prepare_parts AccessConfig_Prepare RunConfig_Prepare
     launchBlockDevices_Prepare VolumeMappings_Prepare).
Local Abbreviation Prepare :=
  (EbsvolumeConfig.Prepare raw config_Decode AccessConfig_Prepare RunConfig_Prepare
     launchBlockDevices_Prepare VolumeMappings_Prepare IsSpotInstance
     GetGeneratedDataList config_Decode_receiver).

Lemma flat_map_repeat {A B} (f : A -> bool) (e : B) (l : list A) :
  flat_map (fun x => if f x then [e] else []) l
  = repeat e (length (List.filter f l)).
Proof.
  induction l as [|x l IH]; simpl; [reflexivity|].
  destruct (f x); simpl; rewrite IH; reflexivity.
Qed.


(** The errors of a decoded configuration, as [Prepare] collects them. *)
Lemma Prepare_decoded (before d : Config) (raws : list raw) :
  config_Decode raws = inl d ->
  exists head,
    let c := fst (prepare_parts d) in
    let errs :=
      head ++ repeat err_snapshot_description
                (length (List.filter describes_without_snapshot (VolumeMappings c))) in
    let warns :=
      (if negb (String.eqb (SpotPriceAutoProduct c) "")
       then [warn_spot_price_auto_product] else [])
      ++ (if EnableT2Unlimited c then [warn_enable_t2_unlimited] else []) in
    Prepare before raws
    = (c, match errs with
          | [] => (Some GetGeneratedDataList, warns, None)
          | _ => (None, warns, Some (MultiError errs))
          end).
Proof.
  intros Hd. unfold EbsvolumeConfig.Prepare. rewrite Hd.
  destruct (prepare_parts d) as [c errs0]. cbv zeta. simpl fst.
  exists (errs0 ++ (if IsSpotInstance c
                       && (Trilean_True (AMIENASupport c) || AMISriovNetSupport c)
                    then [err_spot_modification] else [])).
  rewrite flat_map_repeat. simpl app.
  match goal with |- context [Nat.ltb 0 (length ?l)] => destruct l as [|e l'] end;
    reflexivity.
Qed.


(** [Builder.Prepare] returns the generated data or an error, never both
    and never neither, and the warnings do not depend on which: the two
    deprecated options of the run configuration are warned about, in this
    order, with or without errors.  When the input does not decode, the
    decoder's error is returned as it is, with no generated data and no
    warning. *)
Theorem Builder_Prepare_outcome (before : Config) (raws : list raw) :
  (fst (fst (snd (Prepare before raws))) = None
   <-> snd (snd (Prepare before raws)) <> None)
  /\ (forall d, config_Decode raws = inl d ->
        let c := fst (Prepare before raws) in
        snd (fst (snd (Prepare before raws)))
        = (if negb (String.eqb (SpotPriceAutoProduct c) "")
           then [warn_spot_price_auto_product] else [])
          ++ (if EnableT2Unlimited c then [warn_enable_t2_unlimited] else []))
  /\ (forall err, config_Decode raws = inr err ->
        snd (Prepare before raws) = (None, [], Some (DecodeError err))).
Proof.
  split; [|split].
  - destruct (config_Decode raws) as [d|err] eqn:Hd.
    + destruct (Prepare_decoded before d raws Hd) as [head Hp].
      cbv zeta in Hp. rewrite Hp.
      match goal with |- context [match ?l with [] => _ | _ => _ end] =>
        destruct l end; simpl; split; congruence.
    + unfold EbsvolumeConfig.Prepare. rewrite Hd. simpl. split; congruence.
  - intros d Hd. destruct (Prepare_decoded before d raws Hd) as [head Hp].
    cbv zeta in Hp. rewrite Hp. cbv zeta.
    match goal with |- context [match ?l with [] => _ | _ => _ end] =>
      destruct l end; reflexivity.
  - intros err Hd. unfold EbsvolumeConfig.Prepare. rewrite Hd. reflexivity.
Qed.

(** The tenancy of the on-demand launch: the placement's when it is set,
    the top-level one otherwise; in general the loop gives the first
    non-empty string of the list, and the empty string when there is
    none. *)
Theorem Run_tenancy_first_set (c : Config) :
  Run_tenancy c
  = (if String.eqb (PlacementTenancy c) "" then Tenancy c else PlacementTenancy c)
  /\ (forall l, first_set l = "" <-> Forall (fun t => t = "") l)
  /\ (forall l, first_set l <> "" ->
        exists before after,
          l = before ++ first_set l :: after
          /\ Forall (fun t => t = "") before).
Proof.
  split; [|split].
  - unfold Run_tenancy. simpl.
    destruct (String.eqb_spec (PlacementTenancy c) ""); simpl; [|reflexivity].
    destruct (String.eqb_spec (Tenancy c) ""); simpl; congruence.
  - induction l as [|t l IH]; simpl.
    + split; auto.
    + destruct (String.eqb_spec t "") as [->|Hne]; simpl.
      * rewrite IH. split; [intros H; constructor; auto|intros H; inversion H; auto].
      * split; [contradiction|]. intros H. inversion H. contradiction.
  - induction l as [|t l IH]; simpl; [contradiction|].
    destruct (String.eqb_spec t "") as [->|Hne]; simpl.
    + intros H. destruct (IH H) as (b & a & E & F).
      exists ("" :: b), a. split; [simpl; f_equal; exact E|constructor; auto].
    + intros _. exists [], l. split; [reflexivity|constructor].
Qed.

End BuilderPrepareFacts.


(** ** More on [Builder.Run] of the ebsvolume builder *)

Section BuilderRunMore.
Import Go Multistep Ebsvolume.

Variable Session : option string + error.
Variable steps : list (Step value).
Variable Artifact_String : Artifact -> string.

Local Abbreviation Builder_Run := (Ebsvolume.Builder_Run Session steps Artifact_String).
Local Abbreviation finish := (Ebsvolume.finish Artifact_String).

Lemma finish_one_of (state state' : world value) (a : option Artifact)
  (e : option error) :
  finish state = Returns (a, e, state') ->
  bag state' = bag state
  /\ ((a = None /\ state' = state
       /\ exists err, e = Some err /\ GetOk "error" state = Some (VError err))
      \/ (e = None /\ GetOk "error" state = None
          /\ exists artifact,
               a = Some artifact
               /\ Get "ebsvolumes" state = Some (VEbsVolumes (Volumes artifact))
               /\ Get "ebssnapshots" state = Some (VEbsSnapshots (Snapshots artifact))
               /\ StateData artifact !! "generated_data"
                  = Some (Get "generated_data" state)
               /\ trace state'
                  = trace state
                    ++ [UiSay ("Created Volumes: " +:+ Artifact_String artifact)])).
Proof.
  unfold Ebsvolume.finish.
  destruct (GetOk "error" state) as [rawErr|] eqn:He.
  - destruct rawErr; simpl; try discriminate.
    intros H; inversion H; subst. split; [reflexivity|]. left.
    split; [reflexivity|]. split; [reflexivity|]. eauto.
  - destruct (Get "ebsvolumes" state) as [[]|] eqn:Hv; simpl; try discriminate.
    destruct (Get "ebssnapshots" state) as [[]|] eqn:Hs; simpl; try discriminate.
    intros H; inversion H; subst. split; [reflexivity|]. right.
    split; [reflexivity|]. split; [reflexivity|].
    eexists. split; [reflexivity|]. simpl.
    split; [reflexivity|]. split; [reflexivity|].
    split; [apply lookup_singleton_eq|reflexivity].
Qed.

(** Whenever [Builder.Run] returns, it returns an artifact or an error and
    never both.  The error is the session's, or the one found in the bag
    under ["error"]; the artifact holds what the bag has under
    ["ebsvolumes"], ["ebssnapshots"] and ["generated_data"], and only then
    does [Run] write its one line on the [Ui].  Without a session no step
    runs. *)
Theorem Builder_Run_artifact_or_error (ctx : Context) (a : option Artifact)
  (e : option error) (state : world value) :
  Builder_Run ctx = Returns (a, e, state) ->
  (a = None <-> e <> None)
  /\ (forall err, Session = inr err ->
        a = None /\ e = Some err /\ trace state = [] /\ bag state = ∅)
  /\ (forall artifact, a = Some artifact ->
        Get "ebsvolumes" state = Some (VEbsVolumes (Volumes artifact))
        /\ Get "ebssnapshots" state = Some (VEbsSnapshots (Snapshots artifact))
        /\ StateData artifact !! "generated_data" = Some (Get "generated_data" state)
        /\ GetOk "error" state = None
        /\ exists before,
             trace state
             = before ++ [UiSay ("Created Volumes: " +:+ Artifact_String artifact)])
  /\ (forall err, e = Some err -> Session = inr err
                                 \/ GetOk "error" state = Some (VError err)).
Proof.
  unfold Ebsvolume.Builder_Run.
  destruct Session as [region|serr].
  - destruct region as [region|]; simpl; [|discriminate].
    destruct (Runner_Run ctx steps (initial_state (Some region))) as [st|] eqn:Hr;
      simpl; [|discriminate].
    intros H. apply finish_one_of in H as [Hbag [(-> & -> & err & -> & Herr)
                                               |(-> & Hnone & art & -> & Hv & Hs & Hg & Ht)]].
    + split; [split; congruence|]. split; [intros ? ?; discriminate|].
      split; [intros ? ?; discriminate|].
      intros err' E. inversion E; subst. right. assumption.
    + split; [split; congruence|]. split; [intros ? ?; discriminate|].
      split; [|intros ? ?; discriminate].
      intros artifact E. inversion E; subst art.
      unfold Get, GetOk in *. rewrite Hbag.
      repeat (split; [assumption|]). exists (trace st). assumption.
  - intros H; inversion H; subst.
    split; [split; congruence|].
    split; [intros err E; inversion E; subst; auto|].
    split; [intros ? ?; discriminate|].
    intros err E. inversion E; subst. left. reflexivity.
Qed.

End BuilderRunMore.

Lemma Builder_Run_artifact_or_error_witness :
  exists artifact state,
    Ebsvolume.Builder_Run (inl (Some "us-east-1")) [Samples.publish_volumes]
      (fun _ => "") Multistep.Background
    = Go.Returns (Some artifact, None, state)
    /\ Multistep.Get "ebsvolumes" state
       = Some (Ebsvolume.VEbsVolumes (Ebsvolume.Volumes artifact))
    /\ Ebsvolume.Volumes artifact = Samples.volumes.
Proof.
  eexists. eexists. split; [reflexivity|].
  split; [|reflexivity].
  apply (Builder_Run_artifact_or_error (inl (Some "us-east-1"))
           [Samples.publish_volumes] (fun _ => "") Multistep.Background
           _ _ _ eq_refl).
  reflexivity.
Defined.

(** ** More on [PostProcess]: what it calls, what it returns *)

Section PostProcessCalls.
Import Go AmazonImport ImportCalls.

Variable env : Env.

Lemma ensures_weaken {A} (m : M A) (P P' : call -> Prop) (Q Q' : A -> Prop)
  (R R' : result -> Prop) :
  ensures m P Q R ->
  (forall x, P x -> P' x) -> (forall a, Q a -> Q' a) -> (forall r, R r -> R' r) ->
  ensures m P' Q' R'.
Proof.
  intros H HP HQ HR t. destruct (H t) as (t' & E & F & O).
  exists t'. split; [assumption|]. split.
  - eapply Forall_impl; [exact F|exact HP].
  - destruct (snd (m t)); auto.
Qed.

Lemma ensures_and {A} (m : M A) (P P' : call -> Prop) (Q Q' : A -> Prop)
  (R R' : result -> Prop) :
  ensures m P Q R -> ensures m P' Q' R' ->
  ensures m (fun x => P x /\ P' x) (fun a => Q a /\ Q' a) (fun r => R r /\ R' r).
Proof.
  intros H H' t. destruct (H t) as (t1 & E1 & F1 & O1).
  destruct (H' t) as (t2 & E2 & F2 & O2).
  assert (t1 = t2) by (rewrite E1 in E2; apply app_inv_head in E2; exact E2).
  subst t2. exists t1. split; [assumption|]. split.
  - rewrite Forall_forall in *. auto.
  - destruct (snd (m t)); auto.
Qed.

Lemma find_source_In (files : list string) (suffix : string) :
  find_source files suffix <> "" -> In (find_source files suffix) files.
Proof.
  induction files as [|path rest IH]; simpl; [congruence|].
  destruct (HasSuffix path suffix); auto.
Qed.

Lemma retry_ImportImage_calls (P : call -> Prop) R tries :
  forall attempt params last,
    P (Ec2ImportImage params) ->
    ensures (retry_ImportImage env tries attempt params last) P (fun _ => True) R.
Proof.
  induction tries as [|tries IH]; intros attempt params last HP; simpl.
  - apply ensures_ret. exact I.
  - eapply ensures_bind with (Q := fun _ => True);
      [apply ensures_do_call; [exact HP|exact I]|intros _ _].
    destruct (ImportImage env attempt params); [apply ensures_ret; exact I|].
    apply IH. exact HP.
Qed.

Ltac calls_step tac :=
  eapply ensures_bind with (Q := fun _ => True);
  [first [apply ensures_do_call; [tac|exact I]
         |apply ensures_check; [auto|auto using failed_is_failure]
         |apply ensures_or_fail; [auto|auto using failed_is_failure]
         |apply ensures_lift; auto]
  |intros ? _].

Section Phases.

(** What is asked of the calls, and of a result that reports a failure. *)
Variable P : call -> Prop.
Variable R : result -> Prop.
Hypothesis failures : forall e, R (failed e).

Lemma rename_calls_allowed (c : Config) region ami :
  (forall s, P (UiMessage s)) ->
  P (Ec2CopyImage (copy_input c region ami)) ->
  (forall id, P (Ec2WaitUntilAMIAvailable id)) ->
  P (Ec2DestroyAMIs [ami]) ->
  ensures (rename env c region ami) P (fun _ => True) R.
Proof.
  intros HU HC HW HD. unfold rename. cbv zeta.
  calls_step ltac:(apply HU). calls_step ltac:(exact HC).
  eapply ensures_bind with (Q := fun _ => True);
    [apply ensures_or_fail; [auto|apply failures]|intros resp _].
  calls_step ltac:(apply HU).
  eapply ensures_bind with (Q := fun _ => True);
    [apply ensures_lift; auto|intros newId _].
  calls_step ltac:(apply HW). calls_step ltac:(idtac).
  calls_step ltac:(apply HU). calls_step ltac:(exact HD).
  calls_step ltac:(idtac). calls_step ltac:(apply HU).
  apply ensures_ret. exact I.
Qed.

Lemma tagging_calls (c : Config) (ami : string) :
  (forall s, P (UiMessage s)) ->
  P (Ec2DescribeImages [ami]) ->
  (forall snapshots,
      P (Ec2CreateTags (ami :: snapshots)
           (map (fun kv => {| tag_Key := fst kv; tag_Value := snd kv |})
                (map_to_list (Tags c))))) ->
  ensures (tagging env c ami) P (fun _ => True) R.
Proof.
  intros HU HD HT. unfold tagging. cbv zeta.
  eapply ensures_bind with (Q := fun _ => True).
  { apply (ensures_messages (fun kv => "Adding tag " +:+ String dquote (fst kv)
                                 +:+ String dquote ": " +:+ String dquote (snd kv)
                                 +:+ String dquote "")). exact HU. }
  intros _ _. calls_step ltac:(exact HD).
  eapply ensures_bind with (Q := fun _ => True);
    [apply ensures_or_fail; [auto|apply failures]|intros imageResp _].
  destruct imageResp as [|image rest].
  { apply ensures_fail, failures. }
  eapply ensures_bind with (Q := fun _ => True).
  { apply (ensures_messages (fun id => "Tagging snapshot " +:+ id)). exact HU. }
  intros _ _. calls_step ltac:(apply HU). calls_step ltac:(apply HT).
  apply ensures_check; [auto|apply failures].
Qed.

Lemma modify_each_calls entries (ami : string) :
  (forall s, P (UiMessage s)) ->
  (forall name input, In (name, input) entries ->
     P (Ec2ModifyImageAttribute name (set_ImageId ami input))) ->
  ensures (modify_each env entries ami) P (fun _ => True) R.
Proof.
  intros HU. induction entries as [|[name input] rest IH]; intros HM; simpl.
  - apply ensures_ret. exact I.
  - calls_step ltac:(apply HU).
    calls_step ltac:(apply HM; left; reflexivity).
    calls_step ltac:(idtac). apply IH. intros n i Hin. apply HM. right. exact Hin.
Qed.

Lemma later_phases_calls (c : Config) region (ami : string) :
  (forall s, P (UiMessage s)) ->
  (Tags c <> ∅ -> P (Ec2DescribeImages [ami])) ->
  (Tags c <> ∅ -> forall snapshots,
      P (Ec2CreateTags (ami :: snapshots)
           (map (fun kv => {| tag_Key := fst kv; tag_Value := snd kv |})
                (map_to_list (Tags c))))) ->
  (forall name input, attribute_options c !! name = Some input ->
     P (Ec2ModifyImageAttribute name (set_ImageId ami input))) ->
  (SkipClean c = false -> P (S3DeleteObject (S3Bucket c) (S3Key c))) ->
  ensures (later_phases env c region ami) P (final_result region ami) R.
Proof.
  intros HU HD HT HM HS. unfold later_phases.
  eapply ensures_bind with (Q := fun _ => True).
  { destruct (Nat.ltb 0 (size (Tags c))) eqn:Hsz; simpl.
    - assert (Hne : Tags c <> ∅).
      { intros E. rewrite E, map_size_empty in Hsz. discriminate. }
      apply tagging_calls; auto.
    - apply ensures_ret. exact I. }
  intros _ _.
  eapply ensures_bind with (Q := fun _ => True).
  { unfold modify_attributes. cbv zeta. apply ensures_when.
    apply modify_each_calls; [exact HU|].
    intros name input Hin. apply HM. apply elem_of_map_to_list.
    apply list_elem_of_In. exact Hin. }
  intros _ _.
  eapply ensures_bind with (Q := fun rn => region = Some rn).
  { apply ensures_lift. destruct region; simpl; congruence. }
  intros rn Hrn. cbv zeta.
  eapply ensures_bind with (Q := fun _ => True).
  { destruct (SkipClean c); simpl.
    - apply ensures_ret. exact I.
    - calls_step ltac:(apply HU). calls_step ltac:(apply HS; reflexivity).
      apply ensures_check; [auto|apply failures]. }
  intros _ _. apply ensures_ret. exists rn. auto.
Qed.

Lemma await_import_calls (c : Config) region import_start taskId :
  (forall s, P (UiMessage s)) ->
  (forall t, P (Ec2WaitUntilImageImported t)) ->
  (forall t, P (Ec2DescribeImportImageTasks t)) ->
  (Name c <> "" -> forall ami,
      P (Ec2CopyImage (copy_input c region ami))
      /\ (forall id, P (Ec2WaitUntilAMIAvailable id))
      /\ P (Ec2DestroyAMIs [ami])) ->
  (Tags c <> ∅ -> forall ami,
      P (Ec2DescribeImages [ami])
      /\ forall snapshots,
           P (Ec2CreateTags (ami :: snapshots)
                (map (fun kv => {| tag_Key := fst kv; tag_Value := snd kv |})
                     (map_to_list (Tags c))))) ->
  (forall name input ami, attribute_options c !! name = Some input ->
     P (Ec2ModifyImageAttribute name (set_ImageId ami input))) ->
  (SkipClean c = false -> P (S3DeleteObject (S3Bucket c) (S3Key c))) ->
  ensures (await_import env c region import_start taskId) P
    (fun r => exists ami, final_result region ami r) R.
Proof.
  intros HU HW HD HN HT HM HS. unfold await_import.
  calls_step ltac:(apply HU). calls_step ltac:(apply HW).
  destruct (WaitUntilImageImported env taskId) as [err|].
  - calls_step ltac:(apply HD).
    eapply ensures_bind with (Q := fun _ => True).
    { destruct (DescribeImportImageTasks env (ImportTaskId import_start)) as [tasks|e].
      - eapply ensures_bind with (Q := fun _ => True);
          [apply ensures_lift; auto|intros task _].
        apply ensures_lift; auto.
      - apply ensures_ret. exact I. }
    intros statusMessage _. apply ensures_fail, failures.
  - calls_step ltac:(apply HD).
    eapply ensures_bind with (Q := fun _ => True);
      [apply ensures_or_fail; [auto|apply failures]|intros tasks _].
    eapply ensures_bind with (Q := fun _ => True);
      [apply ensures_lift; auto|intros task _].
    eapply ensures_bind with (Q := fun _ => True);
      [apply ensures_lift; auto|intros status _].
    destruct (negb (String.eqb status "completed")).
    { eapply ensures_bind with (Q := fun _ => True);
        [apply ensures_lift; auto|intros message _].
      apply ensures_fail, failures. }
    calls_step ltac:(apply HU).
    eapply ensures_bind with (Q := fun _ => True);
      [apply ensures_lift; auto|intros createdami _].
    eapply ensures_bind with (Q := fun _ => True).
    { destruct (String.eqb_spec (Name c) "") as [E|Hne]; simpl.
      - apply ensures_ret. exact I.
      - destruct (HN Hne createdami) as (H1 & H2 & H3).
        apply rename_calls_allowed; assumption. }
    intros ami _.
    eapply ensures_weaken;
      [apply (later_phases_calls c region ami)| | |]; auto.
    + intros Hne. apply (HT Hne ami).
    + intros Hne. apply (HT Hne ami).
    + intros r Hr. exists ami. exact Hr.
Qed.

End Phases.

(** Every call of a run is one the configuration and the artifact allow,
    and every result is well formed. *)
Lemma PostProcess_ensures (c : Config) (artifact : SourceArtifact) :
  ensures (PostProcess env c artifact) (allowed c artifact)
    (fun r => exists region ami, Session env = inl region
                                 /\ final_result region ami r)
    (fun r => exists e, r = failed e).
Proof.
  assert (HR : forall e, (fun r => exists e', r = failed e') (failed e)) by eauto.
  unfold PostProcess. cbv zeta.
  eapply ensures_bind with (Q := fun region => Session env = inl region);
    [apply ensures_or_fail; [auto|apply HR]|intros region Hsess].
  eapply ensures_bind with (Q := fun _ => True);
    [apply ensures_or_fail; [auto|apply HR]|intros key _].
  set (c' := set_S3Key key c).
  set (source := find_source (Files artifact) ("." +:+ Format c')).
  destruct (String.eqb_spec source "") as [E|Hsrc].
  { apply ensures_fail, HR. }
  assert (Hin : In source (Files artifact)) by (apply find_source_In; exact Hsrc).
  eapply ensures_bind with (Q := fun _ => True).
  { apply ensures_when. apply ensures_do_call; exact I. }
  intros _ _. calls_step ltac:(exact Hin). calls_step ltac:(idtac).
  calls_step ltac:(exact I).
  eapply ensures_bind with (Q := fun _ => True).
  { apply ensures_do_call; [|exact I]. simpl.
    split; [exact Hin|]. split; [reflexivity|]. split.
    - destruct (String.eqb (S3Encryption c) ""); reflexivity.
    - intros k. destruct (String.eqb_spec (S3Encryption c) "") as [E|E]; simpl;
        [discriminate|].
      destruct (String.eqb_spec (S3Encryption c) "aws:kms") as [E1|E1]; simpl;
        [|discriminate].
      destruct (String.eqb_spec (S3EncryptionKey c) "") as [E2|E2]; simpl;
        [discriminate|].
      intros H; inversion H; subst. auto. }
  intros _ _. calls_step ltac:(idtac). calls_step ltac:(exact I).
  calls_step ltac:(exact I).
  eapply ensures_bind with (Q := fun _ => True).
  { apply ensures_when. apply ensures_do_call; exact I. }
  intros _ _.
  eapply ensures_bind with (Q := fun _ => True).
  { apply retry_ImportImage_calls. simpl.
    split; [reflexivity|]. split; [reflexivity|].
    intros k. destruct (Encrypt c); simpl; [|discriminate].
    destruct (String.eqb (KMSKey c) ""); simpl; [discriminate|].
    intros H; inversion H; auto. }
  intros started _.
  eapply ensures_bind with (Q := fun _ => True);
    [apply ensures_or_fail; [auto|apply HR]|intros import_start _].
  eapply ensures_bind with (Q := fun _ => True);
    [apply ensures_lift; auto|intros taskId _].
  calls_step ltac:(exact I).
  eapply ensures_weaken;
    [apply (await_import_calls (allowed c artifact) _ HR c' region import_start taskId)
    | | |]; auto; try (intros; exact I).
  - intros Hne ami. simpl. auto.
  - intros Hne ami. simpl. split; [exact Hne|]. intros snapshots.
    split; [exact Hne|]. rewrite length_map. apply length_map_to_list.
  - intros name input ami Hl. simpl. eauto.
  - intros Hs. simpl. auto.
  - intros r [ami Hr]. eauto.
Qed.

(** No call of a run goes beyond what the configuration and the artifact
    allow: the file opened and uploaded is one of the artifact's, the
    upload goes to the configured bucket with the encryption asked for
    (the KMS key only with [aws:kms]); the rename calls are made only
    with a name configured, the tagging calls only with tags, a
    modification only for an entry of the attribute map, and the uploaded
    object is deleted only with [skip_clean] off. *)
Theorem PostProcess_calls_allowed (c : Config) (artifact : SourceArtifact) :
  Forall (allowed c artifact) (fst (run_PostProcess env c artifact))
  /\ (SkipClean c = true -> forall bucket key,
        ~ In (S3DeleteObject bucket key) (fst (run_PostProcess env c artifact)))
  /\ (Name c = "" -> forall input,
        ~ In (Ec2CopyImage input) (fst (run_PostProcess env c artifact)))
  /\ (Tags c = ∅ -> forall resources tags,
        ~ In (Ec2CreateTags resources tags) (fst (run_PostProcess env c artifact))).
Proof.
  assert (Hall : Forall (allowed c artifact) (fst (run_PostProcess env c artifact))).
  { rewrite run_PostProcess_fst.
    destruct (PostProcess_ensures c artifact []) as (t' & E & F & _).
    rewrite E. exact F. }
  split; [exact Hall|]. rewrite List.Forall_forall in Hall.
  split; [|split].
  - intros Hs bucket key Hin. apply Hall in Hin. simpl in Hin.
    destruct Hin as [Hin _]. congruence.
  - intros Hn input Hin. apply Hall in Hin. simpl in Hin. tauto.
  - intros Ht resources tags Hin. apply Hall in Hin. simpl in Hin. tauto.
Qed.

(** Whatever a run meets, what [PostProcess] returns is well formed: the
    input artifact is neither kept nor overridden, there is an artifact or
    an error and not both, and the artifact has one image, in the region
    of the session. *)
Theorem PostProcess_result_well_formed (c : Config) (artifact : SourceArtifact)
  (r : result) :
  snd (run_PostProcess env c artifact) = Returns r ->
  well_formed_result env r.
Proof.
  rewrite run_PostProcess_snd.
  destruct (PostProcess_ensures c artifact []) as (t' & _ & _ & O).
  destruct (snd (PostProcess env c artifact [])) as [r'|r'|why];
    intros H; inversion H; subst r'.
  - destruct O as (region & ami & Hs & rn & -> & ->).
    unfold well_formed_result. simpl.
    split; [reflexivity|]. split; [reflexivity|].
    split; [split; [discriminate|congruence]|].
    intros a Ha. inversion Ha; subst a. simpl. split; [reflexivity|]. eauto.
  - destruct O as [e ->]. unfold well_formed_result. simpl.
    split; [reflexivity|]. split; [reflexivity|].
    split; [split; [discriminate|reflexivity]|]. intros a Ha. discriminate Ha.
Qed.

Lemma substring_all (s : string) : substring 0 (String.length s) s = s.
Proof. induction s as [|a s IH]; simpl; [reflexivity|]. rewrite IH. reflexivity. Qed.

Lemma substring_skip (pre suffix : string) :
  substring (String.length pre) (String.length suffix) (pre +:+ suffix) = suffix.
Proof.
  induction pre as [|a pre IH]; simpl; [apply substring_all|exact IH].
Qed.

Lemma substring_split (s : string) :
  forall a b, a + b = String.length s ->
    s = substring 0 a s +:+ substring a b s.
Proof.
  induction s as [|x s IH]; intros a b H.
  - simpl in H. assert (a = 0) by lia. assert (b = 0) by lia. subst. reflexivity.
  - destruct a as [|a].
    + simpl in H. subst b. symmetry. apply (substring_all (String x s)).
    + change (String x s = String x (substring 0 a s +:+ substring a b s)).
      f_equal. apply IH. simpl in H. lia.
Qed.

Lemma length_append (s t : string) :
  String.length (s +:+ t) = String.length s + String.length t.
Proof. induction s as [|a s IH]; simpl; [reflexivity|]. rewrite IH. reflexivity. Qed.

(** [strings.HasSuffix], as it is meant. *)
Lemma HasSuffix_spec (s suffix : string) :
  HasSuffix s suffix = true <-> exists pre, s = pre +:+ suffix.
Proof.
  unfold HasSuffix. cbv zeta. rewrite andb_true_iff, Nat.leb_le, String.eqb_eq.
  split.
  - intros [Hle Hsub].
    exists (substring 0 (String.length s - String.length suffix) s).
    pose proof (substring_split s (String.length s - String.length suffix)
                  (String.length suffix) ltac:(lia)) as H.
    rewrite Hsub in H. exact H.
  - intros [pre ->]. rewrite length_append. split; [lia|].
    replace (String.length pre + String.length suffix - String.length suffix)
      with (String.length pre) by lia.
    apply substring_skip.
Qed.

Lemma find_source_none (files : list string) (suffix : string) :
  (forall path, In path files -> HasSuffix path suffix = false) ->
  find_source files suffix = "".
Proof.
  induction files as [|path rest IH]; intros H; simpl; [reflexivity|].
  rewrite (H path (or_introl eq_refl)). apply IH.
  intros p Hin. apply H. right. exact Hin.
Qed.

(** The source file is the first file of the artifact whose name ends in a
    dot and the format: the files before it do not end so, and when no
    file does there is no source. *)
Theorem find_source_first (files : list string) (format : string) :
  (find_source files ("." +:+ format) = ""
   <-> forall path, In path files -> HasSuffix path ("." +:+ format) = false)
  /\ (find_source files ("." +:+ format) <> "" ->
      exists before after stem,
        files = before ++ find_source files ("." +:+ format) :: after
        /\ find_source files ("." +:+ format) = stem +:+ "." +:+ format
        /\ forall path, In path before -> HasSuffix path ("." +:+ format) = false).
Proof.
  assert (Hne : forall path, HasSuffix path ("." +:+ format) = true -> path <> "").
  { intros path H ->. apply HasSuffix_spec in H as [pre H].
    destruct pre; discriminate. }
  split.
  - induction files as [|path rest IH]; simpl.
    + split; [intros _ ? []|reflexivity].
    + destruct (HasSuffix path ("." +:+ format)) eqn:Hs.
      * split.
        -- intros E. exfalso. apply (Hne path Hs E).
        -- intros H. rewrite (H path (or_introl eq_refl)) in Hs. discriminate.
      * rewrite IH. split.
        -- intros H p [<-|Hin]; auto.
        -- intros H p Hin. apply H. right. exact Hin.
  - induction files as [|path rest IH]; simpl; [congruence|].
    destruct (HasSuffix path ("." +:+ format)) eqn:Hs.
    + intros _. apply HasSuffix_spec in Hs as [stem Hs].
      exists [], rest, stem. split; [reflexivity|]. split; [exact Hs|]. intros ? [].
    + intros H. destruct (IH H) as (b & a & stem & E & Hst & Hb).
      exists (path :: b), a, stem. split; [simpl; f_equal; exact E|].
      split; [exact Hst|]. intros p [<-|Hin]; auto.
Qed.

(** Without a source file [PostProcess] calls nothing: when no file of the
    artifact ends in a dot and the configured format, the run makes no
    call and returns an error, which names the format when the session and
    the rendering of the key went well. *)
Theorem PostProcess_without_source (c : Config) (artifact : SourceArtifact) :
  (forall path, In path (Files artifact) ->
                HasSuffix path ("." +:+ Format c) = false) ->
  fst (run_PostProcess env c artifact) = []
  /\ (exists e, snd (run_PostProcess env c artifact) = Returns (failed e))
  /\ (forall region key,
        Session env = inl region ->
        interpolate_Render env (S3Key c) (state_generated_data artifact) = inl key ->
        snd (run_PostProcess env c artifact)
        = Returns (failed ("No " +:+ Format c
                           +:+ " image file found in artifact from builder"))).
Proof.
  intros Hno. apply find_source_none in Hno.
  unfold run_PostProcess, PostProcess. cbv zeta.
  destruct (Session env) as [region|e] eqn:Hs.
  2:{ simpl. split; [reflexivity|]. split; [eauto|]. intros; discriminate. }
  rewrite bind_or_fail_inl.
  destruct (interpolate_Render env (S3Key c) (state_generated_data artifact))
    as [key|e] eqn:Hk.
  2:{ simpl. split; [reflexivity|]. split; [eauto|]. intros; discriminate. }
  rewrite bind_or_fail_inl.
  change (Format (set_S3Key key c)) with (Format c). rewrite Hno. simpl.
  split; [reflexivity|]. split; [eauto|]. intros; reflexivity.
Qed.

Lemma retry_ImportImage_trace (tries : nat) :
  forall attempt params last t,
    exists n,
      n <= tries /\ (0 < tries -> 0 < n)
      /\ fst (retry_ImportImage env tries attempt params last t)
         = t ++ repeat (Ec2ImportImage params) n
      /\ exists started,
           snd (retry_ImportImage env tries attempt params last t) = Next started
           /\ (n < tries -> exists out, started = inl out).
Proof.
  induction tries as [|tries IH]; intros attempt params last t; simpl.
  - exists 0. rewrite app_nil_r. repeat split; try lia. exists (inr last).
    split; [reflexivity|lia].
  - rewrite bind_do_call.
    destruct (ImportImage env attempt params) as [out|err].
    + exists 1. simpl. repeat split; try lia. exists (inl out). eauto.
    + destruct (IH (S attempt) params err (t ++ [Ec2ImportImage params]))
        as (n & Hn & _ & E & started & Hs & Hout).
      exists (S n). rewrite E, <- app_assoc. simpl.
      repeat split; try lia. exists started. split; [exact Hs|].
      intros Hlt. apply Hout. lia.
Qed.

Lemma bind_check_Some {B} (e : error) wrap (k : unit -> M B) (t : list call) :
  (check (Some e) wrap ≫= k) t = (t, Return (failed (wrap e))).
Proof. reflexivity. Qed.

(** [ImportImage] is called at most eleven times in a run, every time with
    the same request, and not before the source file has been opened and
    uploaded: a run in which the opening or the upload fails never calls
    it. *)
Theorem PostProcess_import_attempts (c : Config) (artifact : SourceArtifact) :
  exists n params,
    n <= 11
    /\ List.filter is_import_call (fst (run_PostProcess env c artifact))
       = repeat (Ec2ImportImage params) n
    /\ (0 < n ->
        exists region key,
          Session env = inl region
          /\ interpolate_Render env (S3Key c) (state_generated_data artifact) = inl key
          /\ params = import_params (set_S3Key key c)
          /\ os_Open env (find_source (Files artifact) ("." +:+ Format c)) = None
          /\ Upload env (upload_input (set_S3Key key c)
                           (find_source (Files artifact) ("." +:+ Format c))) = None
          /\ In FileClose (fst (run_PostProcess env c artifact))).
Proof.
  rewrite run_PostProcess_fst. unfold PostProcess. cbv zeta.
  assert (Hzero : forall (X : ImportImageInput -> Prop) (t : list call),
             t = [] \/ Forall (fun x => is_import_call x = false) t ->
             exists n params,
               n <= 11
               /\ List.filter is_import_call t = repeat (Ec2ImportImage params) n
               /\ (0 < n -> X params)).
  { intros X t Ht. exists 0, (import_params c). split; [lia|]. split; [|lia].
    destruct Ht as [->|Ht]; [reflexivity|]. apply filter_none. exact Ht. }
  destruct (Session env) as [region|e] eqn:Hs;
    [|cbn [fst]; refine (Hzero (fun params => _) _ _); left; reflexivity].
  rewrite bind_or_fail_inl.
  destruct (interpolate_Render env (S3Key c) (state_generated_data artifact))
    as [key|e] eqn:Hk;
    [|cbn [fst]; refine (Hzero (fun params => _) _ _); left; reflexivity].
  rewrite bind_or_fail_inl.
  change (Format (set_S3Key key c)) with (Format c).
  set (c' := set_S3Key key c).
  set (source := find_source (Files artifact) ("." +:+ Format c)).
  destruct (String.eqb source "");
    [cbn [fst]; refine (Hzero (fun params => _) _ _); left; reflexivity|].
  rewrite bind_when_call, bind_do_call.
  destruct (os_Open env source) as [e|] eqn:Ho.
  { rewrite bind_check_Some. cbn [fst].
    refine (Hzero (fun params => _) _ _). right.
    rewrite Forall_app. split; [|repeat constructor].
    destruct (_ && _); repeat constructor. }
  rewrite bind_check_None, !bind_do_call.
  destruct (Upload env (upload_input c' source)) as [e|] eqn:Hu.
  { rewrite bind_check_Some. cbn [fst].
    refine (Hzero (fun params => _) _ _). right.
    rewrite !Forall_app. repeat split; try (repeat constructor; fail).
    destruct (_ && _); repeat constructor. }
  rewrite bind_check_None, !bind_do_call, bind_when_call.
  match goal with
  | |- context [(retry_ImportImage env 11 0 ?p "" ≫= ?k) ?t] =>
      set (t1 := t); set (rest := k);
      destruct (retry_ImportImage_trace 11 0 p "" t1)
        as (n & Hn & _ & E & started & Hst & _);
      rewrite (bind_unfold (retry_ImportImage env 11 0 p "") rest t1)
  end.
  destruct (retry_ImportImage env 11 0 (import_params c') "" t1) as [t2 o].
  simpl in E, Hst. subst t2 o.
  assert (Hrest : ensures (rest started) (fun x => is_import_call x = false)
                    (fun _ => True) (fun _ => True)).
  { unfold rest.
    eapply ensures_bind with (Q := fun _ => True);
      [apply ensures_or_fail; auto|intros import_start _].
    eapply ensures_bind with (Q := fun _ => True);
      [apply ensures_lift; auto|intros taskId _].
    eapply ensures_bind with (Q := fun _ => True);
      [apply ensures_do_call; [reflexivity|exact I]|intros _ _].
    eapply ensures_weaken;
      [apply (await_import_calls (fun x => is_import_call x = false)
                (fun _ => True) (fun _ => I) c' region import_start taskId)
      | | |]; auto. }
  destruct (Hrest (t1 ++ repeat (Ec2ImportImage (import_params c')) n))
    as (t3 & E3 & F3 & _).
  rewrite E3. exists n, (import_params c'). split; [exact Hn|].
  assert (Ht1 : List.filter is_import_call t1 = []).
  { apply filter_none. unfold t1. rewrite !Forall_app.
    repeat split; try (repeat constructor; fail);
      match goal with |- context [if ?b then _ else _] => destruct b end;
      repeat constructor. }
  split.
  - rewrite !List.filter_app, Ht1, (filter_none _ _ F3), app_nil_r. simpl.
    clear. induction n as [|n IH]; simpl; [reflexivity|]. rewrite IH. reflexivity.
  - intros _. exists region, key. repeat (split; [reflexivity || assumption|]).
    apply in_or_app. left. apply in_or_app. left. unfold t1.
    apply in_or_app. left. apply in_or_app. left. apply in_or_app. right.
    left. reflexivity.
Qed.

Lemma not_later_about_image (ami : string) (x : call) :
  not_later x -> about_image ami x.
Proof. unfold not_later. destruct x; simpl; try discriminate; auto. Qed.

(** The tags and the attributes go to the image the artifact names: in a
    run that returns an artifact, every [DescribeImages], [CreateTags] and
    [ModifyImageAttribute] call is about the image of the artifact, which
    is the imported image when no name is configured and the copy when one
    is. *)
Theorem PostProcess_targets_final_image c artifact region c' import_start taskId
  createdami (r : result) (a : Artifact) :
  import_started env c artifact region c' import_start taskId ->
  import_completed env taskId createdami ->
  snd (run_PostProcess env c artifact) = Returns r ->
  r_artifact r = Some a ->
  exists regionName ami,
    region = Some regionName
    /\ Amis a = {[ regionName := ami ]}
    /\ Forall (about_image ami) (fst (run_PostProcess env c artifact))
    /\ (Name c = "" -> ami = createdami)
    /\ (Name c <> "" ->
        CopyImage env (copy_input c region createdami)
        = inl {| co_ImageId := Some ami |}).
Proof.
  intros Hstart [Hw (task & rest & Hd & Hs & Hi)].
  destruct (PostProcess_started _ _ _ _ _ _ _ Hstart) as (t0 & Ht0 & Hpp).
  destruct Hstart as [_ (key & _ & ->) _ _ _ _ Htask].
  rewrite run_PostProcess_fst, run_PostProcess_snd, Hpp. clear Hpp.
  unfold await_import. rewrite !bind_do_call, Htask, Hw, bind_do_call, Hd.
  rewrite bind_or_fail_inl. simpl index0. rewrite bind_lift_Returns, Hs.
  simpl deref. rewrite bind_lift_Returns, String.eqb_refl.
  change (negb true) with false. cbv iota.
  rewrite bind_do_call, Hi. simpl deref. rewrite bind_lift_Returns.
  change (Name (set_S3Key key c)) with (Name c).
  match goal with
  | |- context [(?m ≫= ?k) ?t] => set (t1 := t); set (renaming := m)
  end.
  assert (Ht1 : forall ami, Forall (about_image ami) t1).
  { intros ami. unfold t1. rewrite !Forall_app.
    repeat split; try (repeat constructor; fail).
    eapply Forall_impl; [exact Ht0|]. apply not_later_about_image. }
  assert (Hren : exists t',
             fst (renaming t1) = t1 ++ t'
             /\ (forall ami, Forall (about_image ami) t')
             /\ match snd (renaming t1) with
                | Next ami =>
                    (Name c = "" -> ami = createdami)
                    /\ (Name c <> "" ->
                        CopyImage env (copy_input c region createdami)
                        = inl {| co_ImageId := Some ami |})
                | Return r' => is_failure r'
                | Panic _ => True
                end).
  { unfold renaming.
    destruct (String.eqb_spec (Name c) "") as [E|Hne];
      [change (negb true) with false|change (negb false) with true]; cbv iota.
    - exists []. simpl. rewrite app_nil_r. split; [reflexivity|].
      split; [constructor|]. split; [reflexivity|contradiction].
    - destruct (rename_spec env (set_S3Key key c) region createdami t1)
        as (t' & E1 & _ & O1).
      exists t'. split; [exact E1|]. split.
      + intros ami.
        destruct (rename_calls_allowed (about_image ami) (fun _ => True)
                    (fun _ => I) (set_S3Key key c) region createdami
                    (fun _ => I) I (fun _ => I) I t1) as (t'' & E2 & F2 & _).
        rewrite E1 in E2. apply app_inv_head in E2. subst t''. exact F2.
      + destruct (snd (rename env (set_S3Key key c) region createdami t1));
          [|exact O1|exact I].
        destruct O1 as (_ & Hc & _). split; [contradiction|]. intros _. exact Hc. }
  destruct Hren as (t' & E1 & F1 & O1).
  rewrite !(bind_unfold renaming _ t1).
  destruct (renaming t1) as [t2 [ami|r'|why]]; simpl in E1, O1; subst t2.
  - cbv beta.
    destruct (later_phases_calls (about_image ami) is_failure failed_is_failure
                (set_S3Key key c) region ami (fun _ => I)
                (fun _ => eq_refl)
                (fun _ snapshots => ex_intro _ snapshots eq_refl)
                (fun _ _ _ => eq_refl) (fun _ => I) (t1 ++ t'))
      as (t'' & E2 & F2 & O2).
    intros Hr Ha. rewrite E2.
    destruct (snd (later_phases env (set_S3Key key c) region ami (t1 ++ t')))
      as [r'|r'|why]; simpl in Hr.
    + inversion Hr; subst r'. destruct O2 as (regionName & Hreg & ->).
      simpl in Ha. inversion Ha; subst a. exists regionName, ami.
      split; [assumption|]. split; [reflexivity|]. split; [|exact O1].
      rewrite !Forall_app. auto.
    + inversion Hr; subst r'. destruct O2 as [Hnone _]. congruence.
    + discriminate Hr.
  - simpl. intros Hr Ha. inversion Hr; subst r'.
    destruct O1 as [Hnone _]. congruence.
  - simpl. intros Hr. discriminate Hr.
Qed.

Lemma bind_Next_inv {A B} (m : M A) (k : A -> M B) (t t' : list call) (b : B) :
  (m ≫= k) t = (t', Next b) ->
  exists a t1, m t = (t1, Next a) /\ k a t1 = (t', Next b).
Proof.
  rewrite bind_unfold. destruct (m t) as [t1 [a|r|why]]; intros H;
    [eauto|discriminate|discriminate].
Qed.

Lemma modify_each_all entries (ami : string) (t t' : list call) :
  modify_each env entries ami t = (t', Next tt) ->
  List.filter is_modify_call t'
  = List.filter is_modify_call t
    ++ map (fun entry => Ec2ModifyImageAttribute (fst entry)
                           (set_ImageId ami (snd entry))) entries
  /\ Forall (fun entry => ModifyImageAttribute env (set_ImageId ami (snd entry)) = None)
       entries.
Proof.
  revert t. induction entries as [|[name input] rest IH]; intros t; simpl.
  - intros H; inversion H; subst. rewrite app_nil_r. split; [reflexivity|constructor].
  - rewrite !bind_do_call.
    destruct (ModifyImageAttribute env (set_ImageId ami input)) as [e|] eqn:Hm.
    + rewrite bind_check_Some. discriminate.
    + rewrite bind_check_None. intros H. apply IH in H as [H F].
      rewrite H, !List.filter_app. simpl. rewrite app_nil_r, <- app_assoc.
      split; [reflexivity|]. constructor; assumption.
Qed.

Lemma ensures_Next {A} (m : M A) P (Q : A -> Prop) R (t t' : list call) (a : A) :
  ensures m P Q R -> m t = (t', Next a) ->
  exists t1, t' = t ++ t1 /\ Forall P t1.
Proof.
  intros H E. destruct (H t) as (t1 & E1 & F1 & _). rewrite E in E1.
  simpl in E1. eauto.
Qed.

(** When the last phases go through, every entry of the attribute map has
    been sent, once, with the image filled in, and each was accepted. *)
Lemma later_phases_modifies_all (c : Config) region (ami : string) (t t' : list call)
  (r : result) :
  later_phases env c region ami t = (t', Next r) ->
  List.filter is_modify_call t'
  = List.filter is_modify_call t
    ++ map (fun entry => Ec2ModifyImageAttribute (fst entry)
                           (set_ImageId ami (snd entry)))
           (map_to_list (attribute_options c)).
Proof.
  unfold later_phases. intros H.
  apply bind_Next_inv in H as ([] & t1 & Htag & H).
  apply bind_Next_inv in H as ([] & t2 & Hmod & H).
  apply bind_Next_inv in H as (rn & t3 & Hreg & H). cbv zeta in H.
  apply bind_Next_inv in H as ([] & t4 & Hdel & H).
  inversion H; subst t4. clear H.
  assert (Hnm : forall x, match x with Ec2ModifyImageAttribute _ _ => False | _ => True end
                          -> is_modify_call x = false).
  { intros x. destruct x; simpl; tauto. }
  assert (E1 : List.filter is_modify_call t1 = List.filter is_modify_call t).
  { destruct (Nat.ltb 0 (size (Tags c))); simpl in Htag.
    - eapply ensures_Next in Htag as (ta & -> & Fa);
        [|apply (tagging_calls (fun x => is_modify_call x = false) (fun _ => True)
                   (fun _ => I) c ami); intros; reflexivity].
      rewrite List.filter_app, (filter_none _ _ Fa). apply app_nil_r.
    - inversion Htag; reflexivity. }
  assert (E3 : t3 = t2).
  { destruct region; simpl in Hreg; inversion Hreg; reflexivity. }
  subst t3.
  assert (E4 : List.filter is_modify_call t' = List.filter is_modify_call t2).
  { destruct (SkipClean c); simpl in Hdel.
    - inversion Hdel; reflexivity.
    - rewrite !bind_do_call in Hdel.
      destruct (DeleteObject env (S3Bucket c) (S3Key c)); simpl in Hdel;
        inversion Hdel; subst.
      rewrite !List.filter_app. simpl. rewrite !app_nil_r. reflexivity. }
  rewrite E4. unfold modify_attributes in Hmod. cbv zeta in Hmod.
  destruct (Nat.ltb 0 (size (attribute_options c))) eqn:Hsz; simpl in Hmod.
  - apply modify_each_all in Hmod as [Hmod _]. rewrite Hmod, E1. reflexivity.
  - inversion Hmod; subst t2. rewrite E1.
    assert (Hempty : map_to_list (attribute_options c) = []).
    { apply Nat.ltb_ge in Hsz. apply map_to_list_empty_iff.
      apply map_size_empty_iff. lia. }
    rewrite Hempty. simpl. rewrite app_nil_r. reflexivity.
Qed.

(** In a run that returns an artifact every modification the configuration
    asks for has been made: the [ModifyImageAttribute] calls are the
    entries of the attribute map, one call each, every one with the image
    of the artifact. *)
Theorem PostProcess_modifies_all c artifact region c' import_start taskId
  createdami (r : result) (a : Artifact) :
  import_started env c artifact region c' import_start taskId ->
  import_completed env taskId createdami ->
  snd (run_PostProcess env c artifact) = Returns r ->
  r_artifact r = Some a ->
  exists regionName ami,
    Amis a = {[ regionName := ami ]}
    /\ List.filter is_modify_call (fst (run_PostProcess env c artifact))
       = map (fun entry => Ec2ModifyImageAttribute (fst entry)
                             (set_ImageId ami (snd entry)))
             (map_to_list (attribute_options c))
    /\ length (List.filter is_modify_call (fst (run_PostProcess env c artifact)))
       = size (attribute_options c).
Proof.
  intros Hstart [Hw (task & rest & Hd & Hs & Hi)].
  destruct (PostProcess_started _ _ _ _ _ _ _ Hstart) as (t0 & Ht0 & Hpp).
  destruct Hstart as [_ (key & _ & ->) _ _ _ _ Htask].
  rewrite run_PostProcess_fst, run_PostProcess_snd, Hpp. clear Hpp.
  unfold await_import. rewrite !bind_do_call, Htask, Hw, bind_do_call, Hd.
  rewrite bind_or_fail_inl. simpl index0. rewrite bind_lift_Returns, Hs.
  simpl deref. rewrite bind_lift_Returns, String.eqb_refl.
  change (negb true) with false. cbv iota.
  rewrite bind_do_call, Hi. simpl deref. rewrite bind_lift_Returns.
  match goal with
  | |- context [(?m ≫= ?k) ?t] => set (t1 := t); set (renaming := m)
  end.
  assert (Ht1 : List.filter is_modify_call t1 = []).
  { apply filter_none. unfold t1. rewrite !Forall_app.
    repeat split; try (repeat constructor; fail).
    eapply Forall_impl; [exact Ht0|].
    intros x. unfold not_later. destruct x; simpl; congruence. }
  assert (Hren : ensures renaming (fun x => is_modify_call x = false)
                   (fun _ => True) is_failure).
  { unfold renaming. destruct (negb _).
    - apply rename_calls_allowed; try reflexivity; intros;
        try reflexivity; apply failed_is_failure.
    - apply ensures_ret. exact I. }
  destruct (Hren t1) as (t' & E1 & F1 & O1).
  rewrite !(bind_unfold renaming _ t1).
  destruct (renaming t1) as [t2 [ami|r'|why]]; simpl in E1, O1; subst t2.
  - cbv beta.
    destruct (later_phases env (set_S3Key key c) region ami (t1 ++ t'))
      as [t3 [r'|r'|why]] eqn:Hlater; simpl; intros Hr Ha;
      [|inversion Hr; subst r'|discriminate Hr].
    + inversion Hr; subst r'.
      destruct (later_phases_ensures env (set_S3Key key c) region ami (t1 ++ t'))
        as (t'' & _ & _ & O2).
      rewrite Hlater in O2. simpl in O2. destruct O2 as (regionName & Hreg & ->).
      simpl in Ha. inversion Ha; subst a.
      apply later_phases_modifies_all in Hlater.
      rewrite List.filter_app, Ht1, (filter_none _ _ F1) in Hlater. simpl in Hlater.
      exists regionName, ami. split; [reflexivity|].
      split; [exact Hlater|]. rewrite Hlater, length_map.
      apply length_map_to_list.
    + destruct (later_phases_ensures env (set_S3Key key c) region ami (t1 ++ t'))
        as (t'' & _ & _ & O2).
      rewrite Hlater in O2. simpl in O2. destruct O2 as [Hnone _]. congruence.
  - simpl. intros Hr Ha. inversion Hr; subst r'. destruct O1 as [Hnone _]. congruence.
  - simpl. intros Hr. discriminate Hr.
Qed.

End PostProcessCalls.

Lemma PostProcess_result_well_formed_witness :
  exists r,
    snd (AmazonImport.run_PostProcess (Samples.aws None "completed")
           Samples.import_config Samples.built) = Go.Returns r
    /\ ImportCalls.well_formed_result (Samples.aws None "completed") r.
Proof.
  eexists. split; [vm_compute; reflexivity|].
  apply (PostProcess_result_well_formed (Samples.aws None "completed")
           Samples.import_config Samples.built).
  vm_compute. reflexivity.
Defined.

Lemma PostProcess_without_source_witness :
  fst (AmazonImport.run_PostProcess (Samples.aws None "completed")
         Samples.import_config
         {| AmazonImport.generated_data := None;
            AmazonImport.Files := ["out/disk.vmdk"; "out/disk.ovf"] |}) = []
  /\ snd (AmazonImport.run_PostProcess (Samples.aws None "completed")
            Samples.import_config
            {| AmazonImport.generated_data := None;
               AmazonImport.Files := ["out/disk.vmdk"; "out/disk.ovf"] |})
     = Go.Returns (AmazonImport.failed
                     "No ova image file found in artifact from builder").
Proof.
  destruct (PostProcess_without_source (Samples.aws None "completed")
              Samples.import_config
              {| AmazonImport.generated_data := None;
                 AmazonImport.Files := ["out/disk.vmdk"; "out/disk.ovf"] |})
    as (H1 & _ & H3).
  - intros path [<-|[<-|[]]]; reflexivity.
  - split; [exact H1|]. exact (H3 _ _ eq_refl eq_refl).
Defined.

Lemma PostProcess_targets_final_image_witness :
  exists ami,
    AmazonImport.CopyImage (Samples.aws None "completed")
      (AmazonImport.copy_input Samples.import_config (Some "us-east-1") "ami-1")
    = inl {| AmazonImport.co_ImageId := Some ami |}
    /\ Forall (ImportCalls.about_image ami)
         (fst (AmazonImport.run_PostProcess (Samples.aws None "completed")
                 Samples.import_config Samples.built)).
Proof.
  assert (Hs : AmazonImport.import_started (Samples.aws None "completed")
               Samples.import_config Samples.built (Some "us-east-1")
               Samples.import_config
               {| AmazonImport.ImportTaskId := Some "import-ami-1" |}
               "import-ami-1").
  { constructor; try reflexivity.
    - exists "disk.ova". split; reflexivity.
    - vm_compute. discriminate.
    - exists 2. split; [lia|]. split; [|reflexivity].
      intros k Hk. exists "RequestLimitExceeded".
      destruct k as [|[|k]]; [reflexivity|reflexivity|lia]. }
  assert (Hc : AmazonImport.import_completed (Samples.aws None "completed")
                 "import-ami-1" "ami-1").
  { constructor; [reflexivity|]. eexists. eexists.
    split; [reflexivity|]. split; reflexivity. }
  edestruct (PostProcess_targets_final_image (Samples.aws None "completed")
               Samples.import_config Samples.built)
    as (rn & ami & _ & _ & HF & _ & Hcopy);
    [exact Hs|exact Hc|vm_compute; reflexivity|reflexivity|].
  exists ami. split; [|exact HF]. apply Hcopy. discriminate.
Defined.

Lemma PostProcess_modifies_all_witness :
  exists ami,
    List.filter ImportCalls.is_modify_call
      (fst (AmazonImport.run_PostProcess (Samples.aws None "completed")
              Samples.import_config Samples.built))
    = map (fun entry =>
             AmazonImport.Ec2ModifyImageAttribute (fst entry)
               (AmazonImport.set_ImageId ami (snd entry)))
          (map_to_list (AmazonImport.attribute_options Samples.import_config)).
Proof.
  assert (Hs : AmazonImport.import_started (Samples.aws None "completed")
               Samples.import_config Samples.built (Some "us-east-1")
               Samples.import_config
               {| AmazonImport.ImportTaskId := Some "import-ami-1" |}
               "import-ami-1").
  { constructor; try reflexivity.
    - exists "disk.ova". split; reflexivity.
    - vm_compute. discriminate.
    - exists 2. split; [lia|]. split; [|reflexivity].
      intros k Hk. exists "RequestLimitExceeded".
      destruct k as [|[|k]]; [reflexivity|reflexivity|lia]. }
  assert (Hc : AmazonImport.import_completed (Samples.aws None "completed")
                 "import-ami-1" "ami-1").
  { constructor; [reflexivity|]. eexists. eexists.
    split; [reflexivity|]. split; reflexivity. }
  edestruct (PostProcess_modifies_all (Samples.aws None "completed")
               Samples.import_config Samples.built)
    as (rn & ami & _ & HF & _);
    [exact Hs|exact Hc|vm_compute; reflexivity|reflexivity|].
  exists ami. exact HF.
Defined.

(** ** More on [Configure]: the defaults, and what success leaves *)

Section ConfigureMore.
Import Go AmazonImport.

Variable raw : Type.
Variable config_Decode : list raw -> Config + error.
Variable IsValidBootMode : string -> option error.
Variable interpolate_Validate : string -> option error.
Variable AccessConfig_Prepare : list raw -> list error.
Variable env : gmap string string.
Variable config_Decode_receiver : Config -> list raw -> Config.
Variable log_Println : Config -> string.

Local Abbreviation Configure :=
  (AmazonImport.Configure raw config_Decode IsValidBootMode
     interpolate_Validate AccessConfig_Prepare env config_Decode_receiver
     log_Println).
Local Abbreviation configure_reported :=
  (AmazonImport.configure_reported raw IsValidBootMode interpolate_Validate
     AccessConfig_Prepare).
Local Abbreviation collected :=
  (AmazonImport.collected raw IsValidBootMode interpolate_Validate
     AccessConfig_Prepare).

(** The polling configuration [Configure] logs about: the decoded one, or a
    new one. *)
Local Abbreviation polling_of d :=
  (match PollingConfig d with
   | Some w => w
   | None => {| Polling.MaxAttempts := 0; Polling.DelaySeconds := 0 |}
   end).

(** The configuration and the log lines [Configure] leaves, by the error
    it returns. *)
Lemma Configure_config before raws d :
  config_Decode raws = inl d ->
  fst (fst (Configure before raws))
  = match snd (fst (Configure before raws)) with
    | None => set_PollingConfig (Some (polling_of d)) (defaults d)
    | Some _ => defaults d
    end
  /\ snd (Configure before raws)
     = match snd (fst (Configure before raws)) with
       | None =>
           snd (Polling.LogEnvOverrideWarnings (polling_of d) env)
           ++ [log_Println (set_PollingConfig (Some (polling_of d)) (defaults d))]
       | Some _ => []
       end.
Proof.
  intros Hd. unfold AmazonImport.Configure, defaults. rewrite Hd.
  destruct (String.eqb (Format d) "") eqn:Hf;
    cbn [S3Key Format Architecture BootMode set_Format update];
  destruct (String.eqb (S3Key d) "") eqn:Hk;
    cbn [S3Key Format Architecture BootMode set_S3Key set_Format update];
  destruct (String.eqb (Architecture d) "") eqn:Ha;
    cbn [S3Key Format Architecture BootMode set_S3Key set_Format
         set_Architecture update];
  destruct (String.eqb (BootMode d) "") eqn:Hb;
    cbn [S3Key Format Architecture BootMode set_S3Key set_Format
         set_Architecture update];
  try destruct (String.eqb (Architecture d) "arm64") eqn:Harm;
  cbn [S3Key Format Architecture BootMode set_S3Key set_Format
         set_Architecture update String.eqb Ascii.eqb Bool.eqb];
  match goal with
  | |- context [Nat.ltb 0 (length ?l)] => destruct l
  end; split; reflexivity.
Qed.

Lemma defaults_fields d :
  Format (defaults d) = (if String.eqb (Format d) "" then "ova" else Format d)
  /\ Architecture (defaults d)
     = (if String.eqb (Architecture d) "" then "x86_64" else Architecture d)
  /\ S3Key (defaults d)
     = (if String.eqb (S3Key d) ""
        then "packer-import-{{timestamp}}." +:+ Format (defaults d) else S3Key d)
  /\ BootMode (defaults d)
     = (if String.eqb (BootMode d) ""
        then if String.eqb (Architecture (defaults d)) "arm64"
             then "uefi" else "legacy-bios"
        else BootMode d)
  /\ PollingConfig (defaults d) = PollingConfig d.
Proof.
  unfold defaults.
  destruct (String.eqb (Format d) "") eqn:Hf;
    cbn [S3Key Format Architecture BootMode set_Format update];
  destruct (String.eqb (S3Key d) "") eqn:Hk;
    cbn [S3Key Format Architecture BootMode set_S3Key set_Format update];
  destruct (String.eqb (Architecture d) "") eqn:Ha;
    cbn [S3Key Format Architecture BootMode set_S3Key set_Format
         set_Architecture update];
  destruct (String.eqb (BootMode d) "") eqn:Hb;
    cbn [S3Key Format Architecture BootMode set_S3Key set_Format
         set_Architecture update];
  try destruct (String.eqb (Architecture d) "arm64") eqn:Harm;
  cbn [S3Key Format Architecture BootMode PollingConfig set_S3Key set_Format
       set_Architecture set_BootMode update String.eqb Ascii.eqb Bool.eqb];
  rewrite ?Hf, ?Hk, ?Ha, ?Hb, ?Harm; repeat split; reflexivity.
Qed.

(** [Configure] fills in what was left empty and nothing else: the format
    defaults to [ova], the architecture to [x86_64], the key to a
    timestamped name with the format (defaulted first) as its extension,
    the boot mode to [uefi] on [arm64] and to [legacy-bios] otherwise; a
    value that was set is kept, valid or not, and the defaults are written
    whether or not errors are returned.  When the input does not decode,
    the decoder's error is returned as it is. *)
Theorem Configure_defaults (before : Config) (raws : list raw) :
  (forall d, config_Decode raws = inl d ->
     let c := fst (fst (Configure before raws)) in
     Format c = (if String.eqb (Format d) "" then "ova" else Format d)
     /\ Architecture c
        = (if String.eqb (Architecture d) "" then "x86_64" else Architecture d)
     /\ S3Key c
        = (if String.eqb (S3Key d) ""
           then "packer-import-{{timestamp}}." +:+ Format c else S3Key d)
     /\ BootMode c
        = (if String.eqb (BootMode d) ""
           then if String.eqb (Architecture c) "arm64" then "uefi" else "legacy-bios"
           else BootMode d)
     /\ S3Bucket c = S3Bucket d /\ Platform c = Platform d
     /\ S3Encryption c = S3Encryption d /\ AMIIMDSSupport c = AMIIMDSSupport d)
  /\ (forall err, config_Decode raws = inr err ->
        snd (fst (Configure before raws)) = Some (DecodeError err)).
Proof.
  split.
  - intros d Hd. destruct (Configure_config before raws d Hd) as [Hc _].
    cbv zeta. rewrite Hc.
    destruct (defaults_fields d) as (H1 & H2 & H3 & H4 & _).
    destruct (defaults_frame d) as (H5 & H6 & H7 & H8).
    destruct (snd (fst (Configure before raws)));
      cbn [S3Bucket S3Key S3Encryption AMIIMDSSupport Format Architecture BootMode
           Platform set_PollingConfig update];
      rewrite H1 in *; rewrite H2 in *; rewrite H3, H4, H5, H6, H7, H8;
      repeat split; reflexivity.
  - intros err Hd. unfold AmazonImport.Configure. rewrite Hd. reflexivity.
Qed.


End ConfigureMore.


(** ** More on [common/ami_config.go]: membership, KMS keys, what [Prepare] writes *)

Section AmiConfigMore.
Import Go Regexp AmiConfig.

(** [stringInSlice] decides membership: it is true exactly for the strings
    of the slice, so never for the empty slice, and for two slices put
    together it is the disjunction. *)
Theorem stringInSlice_membership (s : list string) (searchstr : string) :
  (stringInSlice s searchstr = true <-> In searchstr s)
  /\ (stringInSlice s searchstr = false <-> ~ In searchstr s)
  /\ (forall t, stringInSlice (s ++ t) searchstr
                = stringInSlice s searchstr || stringInSlice t searchstr).
Proof.
  assert (Hin : forall l, stringInSlice l searchstr = true <-> In searchstr l).
  { induction l as [|y l IH]; simpl.
    - split; [discriminate|tauto].
    - destruct (String.eqb_spec y searchstr) as [->|Hne].
      + split; auto.
      + rewrite IH. split; [auto|intros [H|H]; [contradiction|assumption]]. }
  split; [apply Hin|]. split.
  - rewrite <- Hin. destruct (stringInSlice s searchstr); split; congruence.
  - intros t. induction s as [|y s IH]; simpl; [reflexivity|].
    destruct (String.eqb y searchstr); [reflexivity|exact IH].
Qed.

Lemma ValidateKmsKey_any (kmsKey : string) :
  MatchString (anchored kmsKeyIdPattern) kmsKey = true
  \/ MatchString (anchored mrkKeyIdPattern) kmsKey = true
  \/ MatchString (anchored aliasPattern) kmsKey = true
  \/ MatchString (anchored (Cat kmsArnStartPattern
                              (Cat (Lit "key/") kmsKeyIdPattern))) kmsKey = true
  \/ MatchString (anchored (Cat kmsArnStartPattern
                              (Cat (Lit "key/") mrkKeyIdPattern))) kmsKey = true
  \/ MatchString (anchored (Cat kmsArnStartPattern aliasPattern)) kmsKey = true
  <-> ValidateKmsKey kmsKey = true.
Proof.
  unfold ValidateKmsKey.
  repeat match goal with
         | |- context [if ?b then _ else _] => destruct b
         end; intuition congruence.
Qed.

Lemma Matches_Lit (s : string) : Matches (Lit s) (list_ascii_of_string s).
Proof.
  induction s as [|c s IH]; simpl; [constructor|].
  change (c :: list_ascii_of_string s) with ([c] ++ list_ascii_of_string s).
  constructor; [|exact IH]. constructor. apply Ascii.eqb_refl.
Qed.

Lemma Matches_alias (name : string) :
  name <> "" -> forallb aliasClass (list_ascii_of_string name) = true ->
  Matches aliasPattern (list_ascii_of_string ("alias/" +:+ name)).
Proof.
  intros Hne Hall. rewrite list_ascii_of_string_app. constructor.
  - apply Matches_Lit.
  - destruct name as [|c name]; [contradiction|]. simpl in *.
    apply andb_true_iff in Hall as [Hc Hrest]. now apply Matches_Plus_class.
Qed.

Lemma Matches_mrk (id : string) :
  key_id_shape id = true ->
  Matches mrkKeyIdPattern (list_ascii_of_string ("mrk-" +:+ id)).
Proof.
  intros H. rewrite list_ascii_of_string_app. constructor.
  - apply Matches_Lit.
  - now apply kmsKeyIdPattern_matches.
Qed.

(** The forms [ValidateKmsKey] accepts, whatever their length: a key id (a
    hexadecimal digit, then at least one hexadecimal digit or dash), a
    multi-region key id ([mrk-] and a key id), an alias ([alias/] and a
    non-empty name of letters, digits, [:], [/], [_] and [-]), and each of
    the three behind the opening of an ARN ([key/] before the key ids).
    The 36 characters of a real key id are not asked for. *)
Theorem ValidateKmsKey_accepts_forms :
  (forall id, key_id_shape id = true -> ValidateKmsKey id = true)
  /\ (forall id, key_id_shape id = true -> ValidateKmsKey ("mrk-" +:+ id) = true)
  /\ (forall name, name <> "" ->
        forallb aliasClass (list_ascii_of_string name) = true ->
        ValidateKmsKey ("alias/" +:+ name) = true)
  /\ (forall prefix id,
        accepts kmsArnStartPattern (list_ascii_of_string prefix) = true ->
        key_id_shape id = true ->
        ValidateKmsKey (prefix +:+ "key/" +:+ id) = true
        /\ ValidateKmsKey (prefix +:+ "key/" +:+ "mrk-" +:+ id) = true)
  /\ (forall prefix name,
        accepts kmsArnStartPattern (list_ascii_of_string prefix) = true ->
        name <> "" -> forallb aliasClass (list_ascii_of_string name) = true ->
        ValidateKmsKey (prefix +:+ "alias/" +:+ name) = true)
  /\ ValidateKmsKey "ab" = true.
Proof.
  split; [|split; [|split; [|split; [|split]]]].
  - intros id H. apply ValidateKmsKey_any. left.
    apply MatchString_anchored. now apply kmsKeyIdPattern_matches.
  - intros id H. apply ValidateKmsKey_any. right. left.
    apply MatchString_anchored. now apply Matches_mrk.
  - intros name Hne H. apply ValidateKmsKey_any. right. right. left.
    apply MatchString_anchored. now apply Matches_alias.
  - intros prefix id Hp H. split; apply ValidateKmsKey_any.
    + do 3 right. left. apply MatchString_anchored.
      rewrite !list_ascii_of_string_app.
      constructor; [now apply accepts_sound|].
      constructor; [apply Matches_Lit|]. now apply kmsKeyIdPattern_matches.
    + do 4 right. left. apply MatchString_anchored.
      rewrite (list_ascii_of_string_app prefix).
      rewrite (list_ascii_of_string_app "key/").
      constructor; [now apply accepts_sound|].
      constructor; [apply Matches_Lit|]. now apply Matches_mrk.
  - intros prefix name Hp Hne H. apply ValidateKmsKey_any. do 5 right.
    apply MatchString_anchored. rewrite (list_ascii_of_string_app prefix).
    constructor; [now apply accepts_sound|]. now apply Matches_alias.
  - vm_compute. reflexivity.
Qed.

Lemma Matches_Star_class_inv (p : ascii -> bool) :
  forall r l, Matches r l -> r = Star (Class p) -> forallb p l = true.
Proof.
  induction 1; intros E; try discriminate; [reflexivity|].
  injection E as ->. inversion H; subst. simpl.
  match goal with Hc : p _ = true |- _ => rewrite Hc end.
  simpl. now apply IHMatches2.
Qed.

Lemma Matches_Plus_class_inv (p : ascii -> bool) (l : list ascii) :
  Matches (Plus (Class p)) l ->
  exists c rest, l = c :: rest /\ p c = true /\ forallb p rest = true.
Proof.
  unfold Plus. intros H. apply Matches_Cat_inv in H as (s1 & s2 & -> & H1 & H2).
  inversion H1; subst. exists c, s2. split; [reflexivity|]. split; [assumption|].
  now apply (Matches_Star_class_inv p _ _ H2).
Qed.

(** A text matched by a pattern that closes with one or more characters of
    a class closes with a character of the class. *)
Lemma Matches_Plus_last (p : ascii -> bool) (l : list ascii) :
  Matches (Plus (Class p)) l -> exists body c, l = body ++ [c] /\ p c = true.
Proof.
  intros H. apply Matches_Plus_class_inv in H as (c & rest & -> & Hc & Hrest).
  destruct (exists_last (l := c :: rest) ltac:(discriminate)) as (body & d & E).
  exists body, d. split; [exact E|].
  assert (Hall : forallb p (c :: rest) = true) by (simpl; now rewrite Hc).
  rewrite E, forallb_app in Hall. apply andb_true_iff in Hall as [_ Hd].
  simpl in Hd. now rewrite andb_true_r in Hd.
Qed.

Lemma Matches_Cat_last (a b : re) (p : ascii -> bool) (l : list ascii) :
  nullable a = false ->
  (forall t, Matches b t -> exists body c, t = body ++ [c] /\ p c = true) ->
  Matches (Cat a b) l ->
  exists body c, l = body ++ [c] /\ body <> [] /\ p c = true.
Proof.
  intros Hn Hb H. apply Matches_Cat_inv in H as (s1 & s2 & -> & H1 & H2).
  destruct (Hb s2 H2) as (body & c & -> & Hc).
  exists (s1 ++ body), c. split; [apply app_assoc|]. split; [|exact Hc].
  intros E. apply app_eq_nil in E as [E _]. subst s1.
  rewrite (nullable_complete a [] H1 eq_refl) in Hn. discriminate.
Qed.

Lemma hexDash_alias (c : ascii) : hexDashClass c = true -> aliasClass c = true.
Proof.
  unfold hexDashClass, aliasClass, is_lower, is_digit, is_upper, in_range.
  rewrite !orb_true_iff, !andb_true_iff, !Nat.leb_le.
  intros [[[H1 H2]|H]|H].
  - left. left. left. left. left. left. split; [exact H1|].
    change (nat_of_ascii "f") with 102 in H2. change (nat_of_ascii "z") with 122. lia.
  - do 4 left. right. exact H.
  - right. exact H.
Qed.

(** What [ValidateKmsKey] never accepts: every accepted text has at least
    two characters and its last one is a letter, a digit or one of [:],
    [/], [_], [-]; so the empty text, a single character, and a text that
    ends in a blank or a line break are all refused. *)
Theorem ValidateKmsKey_accepted_shape (kmsKey : string) :
  ValidateKmsKey kmsKey = true ->
  exists body c,
    list_ascii_of_string kmsKey = body ++ [c]
    /\ body <> [] /\ aliasClass c = true.
Proof.
  intros H. apply ValidateKmsKey_any in H.
  assert (Hkey : forall t, Matches kmsKeyIdPattern t ->
                   exists body c, t = body ++ [c] /\ aliasClass c = true).
  { intros t Ht. unfold kmsKeyIdPattern in Ht.
    apply (Matches_Cat_last _ _ hexDashClass) in Ht as (body & c & E & _ & Hc);
      [|reflexivity|apply Matches_Plus_last].
    exists body, c. split; [exact E|]. now apply hexDash_alias. }
  assert (Hmrk : forall t, Matches mrkKeyIdPattern t ->
                   exists body c, t = body ++ [c] /\ aliasClass c = true).
  { intros t Ht. unfold mrkKeyIdPattern in Ht.
    apply (Matches_Cat_last _ _ aliasClass) in Ht as (body & c & E & _ & Hc);
      [eauto|reflexivity|exact Hkey]. }
  assert (Halias : forall t, Matches aliasPattern t ->
                     exists body c, t = body ++ [c] /\ aliasClass c = true).
  { intros t Ht. unfold aliasPattern in Ht.
    apply (Matches_Cat_last _ _ aliasClass) in Ht as (body & c & E & _ & Hc);
      [eauto|reflexivity|apply Matches_Plus_last]. }
  assert (Hslash : forall b t,
             (forall t, Matches b t -> exists body c, t = body ++ [c] /\ aliasClass c = true) ->
             Matches (Cat (Lit "key/") b) t ->
             exists body c, t = body ++ [c] /\ aliasClass c = true).
  { intros b t Hb Ht.
    apply (Matches_Cat_last _ _ aliasClass) in Ht as (body & c & E & _ & Hc);
      [eauto|reflexivity|exact Hb]. }
  destruct H as [H|[H|[H|[H|[H|H]]]]]; apply MatchString_anchored in H.
  - unfold kmsKeyIdPattern in H.
    apply (Matches_Cat_last _ _ hexDashClass) in H as (body & c & E & Hne & Hc);
      [|reflexivity|apply Matches_Plus_last].
    exists body, c. repeat split; auto. now apply hexDash_alias.
  - apply (Matches_Cat_last _ _ aliasClass) in H; [exact H|reflexivity|exact Hkey].
  - apply (Matches_Cat_last _ _ aliasClass) in H;
      [exact H|reflexivity|apply Matches_Plus_last].
  - apply (Matches_Cat_last _ _ aliasClass) in H;
      [exact H|vm_compute; reflexivity|].
    intros t Ht. apply (Hslash _ _ Hkey Ht).
  - apply (Matches_Cat_last _ _ aliasClass) in H;
      [exact H|vm_compute; reflexivity|].
    intros t Ht. apply (Hslash _ _ Hmrk Ht).
  - apply (Matches_Cat_last _ _ aliasClass) in H;
      [exact H|vm_compute; reflexivity|exact Halias].
Qed.

End AmiConfigMore.

Section PrepareWrites.
Import Go AmiConfig.
Variable rfc : string -> bool.





End PrepareWrites.

Lemma ValidateKmsKey_accepted_shape_witness :
  exists body c,
    list_ascii_of_string "alias/my-key" = body ++ [c]
    /\ body <> [] /\ AmiConfig.aliasClass c = true.
Proof.
  apply (ValidateKmsKey_accepted_shape "alias/my-key").
  vm_compute. reflexivity.
Defined.

(** ** More on [LogEnvOverrideWarnings] *)

Section PollingMore.
Import Polling.

Lemma LogEnvOverrideWarnings_table (w : AWSPollingConfig) (env : gmap string string) :
  snd (LogEnvOverrideWarnings w env)
  = if timeoutSecondsIsSet env then
      if maxAttemptsIsSet w env then
        [if pollDelayIsSet w env then warn_both else warn_both_nodelay]
      else [warn_timeout_deprecated]
    else if maxAttemptsIsSet w env || pollDelayIsSet w env then []
         else [info_no_overrides].
Proof.
  unfold LogEnvOverrideWarnings, timeoutSecondsIsSet, maxAttemptsIsSet,
    pollDelayIsSet. cbv zeta. cbn [snd].
  destruct (nonempty (Getenv env "AWS_MAX_ATTEMPTS")),
    (nonempty (Getenv env "AWS_TIMEOUT_SECONDS")),
    (nonempty (Getenv env "AWS_POLL_DELAY_SECONDS")),
    (MaxAttempts w =? 0)%Z, (DelaySeconds w =? 0)%Z; reflexivity.
Qed.

(** What [LogEnvOverrideWarnings] looks at: whether each of the three
    variables is set and whether the two fields are zero, and nothing else.
    Two calls that agree on these log the same; setting or changing any
    other variable changes nothing.  A warning is logged exactly when
    [AWS_TIMEOUT_SECONDS] is set, it speaks of the 2-second default only
    when no poll delay is set, and the line about no overrides is logged
    exactly when nothing is set. *)
Theorem LogEnvOverrideWarnings_reads (w : AWSPollingConfig) (env : gmap string string) :
  (forall w' env',
     maxAttemptsIsSet w env = maxAttemptsIsSet w' env' ->
     timeoutSecondsIsSet env = timeoutSecondsIsSet env' ->
     pollDelayIsSet w env = pollDelayIsSet w' env' ->
     snd (LogEnvOverrideWarnings w env) = snd (LogEnvOverrideWarnings w' env'))
  /\ (forall key value,
        key <> "AWS_MAX_ATTEMPTS" -> key <> "AWS_TIMEOUT_SECONDS" ->
        key <> "AWS_POLL_DELAY_SECONDS" ->
        snd (LogEnvOverrideWarnings w (<[key := value]> env))
        = snd (LogEnvOverrideWarnings w env))
  /\ (timeoutSecondsIsSet env = true <->
      exists warning,
        snd (LogEnvOverrideWarnings w env) = [warning]
        /\ (warning = warn_both \/ warning = warn_both_nodelay
            \/ warning = warn_timeout_deprecated))
  /\ (In warn_both_nodelay (snd (LogEnvOverrideWarnings w env)) ->
      pollDelayIsSet w env = false)
  /\ (snd (LogEnvOverrideWarnings w env) = [info_no_overrides]
      <-> maxAttemptsIsSet w env = false /\ timeoutSecondsIsSet env = false
          /\ pollDelayIsSet w env = false).
Proof.
  assert (D1 : info_no_overrides <> warn_both) by (vm_compute; discriminate).
  assert (D2 : info_no_overrides <> warn_both_nodelay) by (vm_compute; discriminate).
  assert (D3 : info_no_overrides <> warn_timeout_deprecated)
    by (vm_compute; discriminate).
  assert (D4 : warn_both <> warn_both_nodelay) by (vm_compute; discriminate).
  assert (D5 : warn_timeout_deprecated <> warn_both_nodelay)
    by (vm_compute; discriminate).
  split; [|split; [|split; [|split]]].
  - intros w' env' H1 H2 H3. rewrite !LogEnvOverrideWarnings_table, H1, H2, H3.
    reflexivity.
  - intros key value K1 K2 K3. rewrite !LogEnvOverrideWarnings_table.
    unfold timeoutSecondsIsSet, maxAttemptsIsSet, pollDelayIsSet, Getenv.
    rewrite !lookup_insert_ne by congruence. reflexivity.
  - rewrite LogEnvOverrideWarnings_table. split.
    + intros ->. destruct (maxAttemptsIsSet w env), (pollDelayIsSet w env);
        eexists; split; try reflexivity; auto.
    + intros (warning & E & Hw). destruct (timeoutSecondsIsSet env); [reflexivity|].
      destruct (maxAttemptsIsSet w env || pollDelayIsSet w env); [discriminate|].
      inversion E; subst. destruct Hw as [Hw|[Hw|Hw]]; congruence.
  - rewrite LogEnvOverrideWarnings_table.
    destruct (timeoutSecondsIsSet env), (maxAttemptsIsSet w env),
      (pollDelayIsSet w env); simpl; intros H; intuition congruence.
  - rewrite LogEnvOverrideWarnings_table.
    destruct (timeoutSecondsIsSet env), (maxAttemptsIsSet w env),
      (pollDelayIsSet w env); simpl; split; try tauto;
      try (intros H; inversion H; congruence);
      try (intros (H1 & H2 & H3); discriminate).
Qed.

End PollingMore.

(** ** [PostProcess]: the tagging phase call by call, and the one object of S3 *)

Section PostProcessObjects.
Import Go AmazonImport ImportCalls.

Variable env : Env.

Lemma messages_trace {X} (f : X -> string) (l : list X) (t : list call) :
  foldr (fun x rest => _ ← do_call (UiMessage (f x)); rest) (mret tt) l t
  = (t ++ map (fun x => UiMessage (f x)) l, Next tt).
Proof.
  revert t. induction l as [|x l IH]; intros t; simpl.
  - rewrite app_nil_r. reflexivity.
  - rewrite bind_do_call, IH, <- app_assoc. reflexivity.
Qed.

(** The tagging phase, call by call: a line per tag, [DescribeImages] on
    the image, then, when it answers with an image, a line per snapshot of
    its block devices, and one [CreateTags] on the image followed by those
    snapshots, with one tag per configured tag.  The snapshots are those of
    the block devices that have an EBS volume with a snapshot id, in the
    order of the devices. *)
Theorem tagging_calls_in_order (c : Config) (ami : string) (t : list call) :
  fst (tagging env c ami t) = t ++ tagging_trace env c ami
  /\ (forall devices id,
        In id (snapshot_ids devices)
        <-> exists device ebs,
              In device devices /\ Ebs device = Some ebs
              /\ SnapshotId ebs = Some id)
  /\ (forall devices, length (snapshot_ids devices) <= length devices).
Proof.
  split; [|split].
  - unfold tagging, tagging_trace. cbv zeta.
    rewrite (bind_eq _ _ _ _ _ (messages_trace _ _ _)), bind_do_call.
    destruct (DescribeImages env [ami]) as [[|image rest]|e].
    + simpl. rewrite ?app_nil_r, <- ?app_assoc. reflexivity.
    + rewrite bind_or_fail_inl.
      rewrite (bind_eq _ _ _ _ _ (messages_trace _ _ _)), !bind_do_call.
      destruct (CreateTags env _ _); simpl;
        rewrite ?app_nil_r, <- ?app_assoc; reflexivity.
    + simpl. rewrite ?app_nil_r, <- ?app_assoc. reflexivity.
  - induction devices as [|device devices IH]; intros id; simpl.
    + split; [intros []|intros (d & e & [] & _)].
    + destruct (Ebs device) as [ebs|] eqn:He.
      * destruct (SnapshotId ebs) as [sid|] eqn:Hs; simpl; rewrite ?IH; split.
        -- intros [<-|(d & e & Hin & H1 & H2)]; [exists device, ebs; auto|].
           exists d, e. auto.
        -- intros (d & e & [<-|Hin] & H1 & H2).
           ++ left. congruence.
           ++ right. eauto.
        -- intros (d & e & Hin & H1 & H2). exists d, e. auto.
        -- intros (d & e & [<-|Hin] & H1 & H2); [congruence|eauto].
      * rewrite IH. split.
        -- intros (d & e & Hin & H1 & H2). exists d, e. auto.
        -- intros (d & e & [<-|Hin] & H1 & H2); [congruence|eauto].
  - induction devices as [|device devices IH]; simpl; [lia|].
    destruct (Ebs device) as [ebs|]; [destruct (SnapshotId ebs)|]; simpl; lia.
Qed.

(** The object uploaded is the object imported and the object deleted: in
    every run, the upload, every [ImportImage] request and the deletion
    name the configured bucket and the key as rendered. *)
Theorem PostProcess_same_object (c : Config) (artifact : SourceArtifact) (key : string) :
  interpolate_Render env (S3Key c) (state_generated_data artifact) = inl key ->
  Forall (same_object (S3Bucket c) key) (fst (run_PostProcess env c artifact)).
Proof.
  intros Hk. rewrite run_PostProcess_fst.
  assert (HR : forall e, (fun _ : result => True) (failed e)) by (intros; exact I).
  assert (H : ensures (PostProcess env c artifact) (same_object (S3Bucket c) key)
                (fun _ => True) (fun _ => True)).
  { unfold PostProcess. cbv zeta.
    eapply ensures_bind with (Q := fun _ => True);
      [apply ensures_or_fail; auto|intros region _].
    eapply ensures_bind with (Q := fun k => k = key);
      [apply ensures_or_fail; [intros a Ha; congruence|auto]|intros k ->].
    set (c' := set_S3Key key c).
    set (source := find_source (Files artifact) ("." +:+ Format c')).
    destruct (String.eqb source ""); [apply ensures_fail; exact I|].
    eapply ensures_bind with (Q := fun _ => True).
    { apply ensures_when. apply ensures_do_call; exact I. }
    intros _ _.
    eapply ensures_bind with (Q := fun _ => True);
      [apply ensures_do_call; exact I|intros _ _].
    eapply ensures_bind with (Q := fun _ => True);
      [apply ensures_check; auto|intros _ _].
    eapply ensures_bind with (Q := fun _ => True);
      [apply ensures_do_call; exact I|intros _ _].
    eapply ensures_bind with (Q := fun _ => True);
      [apply ensures_do_call; [split; reflexivity|exact I]|intros _ _].
    eapply ensures_bind with (Q := fun _ => True);
      [apply ensures_check; auto|intros _ _].
    eapply ensures_bind with (Q := fun _ => True);
      [apply ensures_do_call; exact I|intros _ _].
    eapply ensures_bind with (Q := fun _ => True);
      [apply ensures_do_call; exact I|intros _ _].
    eapply ensures_bind with (Q := fun _ => True).
    { apply ensures_when. apply ensures_do_call; exact I. }
    intros _ _.
    eapply ensures_bind with (Q := fun _ => True).
    { apply retry_ImportImage_calls. split; reflexivity. }
    intros started _.
    eapply ensures_bind with (Q := fun _ => True);
      [apply ensures_or_fail; auto|intros import_start _].
    eapply ensures_bind with (Q := fun _ => True);
      [apply ensures_lift; auto|intros taskId _].
    eapply ensures_bind with (Q := fun _ => True);
      [apply ensures_do_call; exact I|intros _ _].
    eapply ensures_weaken;
      [apply (await_import_calls env (same_object (S3Bucket c) key) (fun _ => True)
                HR c' region import_start taskId)
      | | |]; auto; try (intros; exact I).
    - intros _ ami. simpl. auto.
    - intros _ ami. simpl. auto.
    - intros _. split; reflexivity. }
  destruct (H []) as (t' & E & F & _). rewrite E. exact F.
Qed.

End PostProcessObjects.

Lemma PostProcess_same_object_witness :
  Forall (ImportCalls.same_object "images" "disk.ova")
    (fst (AmazonImport.run_PostProcess (Samples.aws None "completed")
            Samples.import_config Samples.built)).
Proof.
  apply (PostProcess_same_object (Samples.aws None "completed")
           Samples.import_config Samples.built "disk.ova").
  reflexivity.
Defined.
